(** * Stripeflare: identity resolution and balance ledger

    A shallow embedding of [middleware.ts] and of the token codec
    ([encryptToken] / [decryptToken]) together with the properties of the
    design document that can be stated over it.

    Conventions of the embedding.
    - JavaScript strings are [string] (sequences of 8-bit characters);
      a [Uint8Array] is a [list byte]. The token codec is given a
      second time on strings of UTF-16 code units (module [Unicode]),
      with [TextEncoder] and [TextDecoder] written out.
    - SQLite [INTEGER] values and the JavaScript numbers that carry cent
      amounts are [Z]: amounts are whole cents.
    - A Durable Object is addressed by name and holds one [users] table;
      the table is a list of rows in rowid order.
    - [await]-ed code is sequential: every handler is a computation in
      the monad [M], a state monad over [World] with exceptions. *)

From Stdlib Require Import ZArith NArith List String Ascii Bool Lia.
From Stdlib.Strings Require Import Byte.
From stdpp Require Import gmap strings list fin_maps pretty.

Local Open Scope string_scope.
Local Open Scope list_scope.
Local Open Scope Z_scope.

(* ===================================================================== *)
(** * JavaScript values *)
(* ===================================================================== *)

Module Js.

(** A property that may be missing, [null], or hold a value. *)
Inductive nullable (A : Type) : Type :=
| Undefined
| Null
| Val (a : A).
Arguments Undefined {A}.
Arguments Null {A}.
Arguments Val {A} a.

(** Truthiness of a string-valued property: [undefined], [null] and the
    empty string are falsy. *)
Definition truthy (v : nullable string) : bool :=
  match v with
  | Val s => negb (String.eqb s "")
  | _ => false
  end.

Definition nonempty (s : string) : bool := negb (String.eqb s "").

(** [o] as a JavaScript value: SQL [NULL] reads back as [null]. *)
Definition of_sql (o : option string) : nullable string :=
  match o with Some s => Val s | None => Null end.

(** A JavaScript value bound as a statement parameter. *)
Definition to_sql (v : nullable string) : option string :=
  match v with Val s => Some s | _ => None end.

(** [a || b] on optional strings. *)
Definition or_else (a b : option string) : option string :=
  match a with
  | Some s => if nonempty s then a else b
  | None => b
  end.

(** [v || null], as bound to a statement parameter. *)
Definition or_null (v : option string) : option string := or_else v None.

(** [x !== s] for a property [x] and a string [s]. *)
Definition strict_ne (x : nullable string) (s : string) : bool :=
  match x with
  | Val x' => negb (String.eqb x' s)
  | _ => true
  end.

End Js.
Export Js.

(* ===================================================================== *)
(** * The [users] table *)
(* ===================================================================== *)

(** One row of
    [CREATE TABLE users (access_token TEXT PRIMARY KEY, balance INTEGER
    DEFAULT 0, name TEXT, email TEXT, verified_email TEXT,
    verified_user_access_token TEXT, card_fingerprint TEXT,
    client_reference_id TEXT)]. *)
Record Row : Type := mkRow {
  row_access_token : string;
  row_balance : Z;
  row_name : option string;
  row_email : option string;
  row_verified_email : option string;
  row_verified_user_access_token : option string;
  row_card_fingerprint : option string;
  row_client_reference_id : option string
}.

Definition Table : Type := list Row.

(** The statements the middleware issues, one constructor per SQL text. *)
Inductive Sql : Type :=
| SelectByAccessToken (access_token : string)
    (* SELECT * FROM users WHERE access_token = ? *)
| SelectByVerifiedEmail (verified_email : string)
    (* SELECT access_token FROM users WHERE verified_email = ? *)
| SelectByCardFingerprint (card_fingerprint : string)
    (* SELECT access_token FROM users WHERE card_fingerprint = ? *)
| UpdateBalanceSub (amount : Z) (access_token : string)
    (* UPDATE users SET balance = balance - ? WHERE access_token = ? *)
| UpdateBalanceSubGuarded (amount : Z) (access_token : string) (floor : Z)
    (* UPDATE users SET balance = balance - ? WHERE access_token = ? and balance >= ? *)
| UpdateCredit (amount : Z) (email name : option string) (access_token : string)
    (* UPDATE users SET balance = balance + ?, email = ?, name = ? WHERE access_token = ? *)
| UpdateClientReferenceId (client_reference_id access_token : string)
    (* UPDATE users SET client_reference_id = ? WHERE access_token = ? *)
| InsertUser (access_token : string) (balance : Z)
    (email verified_email card_fingerprint name : option string)
    (client_reference_id : string)
    (* INSERT INTO users (access_token, balance, email, verified_email,
       card_fingerprint, name, client_reference_id) VALUES (?,?,?,?,?,?,?) *)
| InsertPointer (access_token verified_user_access_token : string)
    (* INSERT INTO users (access_token, verified_user_access_token) VALUES (?, ?) *)
| InsertCopy (access_token : string) (balance : Z)
    (email verified_email card_fingerprint name : option string)
    (client_reference_id : string) (verified_user_access_token : option string)
    (* INSERT INTO users (access_token, balance, email, verified_email,
       card_fingerprint, name, client_reference_id,
       verified_user_access_token) VALUES (?,?,?,?,?,?,?,?) *)
| DeleteByAccessToken (access_token : string).
    (* DELETE FROM users WHERE access_token = ? *)

(** What [exec] hands back: the first result row and the number of rows
    the statement wrote. *)
Record QueryResult : Type := mkResult {
  one : option Row;
  rowsWritten : nat
}.

Module Sqlite.

Definition has_token (tok : string) (r : Row) : bool :=
  String.eqb (row_access_token r) tok.

Definition col_is (col : Row -> option string) (v : string) (r : Row) : bool :=
  match col r with
  | Some x => String.eqb x v
  | None => false
  end.

(** First row satisfying the [WHERE] clause, in rowid order. *)
Fixpoint first_row (p : Row -> bool) (t : Table) : option Row :=
  match t with
  | [] => None
  | r :: t' => if p r then Some r else first_row p t'
  end.

Fixpoint count_rows (p : Row -> bool) (t : Table) : nat :=
  match t with
  | [] => O
  | r :: t' => if p r then S (count_rows p t') else count_rows p t'
  end.

Fixpoint update_rows (p : Row -> bool) (f : Row -> Row) (t : Table) : Table :=
  match t with
  | [] => []
  | r :: t' => (if p r then f r else r) :: update_rows p f t'
  end.

Fixpoint delete_rows (p : Row -> bool) (t : Table) : Table :=
  match t with
  | [] => []
  | r :: t' => if p r then delete_rows p t' else r :: delete_rows p t'
  end.

(** [INSERT]: a second row with the same primary key is a constraint
    violation ([None]); otherwise the row gets the next rowid. *)
Definition insert_row (r : Row) (t : Table) : option Table :=
  match first_row (has_token (row_access_token r)) t with
  | Some _ => None
  | None => Some (t ++ [r])
  end.

Definition set_balance (b : Z) (r : Row) : Row :=
  mkRow (row_access_token r) b (row_name r) (row_email r)
        (row_verified_email r) (row_verified_user_access_token r)
        (row_card_fingerprint r) (row_client_reference_id r).

Definition credit_row (amount : Z) (email name : option string) (r : Row) : Row :=
  mkRow (row_access_token r) (row_balance r + amount) name email
        (row_verified_email r) (row_verified_user_access_token r)
        (row_card_fingerprint r) (row_client_reference_id r).

Definition set_client_reference_id (cri : string) (r : Row) : Row :=
  mkRow (row_access_token r) (row_balance r) (row_name r) (row_email r)
        (row_verified_email r) (row_verified_user_access_token r)
        (row_card_fingerprint r) (Some cri).

Definition updated (p : Row -> bool) (f : Row -> Row) (t : Table)
  : option (Table * QueryResult) :=
  Some (update_rows p f t, mkResult None (count_rows p t)).

Definition inserted (r : Row) (t : Table) : option (Table * QueryResult) :=
  match insert_row r t with
  | Some t' => Some (t', mkResult None 1)
  | None => None
  end.

(** One statement against one table. [None] is an SQL error (the
    statement throws and the table is unchanged). *)
Definition run (q : Sql) (t : Table) : option (Table * QueryResult) :=
  match q with
  | SelectByAccessToken tok =>
      Some (t, mkResult (first_row (has_token tok) t) 0)
  | SelectByVerifiedEmail e =>
      Some (t, mkResult (first_row (col_is row_verified_email e) t) 0)
  | SelectByCardFingerprint f =>
      Some (t, mkResult (first_row (col_is row_card_fingerprint f) t) 0)
  | UpdateBalanceSub amount tok =>
      updated (has_token tok)
              (fun r => set_balance (row_balance r - amount) r) t
  | UpdateBalanceSubGuarded amount tok floor =>
      updated (fun r => has_token tok r && (floor <=? row_balance r)%Z)
              (fun r => set_balance (row_balance r - amount) r) t
  | UpdateCredit amount email name tok =>
      updated (has_token tok) (credit_row amount email name) t
  | UpdateClientReferenceId cri tok =>
      updated (has_token tok) (set_client_reference_id cri) t
  | InsertUser tok bal email vemail fp name cri =>
      inserted (mkRow tok bal name email vemail None fp (Some cri)) t
  | InsertPointer tok vuat =>
      inserted (mkRow tok 0 None None None (Some vuat) None None) t
  | InsertCopy tok bal email vemail fp name cri vuat =>
      inserted (mkRow tok bal name email vemail vuat fp (Some cri)) t
  | DeleteByAccessToken tok =>
      Some (delete_rows (has_token tok) t,
            mkResult None (count_rows (has_token tok) t))
  end.

End Sqlite.

(* ===================================================================== *)
(** * The world: Durable Objects, faults, randomness *)
(* ===================================================================== *)

(** What can go wrong with one [exec] call. *)
Inductive Fault : Type :=
| NoFault
| ThrowBefore     (* the call fails before the statement reaches its shard *)
| ThrowAfterMain  (* the shard ran the statement, then the call failed *)
| MirrorLost.     (* the shard ran the statement; the mirror write was lost *)

Record World : Type := mkWorld {
  objects : gmap string Table;  (* Durable Object name -> its users table *)
  faults : list Fault;          (* what happens to the next exec calls *)
  uuids : nat -> string;        (* the values crypto.randomUUID() will return *)
  uuid_next : nat
}.

(** The table of a Durable Object; one never used is empty. *)
Definition shard (w : World) (name : string) : Table :=
  default [] (objects w !! name).

Definition set_shard (name : string) (t : Table) (w : World) : World :=
  mkWorld (<[name := t]> (objects w)) (faults w) (uuids w) (uuid_next w).

Definition set_faults (fs : list Fault) (w : World) : World :=
  mkWorld (objects w) fs (uuids w) (uuid_next w).

(** Outcome of a computation: a value, or a thrown exception. *)
Inductive Res (A : Type) : Type :=
| Ret (a : A)
| Throw.
Arguments Ret {A} a.
Arguments Throw {A}.

Definition M (A : Type) : Type := World -> Res A * World.

Definition ret {A} (a : A) : M A := fun w => (Ret a, w).

Definition throw {A} : M A := fun w => (Throw, w).

Definition bind {A B} (m : M A) (k : A -> M B) : M B :=
  fun w =>
    match m w with
    | (Ret a, w') => k a w'
    | (Throw, w') => (Throw, w')
    end.

(** [try { m } catch { h }]: state changes made before the throw stay. *)
Definition try_catch {A} (m : M A) (h : M A) : M A :=
  fun w =>
    match m w with
    | (Ret a, w') => (Ret a, w')
    | (Throw, w') => h w'
    end.

Notation "'let!' x ':=' m 'in' k" := (bind m (fun x => k))
  (at level 10, x name, m at level 100, k at level 200).
Notation "'let!' '_' ':=' m 'in' k" := (bind m (fun _ => k))
  (at level 10, m at level 100, k at level 200).

(** [crypto.randomUUID()]. *)
Definition randomUUID : M string :=
  fun w => (Ret (uuids w (uuid_next w)),
            mkWorld (objects w) (faults w) (uuids w) (S (uuid_next w))).

(** A DORM client: the shard its statements run on, and the shard they
    are mirrored to. *)
Record Client : Type := mkClient {
  main : string;
  mirror : option string
}.

(** Mirror write: best effort, its own errors are swallowed. *)
Definition mirror_write (c : Client) (q : Sql) (w : World) : World :=
  match mirror c with
  | None => w
  | Some m =>
      match Sqlite.run q (shard w m) with
      | Some (t', _) => set_shard m t' w
      | None => w
      end
  end.

(** [client.exec(sql, ...params)]. *)
Definition exec (c : Client) (q : Sql) : M QueryResult :=
  fun w =>
    let f := match faults w with [] => NoFault | f :: _ => f end in
    let w := set_faults (tail (faults w)) w in
    match f with
    | ThrowBefore => (Throw, w)
    | _ =>
        match Sqlite.run q (shard w (main c)) with
        | None => (Throw, w)
        | Some (t', res) =>
            let w1 := set_shard (main c) t' w in
            match f with
            | ThrowAfterMain => (Throw, w1)
            | MirrorLost => (Ret res, w1)
            | _ => (Ret res, mirror_write c q w1)
            end
        end
    end.

(* ===================================================================== *)
(** * Token codec *)
(* ===================================================================== *)

(** [btoa] and [atob] of the platform, on binary strings. *)
Module Base64.

Local Open Scope N_scope.

Definition alphabet : string :=
  "ABCDEFGHIJKLMNOPQRSTUVWXYZabcdefghijklmnopqrstuvwxyz0123456789+/".

Definition pad : ascii := "="%char.

Definition encode_sextet (n : N) : ascii :=
  match String.get (N.to_nat n) alphabet with
  | Some c => c
  | None => pad
  end.

Fixpoint index_from (i : N) (c : ascii) (s : string) : option N :=
  match s with
  | EmptyString => None
  | String c' s' => if Ascii.eqb c c' then Some i else index_from (i + 1) c s'
  end.

Definition decode_sextet (c : ascii) : option N := index_from 0 c alphabet.

(** [btoa]: three bytes become four characters; the tail is padded. *)
Fixpoint btoa (s : string) : string :=
  match s with
  | EmptyString => EmptyString
  | String a EmptyString =>
      let a := N_of_ascii a in
      String (encode_sextet (a / 4))
        (String (encode_sextet ((a mod 4) * 16))
           (String pad (String pad EmptyString)))
  | String a (String b EmptyString) =>
      let a := N_of_ascii a in
      let b := N_of_ascii b in
      String (encode_sextet (a / 4))
        (String (encode_sextet ((a mod 4) * 16 + b / 16))
           (String (encode_sextet ((b mod 16) * 4))
              (String pad EmptyString)))
  | String a (String b (String c rest)) =>
      let a := N_of_ascii a in
      let b := N_of_ascii b in
      let c := N_of_ascii c in
      String (encode_sextet (a / 4))
        (String (encode_sextet ((a mod 4) * 16 + b / 16))
           (String (encode_sextet ((b mod 16) * 4 + c / 64))
              (String (encode_sextet (c mod 64)) (btoa rest))))
  end.

Definition is_ascii_whitespace (c : ascii) : bool :=
  let n := N_of_ascii c in
  (n =? 9) || (n =? 10) || (n =? 12) || (n =? 13) || (n =? 32).

(** Drop one or two trailing [=] when the length is a multiple of 4. *)
Definition strip_padding (l : list ascii) : list ascii :=
  if (N.of_nat (length l) mod 4 =? 0) then
    match rev l with
    | p1 :: p2 :: r =>
        if Ascii.eqb p1 pad then
          if Ascii.eqb p2 pad then rev r else rev (p2 :: r)
        else l
    | _ => l
    end
  else l.

(** All characters to sextets; [None] on a character outside the
    alphabet. *)
Fixpoint sextets (l : list ascii) : option (list N) :=
  match l with
  | [] => Some []
  | c :: l' =>
      match decode_sextet c, sextets l' with
      | Some n, Some ns => Some (n :: ns)
      | _, _ => None
      end
  end.

(** Four sextets become three bytes; a tail of two or three sextets
    yields one or two bytes, a tail of one is an error. *)
Fixpoint bytes_of_sextets (l : list N) : option (list ascii) :=
  match l with
  | [] => Some []
  | [_] => None
  | [a; b] => Some [ascii_of_N (a * 4 + b / 16)]
  | [a; b; c] =>
      Some [ascii_of_N (a * 4 + b / 16);
            ascii_of_N ((b mod 16) * 16 + c / 4)]
  | a :: b :: c :: d :: rest =>
      match bytes_of_sextets rest with
      | Some bs =>
          Some (ascii_of_N (a * 4 + b / 16)
                :: ascii_of_N ((b mod 16) * 16 + c / 4)
                :: ascii_of_N ((c mod 4) * 64 + d)
                :: bs)
      | None => None
      end
  end.

(** [atob] (forgiving base64 decode); [None] when it throws. *)
Definition atob (s : string) : option string :=
  let l := filter (fun c => negb (is_ascii_whitespace c))
                  (list_ascii_of_string s) in
  match sextets (strip_padding l) with
  | Some ns =>
      match bytes_of_sextets ns with
      | Some bs => Some (string_of_list_ascii bs)
      | None => None
      end
  | None => None
  end.

End Base64.

(** [s.replace(/a/g, b)] for single characters. *)
Fixpoint replace_char (a b : ascii) (s : string) : string :=
  match s with
  | EmptyString => EmptyString
  | String c s' => String (if Ascii.eqb c a then b else c) (replace_char a b s')
  end.

(** [s.replace(/a/g, "")]. *)
Fixpoint remove_char (a : ascii) (s : string) : string :=
  match s with
  | EmptyString => EmptyString
  | String c s' => if Ascii.eqb c a then remove_char a s'
                   else String c (remove_char a s')
  end.

Fixpoint repeat_char (c : ascii) (n : nat) : string :=
  match n with
  | O => EmptyString
  | S n' => String c (repeat_char c n')
  end.

(** [s.padEnd(target, c)] with a one-character filler. *)
Definition padEnd (s : string) (target : nat) (c : ascii) : string :=
  String.append s (repeat_char c (target - String.length s)).

(** The primitives the codec takes from the runtime: [TextEncoder],
    [TextDecoder] and [crypto.subtle]. *)
Class WebCrypto : Type := {
  CryptoKey : Type;
  TextEncoder_encode : string -> list byte;
  TextDecoder_decode : list byte -> string;
  (* importKey + deriveKey: PBKDF2 over SHA-256 to an AES-GCM 256 key *)
  PBKDF2_deriveKey : list byte -> list byte -> N -> CryptoKey;
  SHA256_digest : list byte -> list byte;
  AES_GCM_encrypt : CryptoKey -> list byte -> list byte -> list byte;
  (* [None]: the operation throws (tag mismatch, malformed input) *)
  AES_GCM_decrypt : CryptoKey -> list byte -> list byte -> option (list byte)
}.

(** What the codec relies on. [decode_encode] is a law of the strings
    of 8-bit characters only: a string with a surrogate that stands
    alone, or one that begins with U+FEFF, does not come back (module
    [Unicode]). *)
Class WebCryptoLaws (P : WebCrypto) : Prop := {
  decode_encode : forall s, TextDecoder_decode (TextEncoder_encode s) = s;
  digest_length : forall d, length (SHA256_digest d) = 32%nat;
  decrypt_encrypt : forall k iv m,
    AES_GCM_decrypt k iv (AES_GCM_encrypt k iv m) = Some m
}.

Section Codec.

Context {P : WebCrypto}.

Definition IV_LENGTH : nat := 12.

Definition deriveKey (secret : string) : CryptoKey :=
  PBKDF2_deriveKey (TextEncoder_encode secret)
                   (TextEncoder_encode "deterministic-salt") 100000%N.

Definition generateIV (accessToken : string) : list byte :=
  firstn IV_LENGTH (SHA256_digest (TextEncoder_encode accessToken)).

Definition arrayBufferToBase64Url (buffer : list byte) : string :=
  let binary := string_of_list_byte buffer in
  remove_char "="
    (replace_char "/" "_" (replace_char "+" "-" (Base64.btoa binary))).

Definition base64UrlToArrayBuffer (base64url : string) : option (list byte) :=
  let len := String.length base64url in
  let base64 :=
    padEnd (replace_char "_" "/" (replace_char "-" "+" base64url))
           (len + (4 - len mod 4) mod 4)%nat "=" in
  match Base64.atob base64 with
  | Some binary => Some (list_byte_of_string binary)
  | None => None
  end.

Definition encryptToken (token secret : string) : string :=
  let key := deriveKey secret in
  let iv := generateIV token in
  let encrypted := AES_GCM_encrypt key iv (TextEncoder_encode token) in
  let combined := iv ++ encrypted in
  arrayBufferToBase64Url combined.

(** [None]: [decryptToken] throws. *)
Definition decryptToken (cipherText secret : string) : option string :=
  let key := deriveKey secret in
  match base64UrlToArrayBuffer cipherText with
  | Some combined =>
      let iv := firstn IV_LENGTH combined in
      let encrypted := skipn IV_LENGTH combined in
      match AES_GCM_decrypt key iv encrypted with
      | Some decrypted => Some (TextDecoder_decode decrypted)
      | None => None
      end
  | None => None
  end.

End Codec.

(* ===================================================================== *)
(** * Strings, headers, requests and responses *)
(* ===================================================================== *)

Module Str.

(** [s.split(c)] for a one-character separator. *)
Fixpoint split (sep : ascii) (s : string) : list string :=
  match s with
  | EmptyString => [EmptyString]
  | String c s' =>
      if Ascii.eqb c sep then EmptyString :: split sep s'
      else match split sep s' with
           | h :: t => String c h :: t
           | [] => [String c EmptyString]
           end
  end.

(** White space of [String.prototype.trim] among 8-bit characters. *)
Definition is_space (c : ascii) : bool :=
  let n := N_of_ascii c in
  ((9 <=? n) && (n <=? 13) || (n =? 32) || (n =? 160))%N.

Fixpoint trim_start (s : string) : string :=
  match s with
  | String c s' => if is_space c then trim_start s' else s
  | EmptyString => EmptyString
  end.

Definition trim (s : string) : string :=
  String.rev (trim_start (String.rev (trim_start s))).

Definition lower (c : ascii) : ascii :=
  let n := N_of_ascii c in
  if ((65 <=? n) && (n <=? 90))%N then ascii_of_N (n + 32) else c.

Fixpoint toLowerCase (s : string) : string :=
  match s with
  | EmptyString => EmptyString
  | String c s' => String (lower c) (toLowerCase s')
  end.

Fixpoint startsWith (s p : string) : bool :=
  match p, s with
  | EmptyString, _ => true
  | String a p', String b s' => Ascii.eqb a b && startsWith s' p'
  | String _ _, EmptyString => false
  end.

(** [s.slice(n)]. *)
Fixpoint slice_from (n : nat) (s : string) : string :=
  match n, s with
  | O, _ => s
  | S n', String _ s' => slice_from n' s'
  | S _, EmptyString => EmptyString
  end.

Definition is_hex (c : ascii) : bool :=
  let n := N_of_ascii c in
  ((48 <=? n) && (n <=? 57) || (97 <=? n) && (n <=? 102)
   || (65 <=? n) && (n <=? 70))%N.

(** Consume exactly [n] hexadecimal digits. *)
Fixpoint hex_run (n : nat) (s : string) : option string :=
  match n with
  | O => Some s
  | S n' =>
      match s with
      | String c s' => if is_hex c then hex_run n' s' else None
      | EmptyString => None
      end
  end.

Definition dash (o : option string) : option string :=
  match o with
  | Some (String "-" s) => Some s
  | _ => None
  end.

Definition hex_digit (n : N) : ascii :=
  match String.get (N.to_nat n) "0123456789ABCDEF" with
  | Some c => c
  | None => "0"%char
  end.

Definition is_uri_unreserved (c : ascii) : bool :=
  let n := N_of_ascii c in
  ((48 <=? n) && (n <=? 57) || (97 <=? n) && (n <=? 122)
   || (65 <=? n) && (n <=? 90))%N
  || existsb (Ascii.eqb c) (list_ascii_of_string "-_.!~*'()").

(** [encodeURIComponent], each 8-bit character taken as one byte. *)
Fixpoint encodeURIComponent (s : string) : string :=
  match s with
  | EmptyString => EmptyString
  | String c s' =>
      if is_uri_unreserved c then String c (encodeURIComponent s')
      else
        let n := N_of_ascii c in
        String "%" (String (hex_digit (n / 16))
                      (String (hex_digit (n mod 16)) (encodeURIComponent s')))
  end.

End Str.

(** [/^[0-9a-f]{8}-[0-9a-f]{4}-[0-9a-f]{4}-[0-9a-f]{4}-[0-9a-f]{12}$/i] *)
Definition uuidGeneralRegex (s : string) : bool :=
  match Str.dash (Str.hex_run 8 s) with
  | Some s1 =>
      match Str.dash (Str.hex_run 4 s1) with
      | Some s2 =>
          match Str.dash (Str.hex_run 4 s2) with
          | Some s3 =>
              match Str.dash (Str.hex_run 4 s3) with
              | Some s4 =>
                  match Str.hex_run 12 s4 with
                  | Some EmptyString => true
                  | _ => false
                  end
              | None => false
              end
          | None => false
          end
      | None => false
      end
  | None => false
  end.

Module Headers.

(** A [Headers] object: names are case-insensitive. *)
Definition t : Type := list (string * string).

Definition same_name (a b : string) : bool :=
  String.eqb (Str.toLowerCase a) (Str.toLowerCase b).

Fixpoint get (name : string) (h : t) : option string :=
  match h with
  | [] => None
  | (k, v) :: h' => if same_name k name then Some v else get name h'
  end.

Definition set (name value : string) (h : t) : t :=
  filter (fun kv => negb (same_name (fst kv) name)) h ++ [(name, value)].

End Headers.

Record Request : Type := mkRequest {
  method : string;
  pathname : string;            (* new URL(request.url).pathname *)
  hostname : string;            (* new URL(request.url).hostname *)
  cookie_header : option string;
  authorization_header : option string;
  stripe_signature : option string;
  request_body : option string
}.

Record Env : Type := mkEnv {
  DB_SECRET : string;
  STRIPE_WEBHOOK_SIGNING_SECRET : string;
  STRIPE_SECRET : string;
  STRIPE_PUBLISHABLE_KEY : string;
  STRIPE_PAYMENT_LINK : string;
  SKIP_LOGIN : option string
}.

(** Values that appear in the JSON bodies. *)
Inductive JsVal : Type :=
| JNull
| JString (s : string)
| JNumber (z : Z)
| JBool (b : bool).

(** An object literal: its own properties in order. *)
Definition JsObject : Type := list (string * JsVal).

(** A response body: plain text, or [JSON.stringify] of an object. *)
Inductive Body : Type :=
| Text (s : string)
| Json (o : JsObject).

Record Response : Type := mkResponse {
  status : Z;
  body : Body;
  response_headers : Headers.t
}.

Record StripeUser : Type := mkUser {
  access_token : string;
  verified_user_access_token : nullable string;
  client_reference_id : nullable string;
  name : nullable string;
  balance : Z;
  email : nullable string;
  card_fingerprint : nullable string;
  verified_email : nullable string
}.

(** The object [SELECT *] yields for a row. *)
Definition user_of_row (r : Row) : StripeUser :=
  mkUser (row_access_token r)
         (of_sql (row_verified_user_access_token r))
         (of_sql (row_client_reference_id r))
         (of_sql (row_name r))
         (row_balance r)
         (of_sql (row_email r))
         (of_sql (row_card_fingerprint r))
         (of_sql (row_verified_email r)).

(** The Stripe objects the webhook reads. *)
Record CustomerDetails : Type := mkCustomer {
  customer_email : option string;
  customer_name : option string
}.

Record CheckoutSession : Type := mkCheckout {
  payment_status : string;
  amount_total : option Z;
  session_client_reference_id : option string;
  customer_details : option CustomerDetails;
  payment_intent : option string
}.

Record PaymentMethodDetails : Type := mkPaymentMethod {
  payment_method_type : string;
  card_fingerprint_of : option string   (* payment_method_details.card?.fingerprint *)
}.

Record StripeEvent : Type := mkEvent {
  event_type : string;
  event_object : CheckoutSession        (* event.data.object *)
}.

Record ChargeResult : Type := mkCharge {
  charged : bool;
  message : string
}.

Record StripeflareContext : Type := mkContext {
  ctx_user : StripeUser;
  ctx_charge : Z -> bool -> M ChargeResult;
  ctx_client : option Client;
  ctx_paymentLink : option string;
  ctx_registered : bool
}.

Inductive MiddlewareResult : Type :=
| MwResponse (response : Response)
| MwSession (user : StripeUser) (headers : Headers.t)
            (client : option Client) (paymentLink : option string)
            (registered : bool) (charge : Z -> bool -> M ChargeResult).

(** The collaborators outside the repository: the Stripe SDK, the DORM
    admin panel and the number parser of the runtime. *)
Class Collaborators : Type := {
  (* stripe.webhooks.constructEventAsync(body, signature, secret);
     [None] when it throws *)
  constructEventAsync : string -> string -> string -> option StripeEvent;
  (* stripe.paymentIntents.retrieve, then stripe.charges.retrieve of its
     latest charge. [None] when either call rejects (a session without
     payment intent, an unknown charge, Stripe out of reach); else the
     payment_method_details of that charge, which may be null *)
  retrieve_payment_method_details :
    string -> CheckoutSession -> option (option PaymentMethodDetails);
  (* client.middleware(request, { prefix, basicAuth }) *)
  dorm_middleware :
    Client -> Request -> string -> string -> string -> M (option Response);
  (* Number(s), on whole numbers; [None] is NaN *)
  Number : string -> option Z
}.

(* ===================================================================== *)
(** * The middleware *)
(* ===================================================================== *)

Section Middleware.

Context {P : WebCrypto} {X : Collaborators}.

Definition AGGREGATE_NAME : string := "admin-readonly".
Definition DO_PREFIX : string := "user-".

(** [cookies[name] = value] on the object literal [{}]: the name
    [__proto__] reaches the setter of [Object.prototype], which ignores a
    string; every other name becomes an own property. *)
Definition set_property (name value : string) (cookies : gmap string string)
  : gmap string string :=
  if String.eqb name "__proto__" then cookies else <[name := value]> cookies.

Definition parseCookies (cookieHeader : string) : gmap string string :=
  foldl
    (fun (cookies : gmap string string) (cookie : string) =>
       match map Str.trim (Str.split "=" cookie) with
       | name :: value :: _ =>
           if nonempty name && nonempty value
           then set_property name value cookies
           else cookies
       | _ => cookies
       end)
    ∅ (Str.split ";" cookieHeader).

Definition getClientReferenceId (access_token secret : string) : string :=
  encryptToken access_token secret.

Definition getDOName (client_reference_id : string) : string :=
  DO_PREFIX +:+ client_reference_id.

(** [createClient] with [configs: [{name: version-doName},
    {name: version-AGGREGATE_NAME}]]. *)
Definition createClient (version doName : string) : Client :=
  mkClient (version +:+ "-" +:+ doName)
           (Some (version +:+ "-" +:+ AGGREGATE_NAME)).

(** [createClient] with the aggregate as its only config. *)
Definition createAggregateClient (version : string) : Client :=
  mkClient (version +:+ "-" +:+ AGGREGATE_NAME) None.

Definition cookieSuffix (env : Env) (hostname : string) : string :=
  let skipLogin :=
    match SKIP_LOGIN env with
    | Some v => String.eqb v "true"
    | None => false
    end in
  let securePart := if skipLogin then "" else " Secure;" in
  let domainPart :=
    if skipLogin then "" else " Domain=" +:+ hostname +:+ ";" in
  ";" +:+ domainPart +:+ " HttpOnly; Path=/;" +:+ securePart
      +:+ " Max-Age=34560000; SameSite=Lax".

Definition set_cookie (env : Env) (hostname token : string) : string :=
  "access_token=" +:+ token +:+ cookieSuffix env hostname.

(** ** Session resolution *)

(** The three locals of [handleUserSession]. *)
Record Locals : Type := mkLocals {
  accessToken : option string;
  found_user : option StripeUser;
  found_client : option Client
}.

(** The [catch] clause: [client = undefined; user = null]. It leaves
    [accessToken] as it was when the statement threw. *)
Definition not_found (accessToken : string) : M Locals :=
  ret (mkLocals (Some accessToken) None None).

Definition with_client_reference_id (cri : string) (u : StripeUser) : StripeUser :=
  mkUser (access_token u) (verified_user_access_token u) (Val cri)
         (name u) (balance u) (email u) (card_fingerprint u)
         (verified_email u).

(** [if (user) { ... }]: rewrite a stale [client_reference_id]. *)
Definition refresh_client_reference_id (env : Env) (client : Client)
    (accessToken : string) (user : option StripeUser) : M Locals :=
  match user with
  | Some u =>
      let client_reference_id' := encryptToken accessToken (DB_SECRET env) in
      if strict_ne (client_reference_id u) client_reference_id' then
        let! _ := exec client
                    (UpdateClientReferenceId client_reference_id' accessToken) in
        ret (mkLocals (Some accessToken)
                      (Some (with_client_reference_id client_reference_id' u))
                      (Some client))
      else ret (mkLocals (Some accessToken) (Some u) (Some client))
  | None => ret (mkLocals (Some accessToken) None (Some client))
  end.

(** The [if (accessToken) { ... try { ... } catch { ... } }] block.
    The part of the [try] block that runs after [accessToken] has been
    reassigned carries the handler for the new value. *)
Definition find_user (env : Env) (version : string) (accessToken : string)
  : M Locals :=
  let clientReferenceId := getClientReferenceId accessToken (DB_SECRET env) in
  let doName := getDOName clientReferenceId in
  let client := createClient version doName in
  try_catch
    (let! userResult := exec client (SelectByAccessToken accessToken) in
     let user := option_map user_of_row (one userResult) in
     match user with
     | Some u =>
         match verified_user_access_token u with
         | Val verified =>
             if nonempty verified then
               let accessToken := verified in
               let verifiedClientReferenceId :=
                 getClientReferenceId accessToken (DB_SECRET env) in
               let verifiedDOName := getDOName verifiedClientReferenceId in
               let client := createClient version verifiedDOName in
               try_catch
                 (let! verifiedUserResult :=
                    exec client (SelectByAccessToken accessToken) in
                  let user := option_map user_of_row (one verifiedUserResult) in
                  refresh_client_reference_id env client accessToken user)
                 (not_found accessToken)
             else refresh_client_reference_id env client accessToken user
         | _ => refresh_client_reference_id env client accessToken user
         end
     | None => refresh_client_reference_id env client accessToken user
     end)
    (not_found accessToken).

Definition bearerToken (request : Request) : option string :=
  match authorization_header request with
  | Some h =>
      if Str.startsWith (Str.toLowerCase h) "bearer "
      then Some (Str.slice_from (String.length "Bearer ") h)
      else None
  | None => None
  end.

(** The credential of a request: [bearerToken || cookies.access_token]. *)
Definition credential (request : Request) : option string :=
  let cookies :=
    match cookie_header request with
    | Some h => if nonempty h then parseCookies h else ∅
    | None => ∅
    end in
  or_else (bearerToken request) (cookies !! "access_token").

(** The object built when no user was found. *)
Definition new_user (accessToken client_reference_id : string) : StripeUser :=
  mkUser accessToken Undefined (Val client_reference_id) Undefined 0 Null
         Undefined Undefined.

Record Session : Type := mkSession {
  session_user : StripeUser;
  session_client : option Client;
  session_headers : Headers.t
}.

Definition handleUserSession (request : Request) (env : Env)
    (version : string) : M Session :=
  let! found :=
    match credential request with
    | Some tok =>
        if nonempty tok then find_user env version tok
        else ret (mkLocals (Some tok) None None)
    | None => ret (mkLocals None None None)
    end in
  let! user :=
    match found_user found with
    | Some u => ret u
    | None =>
        let! accessToken :=
          match accessToken found with
          | Some tok =>
              if nonempty tok && uuidGeneralRegex tok then ret tok
              else randomUUID
          | None => randomUUID
          end in
        let client_reference_id := encryptToken accessToken (DB_SECRET env) in
        ret (new_user accessToken client_reference_id)
    end in
  let headers :=
    [("Set-Cookie", set_cookie env (hostname request) (access_token user))] in
  ret (mkSession user (found_client found) headers).

(** ** Charging *)

Definition not_signed_up : ChargeResult :=
  mkCharge false "User is not signed up yet and cannot be charged".
Definition balance_too_low : ChargeResult :=
  mkCharge false "User balance too low".
Definition successfully_charged : ChargeResult :=
  mkCharge true "Successfully charged".

(** The [charge] closure of [stripeBalanceMiddleware], over the
    [client] and [user] of the session. *)
Definition charge (client : option Client) (user : StripeUser)
    (amountCent : Z) (allowNegativeBalance : bool) : M ChargeResult :=
  match client with
  | Some client =>
      if nonempty (access_token user) then
        let! result :=
          if allowNegativeBalance
          then exec client (UpdateBalanceSub amountCent (access_token user))
          else exec client (UpdateBalanceSubGuarded amountCent
                              (access_token user) amountCent) in
        if Nat.eqb (rowsWritten result) 0 then ret balance_too_low
        else ret successfully_charged
      else ret not_signed_up
  | None => ret not_signed_up
  end.


(** ** The payment webhook *)

Definition text (st : Z) (s : string) : Response := mkResponse st (Text s) [].

Definition json_error (st : Z) (msg : string) : Response :=
  mkResponse st (Json [("error", JString msg)])
             [("Content-Type", "application/json")].

Definition processed : Response := text 200 "Payment processed successfully".

(** The [checkout.session.completed] branch. *)
Definition checkout_completed (env : Env) (version : string)
    (session : CheckoutSession) : M Response :=
  match amount_total session with
  | Some amount_total =>
      if negb (String.eqb (payment_status session) "paid")
         || (amount_total =? 0)
      then ret (text 400 "Payment not completed")
      else
      match or_null (session_client_reference_id session) with
      | None => ret (text 400 "Missing client_reference_id")
      | Some client_reference_id =>
      match or_null (customer_details session ≫= customer_email) with
      | None => ret (text 400 "Missing customer_details.email")
      | Some customer_email =>
      let customer_name := customer_details session ≫= customer_name in
      if negb (nonempty (DB_SECRET env))
      then ret (text 400 "Missing DB_SECRET")
      else
      match decryptToken client_reference_id (DB_SECRET env) with
      | None =>
          ret (text 200 "Could not decrypt client_reference_id. Assuming this event is not meant for this webhook.")
      | Some access_token =>
      let aggregateClient := createAggregateClient version in
      let! userResult :=
        exec aggregateClient (SelectByAccessToken access_token) in
      let userFromAccessToken := one userResult in
      let doName := getDOName client_reference_id in
      match userFromAccessToken with
      | Some _ =>
          (* existing user found at this access_token, just add balance *)
          let client := createClient version doName in
          let! _ := exec client
                      (UpdateCredit amount_total (Some customer_email)
                         (or_null customer_name) access_token) in
          ret processed
      | None =>
      (* the two retrievals stand outside any [try]: a rejection
         escapes the handler *)
      match retrieve_payment_method_details (STRIPE_SECRET env) session with
      | None => throw
      | Some payment_method_details =>
      let card_fingerprint :=
        payment_method_details ≫= card_fingerprint_of in
      let verified_email :=
        match payment_method_details with
        | Some d => if String.eqb (payment_method_type d) "link"
                    then Some customer_email else None
        | None => None
        end in
      let! userFromEmail :=
        match or_null verified_email with
        | Some e =>
            let! r := exec aggregateClient (SelectByVerifiedEmail e) in
            ret (one r)
        | None => ret None
        end in
      let! userFromFingerprint :=
        match or_null card_fingerprint with
        | Some f =>
            let! r := exec aggregateClient (SelectByCardFingerprint f) in
            ret (one r)
        | None => ret None
        end in
      let verified_user_access_token :=
        or_else (option_map row_access_token userFromEmail)
                (option_map row_access_token userFromFingerprint) in
      match or_null verified_user_access_token with
      | None =>
          (* no user and no alternate access token: create the user *)
          let client := createClient version doName in
          let! _ := exec client
                      (InsertUser access_token amount_total
                         (Some customer_email) (or_null verified_email)
                         (or_null card_fingerprint) (or_null customer_name)
                         client_reference_id) in
          ret processed
      | Some verified_user_access_token =>
      let isAlternateAccessToken :=
        negb (String.eqb verified_user_access_token access_token) in
      if negb isAlternateAccessToken
      then ret (text 500 "Found the user even though 'userFromAccessToken' was not found. Data might be corrupt")
      else
      let client := createClient version doName in
      let! _ := exec client
                  (InsertPointer access_token verified_user_access_token) in
      let verifiedUserClientReferenceId :=
        getClientReferenceId verified_user_access_token (DB_SECRET env) in
      let verifiedUserDOName := getDOName verifiedUserClientReferenceId in
      let verifiedUserClient := createClient version verifiedUserDOName in
      let! _ := exec verifiedUserClient
                  (UpdateCredit amount_total (Some customer_email)
                     (or_null customer_name) verified_user_access_token) in
      ret processed
      end end end end end end
  | None => ret (text 400 "Payment not completed")
  end.

Definition handleStripeWebhook (request : Request) (env : Env)
    (version : string) : M Response :=
  match request_body request with
  | None => ret (json_error 400 "No body")
  | Some rawBodyString =>
      match or_null (stripe_signature request) with
      | None => ret (json_error 400 "No signature")
      | Some stripeSignature =>
          match constructEventAsync rawBodyString stripeSignature
                  (STRIPE_WEBHOOK_SIGNING_SECRET env) with
          | None => ret (text 400 "Webhook error")
          | Some event =>
              if String.eqb (event_type event) "checkout.session.completed"
              then checkout_completed env version (event_object event)
              else ret (text 200 "Event not handled")
          end
      end
  end.

(** ** Token rotation *)

Definition handleTokenRotation (request : Request) (env : Env)
    (version : string) : M Response :=
  if negb (String.eqb (method request) "POST")
  then ret (text 405 "Method not allowed")
  else
    let! session := handleUserSession request env version in
    let user := session_user session in
    match session_client session with
    | Some client =>
        if negb (nonempty (access_token user))
        then ret (json_error 401 "Not authenticated")
        else
          let! newAccessToken := randomUUID in
          let newClientReferenceId :=
            encryptToken newAccessToken (DB_SECRET env) in
          let newDOName := getDOName newClientReferenceId in
          let newUserClient := createClient version newDOName in
          try_catch
            (let! _ := exec newUserClient
                         (InsertCopy newAccessToken (balance user)
                            (to_sql (email user))
                            (to_sql (verified_email user))
                            (to_sql (card_fingerprint user))
                            (to_sql (name user))
                            newClientReferenceId None) in
             let! _ := exec client
                         (DeleteByAccessToken (access_token user)) in
             ret (mkResponse 200
                    (Json [("success", JBool true);
                           ("message", JString "Token rotated successfully")])
                    [("Content-Type", "application/json");
                     ("Set-Cookie",
                      set_cookie env (hostname request) newAccessToken)]))
            (let! _ :=
               try_catch
                 (let! _ := exec newUserClient
                              (DeleteByAccessToken newAccessToken) in
                  ret tt)
                 (ret tt) in
             ret (json_error 500 "Failed to rotate token"))
    | None => ret (json_error 401 "Not authenticated")
    end.

(** ** The middleware entry point *)

Definition property (key : string) (v : nullable string) : JsObject :=
  match v with
  | Undefined => []
  | Null => [(key, JNull)]
  | Val s => [(key, JString s)]
  end.

(** The own properties of a user object, in column order. *)
Definition properties (u : StripeUser) : JsObject :=
  [("access_token", JString (access_token u));
   ("balance", JNumber (balance u))]
  ++ property "name" (name u)
  ++ property "email" (email u)
  ++ property "verified_email" (verified_email u)
  ++ property "verified_user_access_token" (verified_user_access_token u)
  ++ property "card_fingerprint" (card_fingerprint u)
  ++ property "client_reference_id" (client_reference_id u).

(** [const { access_token, verified_user_access_token,
    client_reference_id, ...publicUser } = user]. *)
Definition publicUser (u : StripeUser) : JsObject :=
  filter (fun kv =>
            negb (String.eqb (fst kv) "access_token"
                  || String.eqb (fst kv) "verified_user_access_token"
                  || String.eqb (fst kv) "client_reference_id"))
         (properties u).

Definition payment_link (env : Env) (u : StripeUser) : option string :=
  match client_reference_id u with
  | Val cri =>
      if nonempty cri
      then Some (STRIPE_PAYMENT_LINK env +:+ "?client_reference_id="
                   +:+ Str.encodeURIComponent cri)
      else None
  | _ => None
  end.

(** The object serialised by [/me]. *)
Definition me_object (u : StripeUser) (paymentLink : option string)
    (registered : bool) : JsObject :=
  publicUser u
  ++ property "client_reference_id" (client_reference_id u)
  ++ match paymentLink with
     | Some l => [("paymentLink", JString l)]
     | None => []
     end
  ++ [("registered", JBool registered)].

(** Everything after the [/db/] branch. *)
Definition session_result (request : Request) (env : Env)
    (version : string) : M MiddlewareResult :=
  let! session := handleUserSession request env version in
  let user := session_user session in
  let client := session_client session in
  let headers := session_headers session in
  let paymentLink := payment_link env user in
  let registered := truthy (email user) in
  if String.eqb (pathname request) "/me" then
    ret (MwResponse
           (mkResponse 200 (Json (me_object user paymentLink registered))
                       headers))
  else
    ret (MwSession user headers client paymentLink registered
                   (charge client user)).

Definition stripeBalanceMiddleware (request : Request) (env : Env)
    (version : string) : M MiddlewareResult :=
  let path := pathname request in
  if negb (nonempty (DB_SECRET env))
     || negb (nonempty (STRIPE_PAYMENT_LINK env))
     || negb (nonempty (STRIPE_PUBLISHABLE_KEY env))
     || negb (nonempty (STRIPE_SECRET env))
     || negb (nonempty (STRIPE_WEBHOOK_SIGNING_SECRET env))
  then
    ret (MwResponse
           (text 500 "Not all stripeflare environment variables have been set up. Please set your secrets and restart your worker"))
  else if String.eqb path "/rotate-token" then
    let! rotateResponse := handleTokenRotation request env version in
    ret (MwResponse rotateResponse)
  else if String.eqb path "/stripe-webhook" then
    let! webhookResponse := handleStripeWebhook request env version in
    ret (MwResponse webhookResponse)
  else if Str.startsWith path "/db/" then
    let nameParam := nth 2 (Str.split "/" path) EmptyString in
    let isAggregate := String.eqb nameParam AGGREGATE_NAME in
    let doName := if isAggregate then AGGREGATE_NAME else getDOName nameParam in
    let! secret :=
      if isAggregate then ret (DB_SECRET env)
      else match decryptToken nameParam (DB_SECRET env) with
           | Some tok => ret tok
           | None => throw
           end in
    let client :=
      mkClient (version +:+ "-" +:+ doName)
               (if isAggregate
                then Some (version +:+ "-" +:+ AGGREGATE_NAME) else None) in
    let! middlewareResponse :=
      dorm_middleware client request ("/db/" +:+ nameParam) doName secret in
    match middlewareResponse with
    | Some r => ret (MwResponse r)
    | None => session_result request env version
    end
  else session_result request env version.

(** ** [withStripeflare] *)

Definition StripeflareFetchHandler : Type :=
  Request -> Env -> StripeflareContext -> M Response.

(** The [x-price] header of the handler's response, as a number. *)
Definition price_of (response : Response) : option Z :=
  match Headers.get "x-price" (response_headers response) with
  | Some h => if nonempty h then Number h else None
  | None => None
  end.

Definition withStripeflare (handler : StripeflareFetchHandler)
    (version : option string) (request : Request) (env : Env) : M Response :=
  let! middlewareResult :=
    stripeBalanceMiddleware request env (default "1" version) in
  match middlewareResult with
  | MwResponse r => ret r
  | MwSession user headers client paymentLink registered charge =>
      let enhancedCtx := mkContext user charge client paymentLink registered in
      let! response := handler request env enhancedCtx in
      let newHeaders :=
        foldl (fun h kv => Headers.set (fst kv) (snd kv) h)
              (response_headers response) headers in
      let price := price_of response in
      let! balance :=
        match price with
        | Some price =>
            if (0 <? price) then
              let! r := charge price true in
              if charged r then ret (balance user - price)
              else ret (balance user)
            else ret (balance user)
        | None => ret (balance user)
        end in
      let newHeaders :=
        Headers.set "x-payment-link" (default "undefined" paymentLink)
                    newHeaders in
      let newHeaders :=
        match Headers.get "X-Balance" (response_headers response) with
        | Some v => if nonempty v then newHeaders
                    else Headers.set "X-Balance" (pretty balance) newHeaders
        | None => Headers.set "X-Balance" (pretty balance) newHeaders
        end in
      ret (mkResponse (status response) (body response) newHeaders)
  end.

End Middleware.

(* ===================================================================== *)
(** * A small concrete runtime *)
(* ===================================================================== *)

(** A stand-in for [crypto.subtle] on which the codec can be run: the
    "cipher" appends a 16-byte tag built from the IV and the key, the
    "digest" pads or cuts its input to 32 bytes. It has the laws of
    [WebCryptoLaws] and nothing else in common with AES-GCM. *)
Module Toy.

Definition bytes_eqb (a b : list byte) : bool :=
  String.eqb (string_of_list_byte a) (string_of_list_byte b).

Definition digest (d : list byte) : list byte :=
  firstn 32 (d ++ repeat "000"%byte 32).

Definition tag (k iv : list byte) : list byte :=
  firstn 16 (iv ++ k ++ repeat "000"%byte 16).

Definition encrypt (k iv m : list byte) : list byte := m ++ tag k iv.

Definition decrypt (k iv c : list byte) : option (list byte) :=
  let n := (length c - 16)%nat in
  if (16 <=? length c)%nat && bytes_eqb (skipn n c) (tag k iv)
  then Some (firstn n c)
  else None.

Definition crypto : WebCrypto := {|
  CryptoKey := list byte;
  TextEncoder_encode := list_byte_of_string;
  TextDecoder_decode := string_of_list_byte;
  PBKDF2_deriveKey := fun password salt _ => password ++ salt;
  SHA256_digest := digest;
  AES_GCM_encrypt := encrypt;
  AES_GCM_decrypt := decrypt
|}.

Definition digit_value (c : ascii) : option Z :=
  let n := N_of_ascii c in
  if ((48 <=? n) && (n <=? 57))%N then Some (Z.of_N n - 48) else None.

(** Unsigned decimal numerals. *)
Fixpoint number_from (acc : Z) (s : string) : option Z :=
  match s with
  | EmptyString => Some acc
  | String c s' =>
      match digit_value c with
      | Some d => number_from (10 * acc + d) s'
      | None => None
      end
  end.

(** Collaborators that deliver one fixed event, retrieve fixed payment
    method details for it, and an admin panel that handles nothing. *)
Definition collaborators (event : option StripeEvent)
    (details : option PaymentMethodDetails) : Collaborators := {|
  constructEventAsync := fun _ _ _ => event;
  retrieve_payment_method_details := fun _ _ => Some details;
  dorm_middleware := fun _ _ _ _ _ => ret None;
  Number := number_from 0
|}.

(** The same, with a Stripe API that rejects every retrieval. *)
Definition collaborators_out_of_reach (event : option StripeEvent)
  : Collaborators := {|
  constructEventAsync := fun _ _ _ => event;
  retrieve_payment_method_details := fun _ _ => None;
  dorm_middleware := fun _ _ _ _ _ => ret None;
  Number := number_from 0
|}.

Definition env : Env :=
  mkEnv "0123456789abcdef-secret" "whsec" "sk_test" "pk_test"
        "https://buy.stripe.com/test" None.

Definition world (objs : gmap string Table) (fs : list Fault) : World :=
  mkWorld objs fs (fun _ => "00000000-0000-4000-8000-000000000000") 0.

End Toy.

(* ===================================================================== *)
(** * Vocabulary of the statements *)
(* ===================================================================== *)

(** The two character substitutions of the URL-safe alphabet, and what
    is true of every character [btoa] emits for a sextet. *)
Module Base64Url.

Import Base64.

Definition to_url (c : ascii) : ascii :=
  let c1 := if Ascii.eqb c "+" then "-"%char else c in
  if Ascii.eqb c1 "/" then "_"%char else c1.

Definition of_url (c : ascii) : ascii :=
  let c1 := if Ascii.eqb c "-" then "+"%char else c in
  if Ascii.eqb c1 "_" then "/"%char else c1.

Definition sextet_ok (n : N) : bool :=
  let c := encode_sextet n in
  match decode_sextet c with Some m => N.eqb m n | None => false end
  && negb (Ascii.eqb c pad)
  && negb (is_ascii_whitespace c)
  && negb (Ascii.eqb (to_url c) pad)
  && Ascii.eqb (of_url (to_url c)) c.

(** base64 to base64url, and back (without the padding). *)
Definition url (s : string) : string :=
  remove_char "=" (replace_char "/" "_" (replace_char "+" "-" s)).

Definition unurl (s : string) : string :=
  replace_char "_" "/" (replace_char "-" "+" s).

Definition good (c : ascii) : Prop :=
  c <> pad /\ is_ascii_whitespace c = false.

End Base64Url.


(** The row of [access_token] in the table of Durable Object [name]. *)
Definition row_at (w : World) (name access_token : string) : option Row :=
  Sqlite.first_row (Sqlite.has_token access_token) (shard w name).

(** No table differs between the two worlds. *)
Definition same_store (w w' : World) : Prop :=
  forall name, shard w' name = shard w name.

(** The table a statement leaves behind: unchanged when it is an error. *)
Definition apply_sql (q : Sql) (t : Table) : Table :=
  match Sqlite.run q t with
  | Some (t', _) => t'
  | None => t
  end.

(** The fault the next [exec] call meets, and whether it makes it throw. *)
Definition next_fault (w : World) : Fault :=
  match faults w with
  | [] => NoFault
  | f :: _ => f
  end.

Definition throws (f : Fault) : bool :=
  match f with
  | ThrowBefore | ThrowAfterMain => true
  | NoFault | MirrorLost => false
  end.

(** The world after one [exec] call has consumed its fault. *)
Definition after_call (w : World) : World := set_faults (tail (faults w)) w.

Section Vocabulary.

Context {P : WebCrypto}.

(** The Durable Object of a credential, and the aggregate. *)
Definition home (env : Env) (version access_token : string) : string :=
  main (createClient version
          (getDOName (getClientReferenceId access_token (DB_SECRET env)))).

Definition aggregate (version : string) : string :=
  version +:+ "-" +:+ AGGREGATE_NAME.

(** The credential a lookup ends on: the forwarding pointer of the
    row of [access_token] when it has one, else [access_token]. *)
Definition candidate (w : World) (env : Env) (version access_token : string)
  : string :=
  match row_at w (home env version access_token) access_token with
  | Some r =>
      match row_verified_user_access_token r with
      | Some p => if nonempty p then p else access_token
      | None => access_token
      end
  | None => access_token
  end.

(** The effective user row of a credential: its own row, or the row
    its forwarding pointer leads to (one hop). *)
Definition effective_row (w : World) (env : Env)
    (version access_token : string) : option Row :=
  match row_at w (home env version access_token) access_token with
  | Some r =>
      let target := candidate w env version access_token in
      if String.eqb target access_token then Some r
      else row_at w (home env version target) target
  | None => None
  end.

End Vocabulary.

Section Resolution.

Context {P : WebCrypto}.

(** The ways the credential of a request fails to resolve to a stored
    record. The second index is the credential the lookup ended on:
    the one presented, or the forwarding pointer it led to. *)
Inductive Unresolved (env : Env) (version : string) (w : World)
  : option string -> option string -> Prop :=
| Absent : Unresolved env version w None None
| Empty : Unresolved env version w (Some EmptyString) (Some EmptyString)
| LookupThrows tok :
    nonempty tok = true ->
    throws (next_fault w) = true ->
    Unresolved env version w (Some tok) (Some tok)
| NoRow tok :
    nonempty tok = true ->
    throws (next_fault w) = false ->
    row_at w (home env version tok) tok = None ->
    Unresolved env version w (Some tok) (Some tok)
| ForwardThrows tok r p :
    nonempty tok = true ->
    throws (next_fault w) = false ->
    row_at w (home env version tok) tok = Some r ->
    row_verified_user_access_token r = Some p ->
    nonempty p = true ->
    throws (next_fault (after_call w)) = true ->
    Unresolved env version w (Some tok) (Some p)
| Dangling tok r p :
    nonempty tok = true ->
    throws (next_fault w) = false ->
    row_at w (home env version tok) tok = Some r ->
    row_verified_user_access_token r = Some p ->
    nonempty p = true ->
    throws (next_fault (after_call w)) = false ->
    row_at w (home env version p) p = None ->
    Unresolved env version w (Some tok) (Some p).

(** The credential of the unpersisted user: the one the lookup ended
    on when it has the form of a UUID, else a new one. *)
Definition keeps (ended_on : option string) : bool :=
  match ended_on with
  | Some tok => nonempty tok && uuidGeneralRegex tok
  | None => false
  end.

End Resolution.

(** The resolver has minted a new credential: it drew the next value of
    [crypto.randomUUID()] and made it the user's [access_token]. *)
Definition mints_fresh (w : World) (token : string) (w' : World) : Prop :=
  token = uuids w (uuid_next w) /\ uuid_next w' = S (uuid_next w).

(** A request that carries the cookie [access_token=token]. *)
Definition request_with_cookie (path token : string) : Request :=
  mkRequest "GET" path "example.com" (Some ("access_token=" +:+ token))
            None None None.

(** [r'] is [r] with [amount] taken off its balance, every other
    column as it was. *)
Definition debited (amount : Z) (r r' : Row) : Prop :=
  row_balance r' = row_balance r - amount
  /\ row_access_token r' = row_access_token r
  /\ row_name r' = row_name r
  /\ row_email r' = row_email r
  /\ row_verified_email r' = row_verified_email r
  /\ row_verified_user_access_token r' = row_verified_user_access_token r
  /\ row_card_fingerprint r' = row_card_fingerprint r
  /\ row_client_reference_id r' = row_client_reference_id r.

(** [r'] is [r] with [amount] added to its balance and its email and
    name overwritten, every other column as it was. *)
Definition credited (amount : Z) (email : string) (name : option string)
    (r r' : Row) : Prop :=
  row_balance r' = row_balance r + amount
  /\ row_email r' = Some email
  /\ row_name r' = name
  /\ row_access_token r' = row_access_token r
  /\ row_verified_email r' = row_verified_email r
  /\ row_verified_user_access_token r' = row_verified_user_access_token r
  /\ row_card_fingerprint r' = row_card_fingerprint r
  /\ row_client_reference_id r' = row_client_reference_id r.


(** A small store for the examples: one funded identity [T1], mirrored
    in the aggregate, and a credential [T2] that has no row. *)
Module Scenario.

Definition T1 : string := "11111111-1111-4111-8111-111111111111".
Definition T2 : string := "22222222-2222-4222-8222-222222222222".

Definition id_of (token : string) : string :=
  encryptToken (P := Toy.crypto) token (DB_SECRET Toy.env).

Definition row1 : Row :=
  mkRow T1 500 (Some "Ada") (Some "ada@example.com") None None
        (Some "F1") (Some (id_of T1)).

Definition home_of (token : string) : string :=
  home (P := Toy.crypto) Toy.env "1" token.

Definition funded : gmap string Table :=
  <[home_of T1 := [row1]]> (<[aggregate "1" := [row1]]> ∅).

(** The same identity with a [client_reference_id] left over from an
    older secret. *)
Definition stale_row1 : Row :=
  mkRow T1 500 (Some "Ada") (Some "ada@example.com") None None
        (Some "F1") (Some "left-over-id").

Definition stale : gmap string Table :=
  <[home_of T1 := [stale_row1]]> (<[aggregate "1" := [stale_row1]]> ∅).

End Scenario.

Section Rewrite.

Context {P : WebCrypto}.

(** The tables after [UPDATE users SET client_reference_id = ? WHERE
    access_token = ?] went through the client of credential [t], with
    the current encoding of [t] as the new value. *)
Definition rewritten (env : Env) (version t : string) (w w' : World) : Prop :=
  forall n,
    shard w' n =
    if decide (n = home env version t \/ n = aggregate version)
    then Sqlite.update_rows (Sqlite.has_token t)
           (Sqlite.set_client_reference_id (encryptToken t (DB_SECRET env)))
           (shard w n)
    else shard w n.

End Rewrite.

(** Two user objects that agree on everything but [access_token] and
    [verified_user_access_token]. *)
Definition same_public (u u' : StripeUser) : Prop :=
  client_reference_id u = client_reference_id u'
  /\ name u = name u'
  /\ balance u = balance u'
  /\ email u = email u'
  /\ card_fingerprint u = card_fingerprint u'
  /\ verified_email u = verified_email u'.

(** The property names of an object. *)
Definition keys (o : JsObject) : list string := map fst o.

(** All five settings the middleware insists on are present. *)
Definition configured (env : Env) : Prop :=
  nonempty (DB_SECRET env) = true
  /\ nonempty (STRIPE_PAYMENT_LINK env) = true
  /\ nonempty (STRIPE_PUBLISHABLE_KEY env) = true
  /\ nonempty (STRIPE_SECRET env) = true
  /\ nonempty (STRIPE_WEBHOOK_SIGNING_SECRET env) = true.

(** The value a computation returned, or [d] when it threw. *)
Definition returned {A} (d : A) (r : Res A * World) : A :=
  match fst r with
  | Ret a => a
  | Throw => d
  end.

Definition no_session : Session :=
  mkSession (new_user EmptyString EmptyString) None [].

(** A store handle of a session is the client of a user shard. *)
Definition user_client (version : string) (c : option Client) : Prop :=
  forall c', c = Some c' ->
    exists cri, c' = createClient version (getDOName cri).

(** A handler that prices its response above the balance of [T1]. *)
Module Overdraft.

Import Scenario.

Definition handler : StripeflareFetchHandler :=
  fun _ _ _ => ret (mkResponse 200 (Text "ok") [("X-Price", "600")]).

Definition request : Request := request_with_cookie "/" T1.

Definition client : Client := createClient "1" (getDOName (id_of T1)).

Definition start : World := Toy.world funded [].

(** The world once the session has been resolved. *)
Definition resolved : World :=
  snd (handleUserSession (P := Toy.crypto) request Toy.env "1" start).

End Overdraft.

(** ** Payment events *)
Section Events.

Context {P : WebCrypto} {X : Collaborators}.

(** The request is a signed webhook call that carries the completed
    checkout [session]. *)
Definition delivers (request : Request) (env : Env)
    (session : CheckoutSession) : Prop :=
  exists body signature event,
    request_body request = Some body
    /\ or_null (stripe_signature request) = Some signature
    /\ constructEventAsync body signature (STRIPE_WEBHOOK_SIGNING_SECRET env)
       = Some event
    /\ event_type event = "checkout.session.completed"
    /\ event_object event = session.

(** The amount of a paid session; none when the session is not paid or
    reports no amount or amount zero. *)
Definition paid_amount (session : CheckoutSession) : option Z :=
  match amount_total session with
  | Some amount =>
      if String.eqb (payment_status session) "paid" && negb (amount =? 0)
      then Some amount else None
  | None => None
  end.

Definition public_identifier (session : CheckoutSession) : option string :=
  or_null (session_client_reference_id session).

Definition payer_email (session : CheckoutSession) : option string :=
  or_null (customer_details session ≫= customer_email).

Definition payer_name (session : CheckoutSession) : option string :=
  or_null (customer_details session ≫= customer_name).

(** The events the reconciler discards before it touches the store,
    with the status it answers. *)
Inductive Discarded (env : Env) (session : CheckoutSession) : Z -> Prop :=
| NotPaid :
    paid_amount session = None -> Discarded env session 400
| NoIdentifier :
    public_identifier session = None -> Discarded env session 400
| NoEmail :
    payer_email session = None -> Discarded env session 400
| NoSecret :
    nonempty (DB_SECRET env) = false -> Discarded env session 400
| NotDecodable amount id email :
    paid_amount session = Some amount ->
    public_identifier session = Some id ->
    payer_email session = Some email ->
    nonempty (DB_SECRET env) = true ->
    decryptToken id (DB_SECRET env) = None ->
    Discarded env session 200.

(** The event passes every precondition: a paid [amount] for the
    credential [access_token], encoded as [id], from [email]. *)
Definition accepted (env : Env) (session : CheckoutSession)
    (amount : Z) (id email access_token : string) : Prop :=
  paid_amount session = Some amount
  /\ public_identifier session = Some id
  /\ payer_email session = Some email
  /\ nonempty (DB_SECRET env) = true
  /\ decryptToken id (DB_SECRET env) = Some access_token.

End Events.

(** A signed webhook call. *)
Definition webhook_request : Request :=
  mkRequest "POST" "/stripe-webhook" "example.com" None None
            (Some "t=1,v1=signature") (Some "{}").

(** A completed checkout session of [amount] for the public identifier
    [id], paid by ada@example.com. *)
Definition checkout (status : string) (amount : Z) (id : string)
  : StripeEvent :=
  mkEvent "checkout.session.completed"
    (mkCheckout status (Some amount) (Some id)
       (Some (mkCustomer (Some "ada@example.com") (Some "Ada")))
       (Some "pi_1")).

Section Merge.

Context {P : WebCrypto} {X : Collaborators}.

(** The email a payment proves: the payer's, when the payment method
    is a link payment; none for any other channel. *)
Definition proven_email (details : option PaymentMethodDetails)
    (email : string) : option string :=
  match details with
  | Some d => if String.eqb (payment_method_type d) "link"
              then Some email else None
  | None => None
  end.

(** The alternate identity of a payment in the aggregate view: the
    first row with the proven email as [verified_email], else the
    first row with the card's fingerprint. *)
Definition alternate_identity (view : Table)
    (details : option PaymentMethodDetails) (email : string)
  : option string :=
  let by_email :=
    match or_null (proven_email details email) with
    | Some e => Sqlite.first_row (Sqlite.col_is row_verified_email e) view
    | None => None
    end in
  let by_card :=
    match or_null (details ≫= card_fingerprint_of) with
    | Some f => Sqlite.first_row (Sqlite.col_is row_card_fingerprint f) view
    | None => None
    end in
  or_null (or_else (option_map row_access_token by_email)
                   (option_map row_access_token by_card)).

(** A row that holds nothing but a forwarding pointer. *)
Definition pointer_row (access_token target : string) : Row :=
  mkRow access_token 0 None None None (Some target) None None.

(** The Durable Object a payment event addresses. *)
Definition event_shard (version id : string) : string :=
  main (createClient version (getDOName id)).

End Merge.

Section Rotation.

Context {P : WebCrypto}.

(** The row a rotation writes for the new credential [u]: the ledger
    columns of [r], the public identifier of [u], no forwarding
    pointer. *)
Definition rotated_row (env : Env) (u : string) (r : Row) : Row :=
  mkRow u (row_balance r) (row_name r) (row_email r) (row_verified_email r)
        None (row_card_fingerprint r)
        (Some (encryptToken u (DB_SECRET env))).

(** The world after [crypto.randomUUID()] has been drawn once. *)
Definition after_uuid (w : World) : World :=
  mkWorld (objects w) (faults w) (uuids w) (S (uuid_next w)).

End Rotation.

(** A [POST /rotate-token] that carries the cookie [access_token=token]. *)
Definition rotate_request (token : string) : Request :=
  mkRequest "POST" "/rotate-token" "example.com"
            (Some ("access_token=" +:+ token)) None None None.

(* ===================================================================== *)
(** * Further code of the repository and its vocabulary *)
(* ===================================================================== *)

(** ** Shape of a public identifier *)

(** The characters of the URL-safe alphabet of base64. *)
Definition url_safe (c : ascii) : bool :=
  let n := N_of_ascii c in
  ((48 <=? n) && (n <=? 57) || (97 <=? n) && (n <=? 122)
   || (65 <=? n) && (n <=? 90) || (n =? 45) || (n =? 95))%N.

(** Whether every character of [s] satisfies [p]. *)
Fixpoint all_chars (p : ascii -> bool) (s : string) : bool :=
  match s with
  | EmptyString => true
  | String c s' => p c && all_chars p s'
  end.

(** A character [base64UrlToArrayBuffer] cannot take: no letter, no
    digit, none of [-], [_], [+] and [/] (after the substitutions the
    two pairs stand for the same sextets), no [=], which is stripped as
    padding, and no ASCII white space, which [atob] skips. *)
Definition undecodable (c : ascii) : bool :=
  let n := N_of_ascii c in
  negb ((48 <=? n) && (n <=? 57) || (97 <=? n) && (n <=? 122)
        || (65 <=? n) && (n <=? 90)
        || (n =? 45) || (n =? 95) || (n =? 43) || (n =? 47) || (n =? 61)
        || (n =? 9) || (n =? 10) || (n =? 12) || (n =? 13) || (n =? 32))%N.

(** Whether [c] occurs in [s]. *)
Fixpoint occurs (c : ascii) (s : string) : bool :=
  match s with
  | EmptyString => false
  | String c' s' => Ascii.eqb c c' || occurs c s'
  end.

(** ** Reading a request body *)

(** [Uint8Array]: [new Uint8Array(n)] is [n] zero bytes;
    [target.set(source, offset)] overwrites in place and is a
    [RangeError] ([None]) when [source] does not fit. *)
Module Uint8Array.

Definition make (n : nat) : list byte := repeat "000"%byte n.

Definition set (target source : list byte) (offset : nat)
  : option (list byte) :=
  if (offset + length source <=? length target)%nat
  then Some (firstn offset target ++ source
             ++ skipn (offset + length source) target)
  else None.

End Uint8Array.

(** A [ReadableStream<Uint8Array>] as the outcomes of the successive
    [reader.read()] calls before [done]: a chunk, or a rejection
    ([None]). *)
Definition ReadableStream : Type := list (option (list byte)).

(** The [while (true)] loop: collect the chunks until [done]. *)
Fixpoint read_chunks (readableStream : ReadableStream)
  : option (list (list byte)) :=
  match readableStream with
  | [] => Some []
  | Some value :: rest =>
      match read_chunks rest with
      | Some chunks => Some (value :: chunks)
      | None => None
      end
  | None :: _ => None
  end.

(** The [for (const chunk of chunks)] loop. *)
Fixpoint copy_chunks (chunks : list (list byte)) (position : nat)
    (result : list byte) : option (list byte) :=
  match chunks with
  | [] => Some result
  | chunk :: rest =>
      match Uint8Array.set result chunk position with
      | Some result' => copy_chunks rest (position + length chunk)%nat result'
      | None => None
      end
  end.

Definition streamToBuffer (readableStream : ReadableStream)
  : option (list byte) :=
  match read_chunks readableStream with
  | Some chunks =>
      let totalLength :=
        fold_left (fun acc chunk => (acc + length chunk)%nat) chunks 0%nat in
      let result := Uint8Array.make totalLength in
      copy_chunks chunks 0 result
  | None => None
  end.

(** ** Credentials of a request *)

(** The credential the cookies of a request carry. *)
Definition cookie_credential (request : Request) : option string :=
  match cookie_header request with
  | Some h => parseCookies h !! "access_token"
  | None => None
  end.

(** One turn of the [forEach] of [parseCookies]. *)
Definition cookie_step (cookies : gmap string string) (cookie : string)
  : gmap string string :=
  match map Str.trim (Str.split "=" cookie) with
  | name :: value :: _ =>
      if nonempty name && nonempty value
      then set_property name value cookies
      else cookies
  | _ => cookies
  end.

(** ** What session resolution leaves alone *)

(** A row without its public identifier: the columns that make up the
    ledger and the identity. *)
Definition ledger (r : Row) : Row :=
  mkRow (row_access_token r) (row_balance r) (row_name r) (row_email r)
        (row_verified_email r) (row_verified_user_access_token r)
        (row_card_fingerprint r) None.

(** Every table holds the same rows, in the same order, up to their
    [client_reference_id]. *)
Definition same_ledger (w w' : World) : Prop :=
  forall name, map ledger (shard w' name) = map ledger (shard w name).

(** A statement that reads, or writes [client_reference_id] only. *)
Definition ledger_neutral (q : Sql) : Prop :=
  forall t t' res, Sqlite.run q t = Some (t', res) ->
                   map ledger t' = map ledger t.

(** A computation that, also when it throws, leaves the ledger as it
    found it; one that moreover never throws. *)
Definition quiet {A} (m : M A) : Prop :=
  forall w, same_ledger w (snd (m w)).

Definition safe {A} (m : M A) : Prop :=
  forall w, exists a w', m w = (Ret a, w') /\ same_ledger w w'.

(** ** Payments for a credential of its own *)

(** The row a first payment creates for the credential
    [access_token]. *)
Definition paid_row (access_token : string) (amount : Z) (id email : string)
    (name : option string) (details : option PaymentMethodDetails) : Row :=
  mkRow access_token amount name (Some email)
        (or_null (proven_email details email)) None
        (or_null (details ≫= card_fingerprint_of)) (Some id).

(** The statuses the webhook answers with when nothing is wrong with
    the store. *)
Definition settled (response : Response) : Prop :=
  status response = 200 \/ status response = 400.

(** ** Answers of the entry points *)

(** What the middleware answers while a setting is missing. *)
Definition not_configured : Response :=
  text 500 "Not all stripeflare environment variables have been set up. Please set your secrets and restart your worker".

(** The [X-Balance] header of a wrapped response: the handler's own
    when it set one, else the balance the wrapper computed. *)
Definition reported_balance (response : Response) (balance : Z) : string :=
  match Headers.get "X-Balance" (response_headers response) with
  | Some v => if nonempty v then v else pretty balance
  | None => pretty balance
  end.

(** A header name other than the three the wrapper sets. *)
Definition passes_through (name : string) : Prop :=
  Headers.same_name "Set-Cookie" name = false
  /\ Headers.same_name "x-payment-link" name = false
  /\ Headers.same_name "X-Balance" name = false.

(** The response [withStripeflare] makes of the handler's [response]
    for the session of [user], with [balance] the balance it computed:
    status and body are the handler's; [Set-Cookie] is the session's,
    [x-payment-link] the payment link and [X-Balance] the reported
    balance; every other header is the handler's. *)
Definition wrapped (env : Env) (request : Request) (user : StripeUser)
    (paymentLink : option string) (response response' : Response)
    (balance : Z) : Prop :=
  status response' = status response
  /\ body response' = body response
  /\ Headers.get "Set-Cookie" (response_headers response')
     = Some (set_cookie env (hostname request) (access_token user))
  /\ Headers.get "x-payment-link" (response_headers response')
     = Some (default "undefined" paymentLink)
  /\ Headers.get "X-Balance" (response_headers response')
     = Some (reported_balance response balance)
  /\ forall name, passes_through name ->
       Headers.get name (response_headers response')
       = Headers.get name (response_headers response).

(** ** The admin panel *)

(** What the middleware does with the answer of the admin panel: it
    returns a response, or goes on to the session when the panel
    handled nothing. *)
Definition after_admin_panel {P : WebCrypto} {X : Collaborators}
    (request : Request) (env : Env) (version : string)
    (middlewareResponse : option Response) : M MiddlewareResult :=
  match middlewareResponse with
  | Some r => ret (MwResponse r)
  | None => session_result request env version
  end.

(** ** The page templates *)

(** [String.prototype.replace] with a string pattern. *)
Module JsString.

(** The text before and after the first occurrence of [pattern]. *)
Fixpoint find_first (pattern s : string) : option (string * string) :=
  if Str.startsWith s pattern
  then Some (EmptyString, Str.slice_from (String.length pattern) s)
  else
    match s with
    | String c s' =>
        match find_first pattern s' with
        | Some (before, after) => Some (String c before, after)
        | None => None
        end
    | EmptyString => None
    end.

(** The replacement text with its [$] patterns expanded; a string
    pattern has no capture groups, so [$1] ... and [$<] stay as they
    are. *)
Fixpoint substitution (matched before after replacement : string) : string :=
  match replacement with
  | EmptyString => EmptyString
  | String c tail =>
      if Ascii.eqb c "$" then
        match tail with
        | String d r =>
            if Ascii.eqb d "$" then
              String "$" (substitution matched before after r)
            else if Ascii.eqb d "&" then
              matched +:+ substitution matched before after r
            else if Ascii.eqb d "`" then
              before +:+ substitution matched before after r
            else if Ascii.eqb d "'" then
              after +:+ substitution matched before after r
            else String "$" (substitution matched before after tail)
        | EmptyString => String "$" EmptyString
        end
      else String c (substitution matched before after tail)
  end.

Definition replace (s pattern replacement : string) : string :=
  match find_first pattern s with
  | Some (before, after) =>
      before +:+ substitution pattern before after replacement +:+ after
  | None => s
  end.

End JsString.

(** [{ ...o, key: v }]: the property keeps its place when [o] has it,
    else it comes last. *)
Fixpoint assign {A} (key : string) (v : A) (o : list (string * A))
  : list (string * A) :=
  match o with
  | [] => [(key, v)]
  | (k, x) :: o' =>
      if String.eqb k key then (k, v) :: o' else (k, x) :: assign key v o'
  end.

Section Templates.

Context {P : WebCrypto} {X : Collaborators}.

(** [import template from "./template.html"], [JSON.stringify] and
    [Date.now()], which reads the clock and nothing else. *)
Variable template : string.
Variable JSON_stringify : JsObject -> string.
Variable Date_now : World -> Z.

Definition now : M Z := fun w => (Ret (Date_now w), w).

(** [const { access_token, verified_user_access_token, ...rest } = user]. *)
Definition rest_of (u : StripeUser) : JsObject :=
  filter (fun kv =>
            negb (String.eqb (fst kv) "access_token"
                  || String.eqb (fst kv) "verified_user_access_token"))
         (properties u).

(** The template with [window.data] set in its head. *)
Definition inject (data : JsObject) : string :=
  JsString.replace template "</head>"
    ("<script>window.data = " +:+ JSON_stringify data
     +:+ ";</script></head>").

(** The handler of [template-with-stripeflare.ts]. *)
Definition priced_page : StripeflareFetchHandler :=
  fun request env ctx =>
    let rest := rest_of (ctx_user ctx) in
    let paymentLink := STRIPE_PAYMENT_LINK env in
    let modifiedHtml :=
      inject (assign "paymentLink" (JString paymentLink) rest) in
    ret (mkResponse 200 (Text modifiedHtml)
           [("Content-Type", "text/html"); ("X-Price", "1")]).

(** [fetch] of [template-with-stripeflare.ts]. *)
Definition template_with_stripeflare_fetch (request : Request) (env : Env)
  : M Response :=
  withStripeflare priced_page None request env.



End Templates.

(** The store of [Scenario] under the version [template.ts] passes to
    the middleware. *)
Module PageScenario.

Import Scenario.

Definition home1 : string := home (P := Toy.crypto) Toy.env "0.0.10" T1.

Definition funded : gmap string Table :=
  <[home1 := [row1]]> (<[aggregate "0.0.10" := [row1]]> ∅).

Definition request : Request := request_with_cookie "/" T1.

Definition client : Client := createClient "0.0.10" (getDOName (id_of T1)).

Definition start : World := Toy.world funded [].

(** The world once the session has been resolved. *)
Definition resolved : World :=
  snd (handleUserSession (P := Toy.crypto) request Toy.env "0.0.10" start).


End PageScenario.

(** ** The token codec on strings of UTF-16 code units *)

(** What the codec requires of [crypto.subtle]: a SHA-256 digest has 32
    bytes, and AES-GCM decryption under the key and IV of the
    encryption returns the plaintext. *)
Definition sound_cipher (P : WebCrypto) : Prop :=
  (forall d, length (SHA256_digest d) = 32%nat)
  /\ (forall k iv m, AES_GCM_decrypt k iv (AES_GCM_encrypt k iv m) = Some m).

(** [TextEncoder] and [TextDecoder] as the Encoding Standard defines
    them, on JavaScript strings as they are: sequences of UTF-16 code
    units. The codec is written out a second time over these strings;
    it differs from the one above in the type of its strings only. *)
Module Unicode.

Local Open Scope N_scope.

(** A JavaScript string: its code units, each below [0x10000]. *)
Definition JsString : Type := list N.

Definition is_string (s : JsString) : Prop := Forall (fun u => u < 0x10000) s.

Definition of_string (s : string) : JsString :=
  map N_of_ascii (list_ascii_of_string s).

Definition is_lead (u : N) : bool := (0xD800 <=? u) && (u <=? 0xDBFF).
Definition is_trail (u : N) : bool := (0xDC00 <=? u) && (u <=? 0xDFFF).

(** The scalar values of a string (its conversion to a USVString): a
    surrogate pair is one scalar value, a surrogate that stands alone
    becomes U+FFFD. *)
Fixpoint scalar_values (s : JsString) : list N :=
  match s with
  | [] => []
  | u :: rest =>
      if is_lead u then
        match rest with
        | v :: rest' =>
            if is_trail v
            then (0x10000 + (u - 0xD800) * 0x400 + (v - 0xDC00))
                 :: scalar_values rest'
            else 0xFFFD :: scalar_values rest
        | [] => [0xFFFD]
        end
      else if is_trail u then 0xFFFD :: scalar_values rest
      else u :: scalar_values rest
  end.

(** The UTF-8 encoder: one to four bytes for a scalar value. *)
Definition utf8_bytes (c : N) : list N :=
  if c <=? 0x7F then [c]
  else if c <=? 0x7FF then [0xC0 + c / 0x40; 0x80 + c mod 0x40]
  else if c <=? 0xFFFF then
    [0xE0 + c / 0x1000; 0x80 + (c / 0x40) mod 0x40; 0x80 + c mod 0x40]
  else
    [0xF0 + c / 0x40000; 0x80 + (c / 0x1000) mod 0x40;
     0x80 + (c / 0x40) mod 0x40; 0x80 + c mod 0x40].

Definition byte_of (n : N) : byte := default "000"%byte (Byte.of_N n).

(** [new TextEncoder().encode(s)]. *)
Definition encode (s : JsString) : list byte :=
  map byte_of (flat_map utf8_bytes (scalar_values s)).

(** The state of the UTF-8 decoder: the code point under construction,
    the continuation bytes it still needs, and the bounds of the next
    byte. *)
Record Decoder : Type := mkDecoder {
  code_point : N;
  bytes_needed : nat;
  lower_boundary : N;
  upper_boundary : N
}.

Definition fresh : Decoder := mkDecoder 0 0 0x80 0xBF.

(** A byte read while no sequence is open: what is emitted, and the
    state after it. *)
Definition lead_byte (b : N) : list N * Decoder :=
  if b <=? 0x7F then ([b], fresh)
  else if (0xC2 <=? b) && (b <=? 0xDF) then
    ([], mkDecoder (b mod 0x20) 1 0x80 0xBF)
  else if (0xE0 <=? b) && (b <=? 0xEF) then
    ([], mkDecoder (b mod 0x10) 2
           (if b =? 0xE0 then 0xA0 else 0x80)
           (if b =? 0xED then 0x9F else 0xBF))
  else if (0xF0 <=? b) && (b <=? 0xF4) then
    ([], mkDecoder (b mod 0x8) 3
           (if b =? 0xF0 then 0x90 else 0x80)
           (if b =? 0xF4 then 0x8F else 0xBF))
  else ([0xFFFD], fresh).

(** The UTF-8 decoder with replacement (no [fatal] flag): an ill-formed
    sequence yields U+FFFD, and the byte that broke it is read again
    with no sequence open. *)
Fixpoint utf8_decode (d : Decoder) (bytes : list N) : list N :=
  match bytes with
  | [] =>
      match bytes_needed d with
      | O => []
      | S _ => [0xFFFD]
      end
  | b :: rest =>
      match bytes_needed d with
      | O => let (out, d') := lead_byte b in out ++ utf8_decode d' rest
      | S n =>
          if (lower_boundary d <=? b) && (b <=? upper_boundary d) then
            let c := code_point d * 0x40 + b mod 0x40 in
            match n with
            | O => c :: utf8_decode fresh rest
            | S _ => utf8_decode (mkDecoder c n 0x80 0xBF) rest
            end
          else
            let (out, d') := lead_byte b in
            0xFFFD :: out ++ utf8_decode d' rest
      end
  end.

(** The code units of a code point. *)
Definition utf16_units (c : N) : list N :=
  if c <? 0x10000 then [c]
  else [0xD800 + (c - 0x10000) / 0x400; 0xDC00 + (c - 0x10000) mod 0x400].

(** A decoder made without [ignoreBOM] drops a leading U+FEFF. *)
Definition drop_bom (cs : list N) : list N :=
  match cs with
  | c :: rest => if c =? 0xFEFF then rest else cs
  | [] => []
  end.

(** [new TextDecoder().decode(bytes)]. *)
Definition decode (bytes : list byte) : JsString :=
  flat_map utf16_units (drop_bom (utf8_decode fresh (map Byte.to_N bytes))).

Section Codec.

Context {P : WebCrypto}.

Definition deriveKey (secret : JsString) : CryptoKey :=
  PBKDF2_deriveKey (encode secret)
                   (encode (of_string "deterministic-salt")) 100000.

Definition generateIV (accessToken : JsString) : list byte :=
  firstn IV_LENGTH (SHA256_digest (encode accessToken)).

Definition encryptToken (token secret : JsString) : string :=
  let key := deriveKey secret in
  let iv := generateIV token in
  let encrypted := AES_GCM_encrypt key iv (encode token) in
  let combined := iv ++ encrypted in
  arrayBufferToBase64Url combined.

(** [None]: [decryptToken] throws. *)
Definition decryptToken (cipherText : string) (secret : JsString)
  : option JsString :=
  let key := deriveKey secret in
  match base64UrlToArrayBuffer cipherText with
  | Some combined =>
      let iv := firstn IV_LENGTH combined in
      let encrypted := skipn IV_LENGTH combined in
      match AES_GCM_decrypt key iv encrypted with
      | Some decrypted => Some (decode decrypted)
      | None => None
      end
  | None => None
  end.

End Codec.

(** No surrogate of the string stands alone. *)
Fixpoint well_formed (s : JsString) : bool :=
  match s with
  | [] => true
  | u :: rest =>
      if is_lead u then
        match rest with
        | v :: rest' => is_trail v && well_formed rest'
        | [] => false
        end
      else negb (is_trail u) && well_formed rest
  end.

(** The string begins with U+FEFF, the byte order mark. *)
Definition starts_with_bom (s : JsString) : bool :=
  match s with
  | u :: _ => u =? 0xFEFF
  | [] => false
  end.

(** The string with every surrogate that stands alone replaced by
    U+FFFD and without a leading U+FEFF. *)
Definition sanitized (s : JsString) : JsString :=
  flat_map utf16_units (drop_bom (scalar_values s)).

End Unicode.

(* ===================================================================== *)
(** * Properties *)
(* ===================================================================== *)

(** ** The token codec *)

Module Base64Facts.
Import Base64 Base64Url.
Local Open Scope N_scope.

Lemma sextet_ok_all n : n < 64 -> sextet_ok n = true.
Proof.
  intros H.
  assert (Hall : forallb sextet_ok (map N.of_nat (seq 0 64)) = true) by (vm_compute; reflexivity).
  rewrite forallb_forall in Hall. apply Hall.
  apply in_map_iff. exists (N.to_nat n). split; [apply N2Nat.id|].
  apply in_seq. lia.
Qed.
End Base64Facts.

Module Base64Round.
Import Base64 Base64Url Base64Facts.
Local Open Scope N_scope.

Local Ltac Zify.zify_post_hook ::= Z.to_euclidean_division_equations.

Lemma mod4_add4 (x k : nat) :
  ((x + k) mod 4 = 0)%nat -> ((S (S (S (S x))) + k) mod 4 = 0)%nat.
Proof.
  intros H.
  replace (S (S (S (S x))) + k)%nat with ((x + k) + 1 * 4)%nat by lia.
  rewrite Nat.Div0.mod_add. exact H.
Qed.

Lemma pad_count (x k : nat) :
  ((x + k) mod 4 = 0)%nat -> (k <= 2)%nat -> ((4 - x mod 4) mod 4 = k)%nat.
Proof.
  intros H Hk.
  pose proof (Nat.div_mod_eq (x + k) 4) as E1. rewrite H in E1.
  pose proof (Nat.div_mod_eq x 4) as E2.
  pose proof (Nat.mod_upper_bound x 4 ltac:(lia)) as B2.
  set (q1 := ((x + k) / 4)%nat) in *. set (q2 := (x / 4)%nat) in *.
  set (r := (x mod 4)%nat) in *.
  assert (Hr : (r = 0 /\ k = 0 \/ r = 2 /\ k = 2 \/ r = 3 /\ k = 1)%nat) by lia.
  destruct Hr as [[-> ->]|[[-> ->]|[-> ->]]]; reflexivity.
Qed.

Lemma string_ind3 (P : string -> Prop) :
  P EmptyString ->
  (forall a, P (String a EmptyString)) ->
  (forall a b, P (String a (String b EmptyString))) ->
  (forall a b c r, P r -> P (String a (String b (String c r)))) ->
  forall s, P s.
Proof.
  intros H0 H1 H2 H3.
  fix IH 1. intros [|a [|b [|c r]]].
  - exact H0.
  - apply H1.
  - apply H2.
  - apply H3. apply IH.
Qed.

Lemma sextet_facts n : n < 64 ->
  let c := encode_sextet n in
  decode_sextet c = Some n /\ good c /\
  (forall s, url (String c s) = String (to_url c) (url s)) /\
  (forall s, unurl (String (to_url c) s) = String c (unurl s)).
Proof.
  intros H c. pose proof (sextet_ok_all n H) as Hok.
  unfold sextet_ok in Hok. fold c in Hok.
  repeat (apply andb_true_iff in Hok; destruct Hok as [Hok ?]).
  destruct (decode_sextet c) as [m|] eqn:Hd; [|discriminate].
  apply N.eqb_eq in Hok. subst m.
  apply negb_true_iff in H3, H2, H1.
  apply Ascii.eqb_eq in H0.
  split; [reflexivity|]. split.
  { split; [|assumption]. intros E. rewrite E in H3. rewrite Ascii.eqb_refl in H3. discriminate. }
  split.
  - intros s. unfold url, to_url, pad in *. cbn [replace_char remove_char].
    cbv zeta in H1. rewrite H1. reflexivity.
  - intros s. unfold unurl, of_url, to_url in *. cbn [replace_char].
    cbv zeta in H0. rewrite H0. reflexivity.
Qed.

Lemma url_pad s : url (String pad s) = url s.
Proof. reflexivity. Qed.

Lemma byte_bound a : N_of_ascii a < 256.
Proof. apply N_ascii_bounded. Qed.

Lemma ascii_back a n : n = N_of_ascii a -> ascii_of_N n = a.
Proof. intros ->. apply ascii_N_embedding. Qed.

Lemma btoa_shape s :
  exists (k : nat) (ns : list N),
    btoa s = unurl (url (btoa s)) +:+ repeat_char pad k /\
    (k <= 2)%nat /\
    ((String.length (unurl (url (btoa s))) + k) mod 4 = 0)%nat /\
    Forall good (list_ascii_of_string (unurl (url (btoa s)))) /\
    sextets (list_ascii_of_string (unurl (url (btoa s)))) = Some ns /\
    bytes_of_sextets ns = Some (list_ascii_of_string s).
Proof.
  induction s as [|a|a b|a b c r IH] using string_ind3.
  - exists 0%nat, []. cbn. repeat split; first [lia | constructor].
  - pose proof (byte_bound a) as Ha.
    set (n1 := N_of_ascii a / 4). set (n2 := (N_of_ascii a mod 4) * 16).
    assert (H1 : n1 < 64) by (subst n1; lia).
    assert (H2 : n2 < 64) by (subst n2; lia).
    destruct (sextet_facts n1 H1) as (D1 & G1 & U1 & V1).
    destruct (sextet_facts n2 H2) as (D2 & G2 & U2 & V2).
    exists 2%nat, [n1; n2].
    cbn [btoa]. fold n1 n2.
    rewrite U1, U2, !url_pad. change (url EmptyString) with EmptyString.
    rewrite V1, V2. change (unurl EmptyString) with EmptyString.
    cbn [list_ascii_of_string sextets String.length]. rewrite D1, D2.
    split; [reflexivity|]. split; [lia|]. split; [reflexivity|].
    split; [repeat (apply List.Forall_cons; [assumption|]); first [assumption | apply List.Forall_nil]|]. split; [reflexivity|].
    cbn [bytes_of_sextets]. do 2 f_equal. apply ascii_back. subst n1 n2. lia.
  - pose proof (byte_bound a) as Ha. pose proof (byte_bound b) as Hb.
    set (n1 := N_of_ascii a / 4).
    set (n2 := (N_of_ascii a mod 4) * 16 + N_of_ascii b / 16).
    set (n3 := (N_of_ascii b mod 16) * 4).
    assert (H1 : n1 < 64) by (subst n1; lia).
    assert (H2 : n2 < 64) by (subst n2; lia).
    assert (H3 : n3 < 64) by (subst n3; lia).
    destruct (sextet_facts n1 H1) as (D1 & G1 & U1 & V1).
    destruct (sextet_facts n2 H2) as (D2 & G2 & U2 & V2).
    destruct (sextet_facts n3 H3) as (D3 & G3 & U3 & V3).
    exists 1%nat, [n1; n2; n3].
    cbn [btoa]. fold n1 n2 n3.
    rewrite U1, U2, U3, !url_pad. change (url EmptyString) with EmptyString.
    rewrite V1, V2, V3. change (unurl EmptyString) with EmptyString.
    cbn [list_ascii_of_string sextets String.length]. rewrite D1, D2, D3.
    split; [reflexivity|]. split; [lia|]. split; [reflexivity|].
    split; [repeat (apply List.Forall_cons; [assumption|]); first [assumption | apply List.Forall_nil]|]. split; [reflexivity|].
    cbn [bytes_of_sextets]. f_equal.
    f_equal; [|f_equal]; apply ascii_back; subst n1 n2 n3; lia.
  - destruct IH as (k & ns & E & Hk & Hlen & Hgood & Hs & Hb').
    pose proof (byte_bound a) as Ha. pose proof (byte_bound b) as Hb.
    pose proof (byte_bound c) as Hc.
    set (n1 := N_of_ascii a / 4).
    set (n2 := (N_of_ascii a mod 4) * 16 + N_of_ascii b / 16).
    set (n3 := (N_of_ascii b mod 16) * 4 + N_of_ascii c / 64).
    set (n4 := N_of_ascii c mod 64).
    assert (H1 : n1 < 64) by (subst n1; lia).
    assert (H2 : n2 < 64) by (subst n2; lia).
    assert (H3 : n3 < 64) by (subst n3; lia).
    assert (H4 : n4 < 64) by (subst n4; lia).
    destruct (sextet_facts n1 H1) as (D1 & G1 & U1 & V1).
    destruct (sextet_facts n2 H2) as (D2 & G2 & U2 & V2).
    destruct (sextet_facts n3 H3) as (D3 & G3 & U3 & V3).
    destruct (sextet_facts n4 H4) as (D4 & G4 & U4 & V4).
    exists k, (n1 :: n2 :: n3 :: n4 :: ns).
    cbn [btoa]. fold n1 n2 n3 n4.
    rewrite U1, U2, U3, U4, V1, V2, V3, V4.
    cbn [list_ascii_of_string sextets String.length String.append].
    rewrite D1, D2, D3, D4, Hs.
    split; [rewrite E at 1; reflexivity|].
    split; [assumption|].
    split. { change (String.length (String ?x ?y)) with (S (String.length y)). apply mod4_add4, Hlen. }
    split; [repeat (apply List.Forall_cons; [assumption|]); first [assumption | apply List.Forall_nil]|].
    split; [reflexivity|].
    cbn [bytes_of_sextets]. rewrite Hb'. f_equal.
    f_equal; [|f_equal; [|f_equal]]; apply ascii_back; subst n1 n2 n3 n4; lia.
Qed.

Lemma length_replace_char a b s :
  String.length (replace_char a b s) = String.length s.
Proof. induction s as [|c s IH]; [reflexivity|]. cbn [replace_char].
  change (String.length (String ?x ?y)) with (S (String.length y)). now rewrite IH. Qed.

Lemma list_ascii_app s t :
  list_ascii_of_string (s +:+ t) = list_ascii_of_string s ++ list_ascii_of_string t.
Proof. induction s as [|c s IH]; [reflexivity|].
  change (String c s +:+ t) with (String c (s +:+ t)). cbn [list_ascii_of_string].
  now rewrite IH. Qed.

Lemma list_ascii_repeat c k :
  list_ascii_of_string (repeat_char c k) = repeat c k.
Proof. induction k as [|k IH]; [reflexivity|]. cbn. now rewrite IH. Qed.

Lemma length_list_ascii s : length (list_ascii_of_string s) = String.length s.
Proof. induction s as [|c s IH]; [reflexivity|]. cbn [list_ascii_of_string].
  change (String.length (String ?x ?y)) with (S (String.length y)). cbn. now rewrite IH. Qed.

Lemma filter_no_whitespace l :
  Forall (fun c => is_ascii_whitespace c = false) l ->
  filter (fun c => negb (is_ascii_whitespace c)) l = l.
Proof.
  induction 1 as [|c l Hc _ IH]; [reflexivity|].
  rewrite filter_cons. rewrite Hc. cbn. destruct (decide _) as [_|n]; [now rewrite IH|].
  exfalso. apply n. exact I.
Qed.

Lemma split_at_length {A} (l1 l2 : list A) n :
  length l1 = n -> firstn n (l1 ++ l2) = l1 /\ skipn n (l1 ++ l2) = l2.
Proof.
  intros <-. induction l1 as [|x l1 [IH1 IH2]]; [split; reflexivity|].
  cbn. rewrite IH1. split; [reflexivity|exact IH2].
Qed.

Lemma good_not_pad c : good c -> Ascii.eqb c pad = false.
Proof. intros [H _]. apply Ascii.eqb_neq. exact H. Qed.

Lemma strip_padding_shape (l : list ascii) (k : nat) :
  Forall good l -> (k <= 2)%nat -> ((length l + k) mod 4 = 0)%nat ->
  strip_padding (l ++ repeat pad k) = l.
Proof.
  intros Hl Hk Hmod. unfold strip_padding.
  assert (Hn : (N.of_nat (length (l ++ repeat pad k)) mod 4 =? 0) = true).
  { apply N.eqb_eq. rewrite length_app, repeat_length.
    change 4 with (N.of_nat 4).
    pose proof (Nat.div_mod_eq (length l + k) 4) as E. rewrite Hmod in E.
    rewrite E. rewrite Nat.add_0_r, Nat.mul_comm.
    rewrite Nat2N.inj_mul. apply N.Div0.mod_mul. }
  rewrite Hn, rev_app_distr.
  assert (Hlast : forall p r, rev l = p :: r -> Ascii.eqb p pad = false).
  { intros p r E. apply good_not_pad.
    rewrite List.Forall_forall in Hl. apply Hl. apply in_rev. rewrite E. now left. }
  destruct k as [|[|[|k]]]; [| | |lia]; cbn [repeat rev app].
  - rewrite app_nil_r. destruct (rev l) as [|p1 [|p2 r]] eqn:E; try reflexivity.
    now rewrite (Hlast _ _ eq_refl).
  - destruct (rev l) as [|p2 r] eqn:E.
    + apply (f_equal (@length _)) in E. rewrite length_rev in E.
      rewrite E in Hmod. discriminate.
    + cbn [app]. rewrite Ascii.eqb_refl, (Hlast _ _ eq_refl).
      change (rev r ++ [p2]) with (rev (p2 :: r)).
      rewrite <- E. apply rev_involutive.
  - cbn [app]. rewrite !Ascii.eqb_refl. apply rev_involutive.
Qed.

Lemma atob_btoa s : atob (btoa s) = Some s.
Proof.
  destruct (btoa_shape s) as (k & ns & E & Hk & Hlen & Hgood & Hs & Hb).
  unfold atob. rewrite E, list_ascii_app, list_ascii_repeat.
  rewrite filter_app, !filter_no_whitespace.
  2:{ clear. induction k; constructor; [reflexivity|assumption]. }
  2:{ eapply List.Forall_impl; [|exact Hgood]. now intros c [_ Hc]. }
  rewrite strip_padding_shape; [|assumption|assumption|now rewrite length_list_ascii].
  rewrite Hs, Hb. now rewrite string_of_list_ascii_of_string.
Qed.
End Base64Round.

Section CodecFacts.
Context {P : WebCrypto} (L : WebCryptoLaws P).
Import Base64Url Base64Round.

Lemma base64url_roundtrip (b : list byte) :
  base64UrlToArrayBuffer (arrayBufferToBase64Url b) = Some b.
Proof.
  unfold base64UrlToArrayBuffer, arrayBufferToBase64Url.
  set (s := string_of_list_byte b).
  destruct (btoa_shape s) as (k & ns & E & Hk & Hlen & _).
  fold (url (Base64.btoa s)). fold (unurl (url (Base64.btoa s))).
  assert (Hl : String.length (url (Base64.btoa s))
               = String.length (unurl (url (Base64.btoa s)))).
  { unfold unurl. now rewrite !length_replace_char. }
  rewrite Hl. unfold padEnd.
  rewrite (pad_count _ k Hlen Hk).
  replace (String.length (unurl (url (Base64.btoa s))) + k
           - String.length (unurl (url (Base64.btoa s))))%nat with k by lia.
  change "="%char with Base64.pad. rewrite <- E, atob_btoa.
  subst s. now rewrite list_byte_of_string_of_list_byte.
Qed.

Lemma generateIV_length token : length (generateIV token) = IV_LENGTH.
Proof.
  unfold generateIV. rewrite length_firstn, digest_length. reflexivity.
Qed.

End CodecFacts.

(** The stand-in runtime has the laws the codec relies on. *)
Lemma toy_laws : WebCryptoLaws Toy.crypto.
Proof.
  split.
  - intros s. apply string_of_list_byte_of_string.
  - intros d. cbn. unfold Toy.digest.
    rewrite length_firstn, length_app, repeat_length. lia.
  - intros k iv m. cbn. unfold Toy.decrypt, Toy.encrypt.
    assert (Ht : length (Toy.tag k iv) = 16%nat).
    { unfold Toy.tag. rewrite length_firstn, !length_app, repeat_length. lia. }
    rewrite length_app, Ht.
    replace (length m + 16 - 16)%nat with (length m) by lia.
    destruct (Base64Round.split_at_length m (Toy.tag k iv) (length m) eq_refl)
      as [-> ->].
    replace (16 <=? length m + 16)%nat with true
      by (symmetry; apply Nat.leb_le; lia).
    unfold Toy.bytes_eqb. rewrite String.eqb_refl. reflexivity.
Qed.

(** ** The token codec on strings of UTF-16 code units *)

Module UnicodeFacts.
Import Unicode.
Local Open Scope N_scope.
Local Ltac Zify.zify_post_hook ::= Z.to_euclidean_division_equations.

Definition scalar (c : N) : Prop := c < 0xD800 \/ (0xE000 <= c /\ c <= 0x10FFFF).

Lemma to_N_byte_of n : n < 256 -> Byte.to_N (byte_of n) = n.
Proof.
  intros H. unfold byte_of.
  destruct (Byte.of_N n) as [b|] eqn:E.
  - cbn. now apply Byte.to_of_N.
  - apply Byte.of_N_None_iff in E. lia.
Qed.

Lemma to_N_byte_of_list l :
  Forall (fun b => b < 256) l -> map Byte.to_N (map byte_of l) = l.
Proof.
  induction 1 as [|b l Hb _ IH]; [reflexivity|].
  cbn [map]. now rewrite to_N_byte_of, IH.
Qed.

Lemma utf8_bytes_small c :
  c <= 0x10FFFF -> Forall (fun b => b < 256) (utf8_bytes c).
Proof.
  intros H. unfold utf8_bytes.
  destruct (N.leb_spec c 0x7F); [repeat constructor; lia|].
  destruct (N.leb_spec c 0x7FF); [repeat constructor; lia|].
  destruct (N.leb_spec c 0xFFFF); repeat constructor; lia.
Qed.

Lemma lead_byte_1 b : b <= 0x7F -> lead_byte b = ([b], fresh).
Proof.
  intros H. unfold lead_byte.
  destruct (N.leb_spec b 0x7F); [reflexivity|lia].
Qed.

Lemma lead_byte_2 b :
  0xC2 <= b -> b <= 0xDF ->
  lead_byte b = ([], mkDecoder (b mod 0x20) 1 0x80 0xBF).
Proof.
  intros H1 H2. unfold lead_byte.
  destruct (N.leb_spec b 0x7F); [lia|].
  destruct (N.leb_spec 0xC2 b); [|lia].
  destruct (N.leb_spec b 0xDF); [reflexivity|lia].
Qed.

Lemma lead_byte_3 b :
  0xE0 <= b -> b <= 0xEF ->
  lead_byte b
  = ([], mkDecoder (b mod 0x10) 2
           (if b =? 0xE0 then 0xA0 else 0x80)
           (if b =? 0xED then 0x9F else 0xBF)).
Proof.
  intros H1 H2. unfold lead_byte.
  destruct (N.leb_spec b 0x7F); [lia|].
  destruct (N.leb_spec 0xC2 b); [|lia].
  destruct (N.leb_spec b 0xDF); [lia|]. cbn [andb].
  destruct (N.leb_spec 0xE0 b); [|lia].
  destruct (N.leb_spec b 0xEF); [reflexivity|lia].
Qed.

Lemma lead_byte_4 b :
  0xF0 <= b -> b <= 0xF4 ->
  lead_byte b
  = ([], mkDecoder (b mod 0x8) 3
           (if b =? 0xF0 then 0x90 else 0x80)
           (if b =? 0xF4 then 0x8F else 0xBF)).
Proof.
  intros H1 H2. unfold lead_byte.
  destruct (N.leb_spec b 0x7F); [lia|].
  destruct (N.leb_spec 0xC2 b); [|lia].
  destruct (N.leb_spec b 0xDF); [lia|]. cbn [andb].
  destruct (N.leb_spec 0xE0 b); [|lia].
  destruct (N.leb_spec b 0xEF); [lia|]. cbn [andb].
  destruct (N.leb_spec 0xF0 b); [|lia].
  destruct (N.leb_spec b 0xF4); [reflexivity|lia].
Qed.

Lemma decode_open b rest :
  utf8_decode fresh (b :: rest)
  = (let (out, d') := lead_byte b in out ++ utf8_decode d' rest).
Proof. reflexivity. Qed.

Lemma decode_last c lo hi b rest :
  lo <= b -> b <= hi ->
  utf8_decode (mkDecoder c 1 lo hi) (b :: rest)
  = (c * 0x40 + b mod 0x40) :: utf8_decode fresh rest.
Proof.
  intros H1 H2. cbn [utf8_decode bytes_needed lower_boundary upper_boundary
                     code_point].
  destruct (N.leb_spec lo b); [|lia].
  destruct (N.leb_spec b hi); [reflexivity|lia].
Qed.

Lemma decode_next c n lo hi b rest :
  lo <= b -> b <= hi ->
  utf8_decode (mkDecoder c (S (S n)) lo hi) (b :: rest)
  = utf8_decode (mkDecoder (c * 0x40 + b mod 0x40) (S n) 0x80 0xBF) rest.
Proof.
  intros H1 H2. cbn [utf8_decode bytes_needed lower_boundary upper_boundary
                     code_point].
  destruct (N.leb_spec lo b); [|lia].
  destruct (N.leb_spec b hi); [reflexivity|lia].
Qed.

Lemma decode_scalar c rest :
  scalar c ->
  utf8_decode fresh (utf8_bytes c ++ rest) = c :: utf8_decode fresh rest.
Proof.
  intros Hc. unfold utf8_bytes.
  destruct (N.leb_spec c 0x7F) as [H1|H1].
  { cbn [app]. rewrite decode_open, lead_byte_1 by assumption. reflexivity. }
  destruct (N.leb_spec c 0x7FF) as [H2|H2].
  { cbn [app]. rewrite decode_open, lead_byte_2 by lia.
    cbn [app]. rewrite decode_last by lia. f_equal. lia. }
  destruct (N.leb_spec c 0xFFFF) as [H3|H3].
  { cbn [app]. rewrite decode_open, lead_byte_3 by lia.
    cbn [app].
    rewrite decode_next.
    2:{ destruct (N.eqb_spec (0xE0 + c / 0x1000) 0xE0); lia. }
    2:{ destruct (N.eqb_spec (0xE0 + c / 0x1000) 0xED); [|lia].
        unfold scalar in Hc. lia. }
    rewrite decode_last by lia. f_equal. lia. }
  unfold scalar in Hc.
  cbn [app]. rewrite decode_open, lead_byte_4 by lia.
  cbn [app].
  rewrite decode_next.
  2:{ destruct (N.eqb_spec (0xF0 + c / 0x40000) 0xF0); lia. }
  2:{ destruct (N.eqb_spec (0xF0 + c / 0x40000) 0xF4); lia. }
  rewrite decode_next by lia.
  rewrite decode_last by lia. f_equal. lia.
Qed.


Lemma decode_scalars cs :
  Forall scalar cs -> utf8_decode fresh (flat_map utf8_bytes cs) = cs.
Proof.
  induction 1 as [|c cs Hc _ IH]; [reflexivity|].
  cbn [flat_map]. now rewrite decode_scalar, IH.
Qed.

Lemma scalar_small c : scalar c -> c <= 0x10FFFF.
Proof. unfold scalar. lia. Qed.

Lemma bytes_small cs :
  Forall scalar cs -> Forall (fun b => b < 256) (flat_map utf8_bytes cs).
Proof.
  induction 1 as [|c cs Hc _ IH]; [constructor|].
  cbn [flat_map]. apply Forall_app. split; [|exact IH].
  apply utf8_bytes_small, scalar_small, Hc.
Qed.

Lemma is_lead_spec u : is_lead u = true <-> 0xD800 <= u /\ u <= 0xDBFF.
Proof.
  unfold is_lead. rewrite andb_true_iff, !N.leb_le. reflexivity.
Qed.

Lemma is_trail_spec u : is_trail u = true <-> 0xDC00 <= u /\ u <= 0xDFFF.
Proof.
  unfold is_trail. rewrite andb_true_iff, !N.leb_le. reflexivity.
Qed.

Lemma is_lead_false u : is_lead u = false <-> u < 0xD800 \/ 0xDBFF < u.
Proof.
  unfold is_lead. rewrite andb_false_iff, !N.leb_gt. reflexivity.
Qed.

Lemma is_trail_false u : is_trail u = false <-> u < 0xDC00 \/ 0xDFFF < u.
Proof.
  unfold is_trail. rewrite andb_false_iff, !N.leb_gt. reflexivity.
Qed.

(** Induction on a string two code units at a time. *)
Lemma string_ind2 (Q : JsString -> Prop) :
  Q [] ->
  (forall u, Q [u]) ->
  (forall u v s, Q s -> Q (v :: s) -> Q (u :: v :: s)) ->
  forall s, Q s.
Proof.
  intros H0 H1 H2 s.
  enough (H : Q s /\ forall u, Q (u :: s)) by apply H.
  induction s as [|v s [IH1 IH2]]; [split; [exact H0|exact H1]|].
  split; [apply IH2|]. intros u. apply H2; [exact IH1|apply IH2].
Qed.

Lemma scalar_FFFD : scalar 0xFFFD.
Proof. right. lia. Qed.

Lemma scalar_values_scalar s :
  is_string s -> Forall scalar (scalar_values s).
Proof.
  unfold is_string. induction s as [| u | u v s IH1 IH2] using string_ind2;
    intros Hs.
  - constructor.
  - apply Forall_cons_iff in Hs. destruct Hs as [Hu _]. cbn [scalar_values].
    destruct (is_lead u) eqn:El;
      [constructor; [apply scalar_FFFD|constructor]|].
    destruct (is_trail u) eqn:Et;
      [constructor; [apply scalar_FFFD|constructor]|].
    apply is_lead_false in El. apply is_trail_false in Et.
    constructor; [unfold scalar; lia|constructor].
  - pose proof Hs as Hs0.
    apply Forall_cons_iff in Hs. destruct Hs as [Hu Hs].
    pose proof Hs as Hvs.
    apply Forall_cons_iff in Hs. destruct Hs as [Hv Hs].
    change (scalar_values (u :: v :: s))
      with (if is_lead u then
              if is_trail v
              then (0x10000 + (u - 0xD800) * 0x400 + (v - 0xDC00))
                   :: scalar_values s
              else 0xFFFD :: scalar_values (v :: s)
            else if is_trail u then 0xFFFD :: scalar_values (v :: s)
            else u :: scalar_values (v :: s)).
    destruct (is_lead u) eqn:El.
    + destruct (is_trail v) eqn:Et.
      * apply is_lead_spec in El. apply is_trail_spec in Et.
        constructor; [unfold scalar; lia|now apply IH1].
      * constructor; [apply scalar_FFFD|now apply IH2].
    + destruct (is_trail u) eqn:Et.
      * constructor; [apply scalar_FFFD|now apply IH2].
      * apply is_lead_false in El. apply is_trail_false in Et.
        constructor; [unfold scalar; lia|now apply IH2].
Qed.

(** What [TextDecoder] makes of the bytes of [TextEncoder]. *)
Lemma decode_encode_sanitized s : is_string s -> decode (encode s) = sanitized s.
Proof.
  intros Hs. unfold decode, encode, sanitized.
  pose proof (scalar_values_scalar s Hs) as H.
  rewrite to_N_byte_of_list by now apply bytes_small.
  now rewrite decode_scalars.
Qed.

Lemma scalar_values_pair u v s :
  scalar_values (u :: v :: s)
  = if is_lead u then
      if is_trail v
      then (0x10000 + (u - 0xD800) * 0x400 + (v - 0xDC00)) :: scalar_values s
      else 0xFFFD :: scalar_values (v :: s)
    else if is_trail u then 0xFFFD :: scalar_values (v :: s)
    else u :: scalar_values (v :: s).
Proof. reflexivity. Qed.

Lemma well_formed_pair u v s :
  well_formed (u :: v :: s)
  = if is_lead u then is_trail v && well_formed s
    else negb (is_trail u) && well_formed (v :: s).
Proof. reflexivity. Qed.

Lemma units_of_scalars s :
  is_string s -> well_formed s = true ->
  flat_map utf16_units (scalar_values s) = s.
Proof.
  unfold is_string.
  induction s as [| u | u v s IH1 IH2] using string_ind2; intros Hs Hw.
  - reflexivity.
  - apply Forall_cons_iff in Hs. destruct Hs as [Hu _].
    cbn [well_formed scalar_values] in *.
    destruct (is_lead u) eqn:El; [discriminate|].
    destruct (is_trail u) eqn:Et; [discriminate|].
    cbn [flat_map app]. unfold utf16_units.
    destruct (N.ltb_spec u 0x10000); [reflexivity|lia].
  - apply Forall_cons_iff in Hs. destruct Hs as [Hu Hs].
    pose proof Hs as Hvs.
    apply Forall_cons_iff in Hs. destruct Hs as [Hv Hs].
    rewrite well_formed_pair in Hw. rewrite scalar_values_pair.
    destruct (is_lead u) eqn:El.
    + apply andb_true_iff in Hw. destruct Hw as [Et Hw]. rewrite Et.
      cbn [flat_map]. rewrite (IH1 Hs Hw).
      apply is_lead_spec in El. apply is_trail_spec in Et.
      unfold utf16_units.
      destruct (N.ltb_spec (0x10000 + (u - 0xD800) * 0x400 + (v - 0xDC00))
                  0x10000); [lia|].
      cbn [app]. f_equal; [lia|]. f_equal. lia.
    + apply andb_true_iff in Hw. destruct Hw as [Et Hw].
      apply negb_true_iff in Et. rewrite Et.
      cbn [flat_map]. rewrite (IH2 Hvs Hw).
      unfold utf16_units.
      destruct (N.ltb_spec u 0x10000); [reflexivity|lia].
Qed.

Lemma drop_bom_scalars s :
  starts_with_bom s = false -> drop_bom (scalar_values s) = scalar_values s.
Proof.
  destruct s as [|u [|v s]]; [reflexivity| |].
  - cbn [starts_with_bom scalar_values]. intros Hb.
    destruct (is_lead u); [reflexivity|].
    destruct (is_trail u); [reflexivity|].
    cbn [drop_bom]. now rewrite Hb.
  - cbn [starts_with_bom]. intros Hb. rewrite scalar_values_pair.
    destruct (is_lead u) eqn:El.
    + destruct (is_trail v) eqn:Et; [|reflexivity].
      apply is_lead_spec in El. apply is_trail_spec in Et.
      cbn [drop_bom].
      destruct (N.eqb_spec (0x10000 + (u - 0xD800) * 0x400 + (v - 0xDC00))
                  0xFEFF); [lia|reflexivity].
    + destruct (is_trail u); [reflexivity|].
      cbn [drop_bom]. now rewrite Hb.
Qed.

(** A well-formed string that does not begin with U+FEFF is left as it
    is. *)
Lemma sanitized_well_formed s :
  is_string s -> well_formed s = true -> starts_with_bom s = false ->
  sanitized s = s.
Proof.
  intros Hs Hw Hb. unfold sanitized.
  rewrite drop_bom_scalars by assumption. now apply units_of_scalars.
Qed.


Lemma length_units s :
  is_string s -> length (flat_map utf16_units (scalar_values s)) = length s.
Proof.
  unfold is_string.
  induction s as [| u | u v s IH1 IH2] using string_ind2; intros Hs.
  - reflexivity.
  - apply Forall_cons_iff in Hs. destruct Hs as [Hu _].
    cbn [scalar_values].
    destruct (is_lead u); [reflexivity|].
    destruct (is_trail u); [reflexivity|].
    cbn [flat_map app]. unfold utf16_units.
    destruct (N.ltb_spec u 0x10000); [reflexivity|lia].
  - apply Forall_cons_iff in Hs. destruct Hs as [Hu Hs].
    pose proof Hs as Hvs.
    apply Forall_cons_iff in Hs. destruct Hs as [Hv Hs].
    rewrite scalar_values_pair.
    destruct (is_lead u) eqn:El.
    + destruct (is_trail v) eqn:Et.
      * apply is_lead_spec in El. apply is_trail_spec in Et.
        cbn [flat_map]. rewrite length_app, (IH1 Hs). unfold utf16_units.
        destruct (N.ltb_spec (0x10000 + (u - 0xD800) * 0x400 + (v - 0xDC00))
                    0x10000); [lia|reflexivity].
      * cbn [flat_map]. rewrite length_app, (IH2 Hvs). reflexivity.
    + destruct (is_trail u) eqn:Et.
      * cbn [flat_map]. rewrite length_app, (IH2 Hvs). reflexivity.
      * cbn [flat_map]. rewrite length_app, (IH2 Hvs). unfold utf16_units.
        destruct (N.ltb_spec u 0x10000); [reflexivity|lia].
Qed.

Lemma units_fixed s :
  is_string s -> flat_map utf16_units (scalar_values s) = s ->
  well_formed s = true.
Proof.
  unfold is_string.
  induction s as [| u | u v s IH1 IH2] using string_ind2; intros Hs E.
  - reflexivity.
  - cbn [scalar_values well_formed] in *.
    destruct (is_lead u) eqn:El.
    + apply is_lead_spec in El. cbn in E. injection E as E. lia.
    + destruct (is_trail u) eqn:Et; [|reflexivity].
      apply is_trail_spec in Et. cbn in E. injection E as E. lia.
  - apply Forall_cons_iff in Hs. destruct Hs as [Hu Hs].
    pose proof Hs as Hvs.
    apply Forall_cons_iff in Hs. destruct Hs as [Hv Hs].
    rewrite scalar_values_pair in E. rewrite well_formed_pair.
    destruct (is_lead u) eqn:El.
    + destruct (is_trail v) eqn:Et.
      * cbn [flat_map] in E.
        assert (L : length (utf16_units
                              (0x10000 + (u - 0xD800) * 0x400 + (v - 0xDC00)))
                    = 2%nat).
        { apply is_lead_spec in El. apply is_trail_spec in Et.
          unfold utf16_units.
          destruct (N.ltb_spec (0x10000 + (u - 0xD800) * 0x400 + (v - 0xDC00))
                      0x10000); [lia|reflexivity]. }
        destruct (utf16_units _) as [|a [|b [|? ?]]]; try discriminate L.
        cbn [app] in E. injection E as _ _ E. now apply IH1.
      * apply is_lead_spec in El. cbn in E. injection E as E _. lia.
    + destruct (is_trail u) eqn:Et.
      * apply is_trail_spec in Et. cbn in E. injection E as E _. lia.
      * cbn [flat_map] in E. unfold utf16_units at 1 in E.
        destruct (N.ltb_spec u 0x10000); [|lia].
        cbn [app] in E. injection E as E. cbn [negb andb]. now apply IH2.
Qed.

(** The strings the two conversions leave as they are. *)
Lemma sanitized_fixed s :
  is_string s ->
  sanitized s = s <-> well_formed s = true /\ starts_with_bom s = false.
Proof.
  intros Hs. split.
  - intros E. destruct (starts_with_bom s) eqn:Hb.
    + exfalso. destruct s as [|u s]; [discriminate|].
      cbn [starts_with_bom] in Hb. apply N.eqb_eq in Hb. subst u.
      apply (f_equal (@length _)) in E. unfold sanitized in E.
      assert (Hs' : is_string s) by (now apply Forall_cons_iff in Hs).
      assert (E0 : scalar_values (0xFEFF :: s) = 0xFEFF :: scalar_values s)
        by (destruct s; reflexivity).
      rewrite E0 in E. cbn [drop_bom] in E.
      change (0xFEFF =? 0xFEFF) with true in E. cbv iota in E.
      rewrite (length_units s Hs') in E. cbn [length] in E. lia.
    + split; [|reflexivity]. apply units_fixed; [exact Hs|].
      unfold sanitized in E. now rewrite drop_bom_scalars in E.
  - intros [Hw Hb]. now apply sanitized_well_formed.
Qed.

(** On the strings of 8-bit characters, [TextDecoder] undoes
    [TextEncoder]: none of them holds a surrogate or U+FEFF. *)
Lemma decode_encode_of_string (s : string) :
  decode (encode (of_string s)) = of_string s.
Proof.
  assert (B : forall c, N_of_ascii c < 256).
  { intros c. destruct c as [[] [] [] [] [] [] [] []]; reflexivity. }
  assert (H1 : is_string (of_string s)).
  { unfold is_string, of_string. apply Forall_map.
    apply Forall_forall. intros c _. specialize (B c). cbn. lia. }
  assert (H2 : well_formed (of_string s) = true).
  { unfold of_string. induction (list_ascii_of_string s) as [|c l IH];
      [reflexivity|].
    cbn [map well_formed]. specialize (B c).
    replace (is_lead (N_of_ascii c)) with false
      by (symmetry; apply is_lead_false; lia).
    replace (is_trail (N_of_ascii c)) with false
      by (symmetry; apply is_trail_false; lia).
    exact IH. }
  assert (H3 : starts_with_bom (of_string s) = false).
  { unfold of_string. destruct (list_ascii_of_string s) as [|c l];
      [reflexivity|].
    cbn [map starts_with_bom]. specialize (B c). apply N.eqb_neq. lia. }
  rewrite decode_encode_sanitized by exact H1.
  now apply sanitized_well_formed.
Qed.

End UnicodeFacts.

(** The stand-in runtime is a sound cipher. *)
Lemma toy_cipher : sound_cipher Toy.crypto.
Proof.
  split; [apply (digest_length (WebCryptoLaws := toy_laws))
         |apply (decrypt_encrypt (WebCryptoLaws := toy_laws))].
Qed.

Section UnicodeCodec.
Context {P : WebCrypto}.
Import Base64Round.

(** C2 (as amended). JavaScript strings are sequences of UTF-16 code
    units, and the codec passes the token through [TextEncoder] and
    [TextDecoder]. For a sound cipher, every secret of at least 16 code
    units and every token, decrypting the encryption of the token under
    the same secret returns the token with each surrogate that stands
    alone replaced by U+FFFD and without a leading U+FEFF; this is the
    token itself exactly when the token is well-formed and does not
    begin with U+FEFF. [encryptToken] draws on the token and the secret
    alone: its IV is the first 12 bytes of the SHA-256 digest of the
    encoded token, and its output is the base64url text of the IV
    followed by the ciphertext. *)
Theorem token_round_trip (secret token : Unicode.JsString) :
  sound_cipher P ->
  (16 <= length secret)%nat ->
  Unicode.is_string token ->
  Unicode.decryptToken (Unicode.encryptToken token secret) secret
  = Some (Unicode.sanitized token)
  /\ (Unicode.sanitized token = token
      <-> Unicode.well_formed token = true
          /\ Unicode.starts_with_bom token = false)
  /\ (let iv := firstn 12 (SHA256_digest (Unicode.encode token)) in
      base64UrlToArrayBuffer (Unicode.encryptToken token secret)
      = Some (iv ++ AES_GCM_encrypt (Unicode.deriveKey secret) iv
                      (Unicode.encode token))).
Proof.
  intros [Hd Ha] _ Hs.
  assert (Hiv : length (Unicode.generateIV token) = IV_LENGTH).
  { unfold Unicode.generateIV. rewrite length_firstn, Hd. reflexivity. }
  split; [|split].
  - unfold Unicode.decryptToken, Unicode.encryptToken.
    rewrite base64url_roundtrip.
    destruct (split_at_length (Unicode.generateIV token)
                (AES_GCM_encrypt (Unicode.deriveKey secret)
                   (Unicode.generateIV token) (Unicode.encode token))
                IV_LENGTH Hiv) as [-> ->].
    rewrite Ha. f_equal. now apply UnicodeFacts.decode_encode_sanitized.
  - now apply UnicodeFacts.sanitized_fixed.
  - cbv zeta. unfold Unicode.encryptToken. apply base64url_roundtrip.
Qed.

End UnicodeCodec.

Lemma token_round_trip_witness :
  let secret := Unicode.of_string "0123456789abcdef" in
  let uuid := Unicode.of_string "123e4567-e89b-42d3-a456-426614174000" in
  let astral := [0x00E9; 0xD83D; 0xDE00; 0x20AC]%N in
  Unicode.decryptToken (P := Toy.crypto)
    (Unicode.encryptToken (P := Toy.crypto) uuid secret) secret
  = Some uuid
  /\ Unicode.decryptToken (P := Toy.crypto)
       (Unicode.encryptToken (P := Toy.crypto) astral secret) secret
     = Some astral.
Proof.
  intros secret uuid astral.
  assert (S : forall token,
             Unicode.is_string token ->
             Unicode.well_formed token = true ->
             Unicode.starts_with_bom token = false ->
             Unicode.decryptToken (P := Toy.crypto)
               (Unicode.encryptToken (P := Toy.crypto) token secret) secret
             = Some token).
  { intros token H1 H2 H3.
    destruct (token_round_trip (P := Toy.crypto) secret token toy_cipher)
      as (E & F & _); [vm_compute; lia|exact H1|].
    rewrite E. f_equal. apply F. now split. }
  split; apply S; try reflexivity;
    unfold Unicode.is_string; repeat constructor.
Defined.

(** C2 as first stated fails: a token that begins with U+FEFF comes
    back without it, and a token with a surrogate that stands alone
    comes back with U+FFFD in its place. *)
Lemma byte_order_mark_is_lost :
  let secret := Unicode.of_string "0123456789abcdef" in
  let uuid := Unicode.of_string "123e4567-e89b-42d3-a456-426614174000" in
  (16 <= length secret)%nat
  /\ Unicode.is_string (0xFEFF%N :: uuid)
  /\ Unicode.decryptToken (P := Toy.crypto)
       (Unicode.encryptToken (P := Toy.crypto) (0xFEFF%N :: uuid) secret)
       secret
     = Some uuid
  /\ Unicode.decryptToken (P := Toy.crypto)
       (Unicode.encryptToken (P := Toy.crypto) (0xFEFF%N :: uuid) secret)
       secret
     <> Some (0xFEFF%N :: uuid)
  /\ Unicode.decryptToken (P := Toy.crypto)
       (Unicode.encryptToken (P := Toy.crypto) (0xD800%N :: uuid) secret)
       secret
     = Some (0xFFFD%N :: uuid).
Proof.
  intros secret uuid.
  split; [vm_compute; lia|].
  split; [unfold Unicode.is_string; repeat constructor|].
  assert (E : Unicode.decryptToken (P := Toy.crypto)
                (Unicode.encryptToken (P := Toy.crypto) (0xFEFF%N :: uuid)
                   secret) secret
              = Some uuid) by (vm_compute; reflexivity).
  split; [exact E|]. rewrite E.
  split; [discriminate|vm_compute; reflexivity].
Qed.

(** ** Tables *)
Module SqliteFacts.
Import Sqlite.

Lemma has_token_eq k r : has_token k r = true <-> row_access_token r = k.
Proof. unfold has_token. apply String.eqb_eq. Qed.

Lemma first_row_some p t r : first_row p t = Some r -> p r = true /\ In r t.
Proof.
  induction t as [|x t IH]; [discriminate|]. cbn.
  destruct (p x) eqn:E.
  - intros [= ->]. split; [exact E|now left].
  - intros H. destruct (IH H). split; [assumption|now right].
Qed.

Lemma first_row_token k t r :
  first_row (has_token k) t = Some r -> row_access_token r = k.
Proof. intros H. apply first_row_some in H as [H _]. now apply has_token_eq. Qed.

Lemma first_row_none p t :
  first_row p t = None <-> forall r, In r t -> p r = false.
Proof.
  induction t as [|x t IH]; cbn.
  - split; [intros _ r []|reflexivity].
  - destruct (p x) eqn:E.
    + split; [discriminate|]. intros H. rewrite (H x) in E; [discriminate|now left].
    + rewrite IH. split.
      * intros H r [<-|Hr]; [exact E|now apply H].
      * intros H r Hr. apply H. now right.
Qed.


Lemma count_rows_some p t r : first_row p t = Some r -> count_rows p t <> O.
Proof.
  induction t as [|x t IH]; [discriminate|]. cbn.
  destruct (p x); [discriminate|exact IH].
Qed.

Lemma update_rows_none p f t : first_row p t = None -> update_rows p f t = t.
Proof.
  induction t as [|x t IH]; [reflexivity|]. cbn.
  destruct (p x); [discriminate|]. intros H. now rewrite IH.
Qed.

(** A key-preserving update seen through a lookup by key. *)
Lemma first_row_update k p f t :
  (forall r, row_access_token (f r) = row_access_token r) ->
  first_row (has_token k) (update_rows p f t)
  = option_map (fun r => if p r then f r else r) (first_row (has_token k) t).
Proof.
  intros Hf. induction t as [|x t IH]; [reflexivity|]. cbn.
  assert (E : has_token k (if p x then f x else x) = has_token k x).
  { unfold has_token. destruct (p x); [now rewrite Hf|reflexivity]. }
  rewrite E. destruct (has_token k x); [reflexivity|exact IH].
Qed.

Lemma first_row_app p t1 t2 :
  first_row p (t1 ++ t2)
  = match first_row p t1 with Some r => Some r | None => first_row p t2 end.
Proof.
  induction t1 as [|x t1 IH]; [reflexivity|]. cbn.
  destruct (p x); [reflexivity|exact IH].
Qed.

Lemma first_row_insert k r t t' :
  insert_row r t = Some t' ->
  first_row (has_token k) t'
  = if String.eqb (row_access_token r) k then Some r
    else first_row (has_token k) t.
Proof.
  unfold insert_row.
  destruct (first_row (has_token (row_access_token r)) t) eqn:E; [discriminate|].
  intros [= <-]. rewrite first_row_app. cbn. unfold has_token at 2.
  destruct (String.eqb (row_access_token r) k) eqn:Ek.
  - apply String.eqb_eq in Ek. subst k. now rewrite E.
  - now destruct (first_row (has_token k) t).
Qed.

Lemma first_row_delete k k' t :
  first_row (has_token k) (delete_rows (has_token k') t)
  = if String.eqb k' k then None else first_row (has_token k) t.
Proof.
  induction t as [|x t IH]; cbn.
  - now destruct (String.eqb k' k).
  - destruct (has_token k' x) eqn:E1.
    + rewrite IH. destruct (String.eqb k' k) eqn:E2; [reflexivity|].
      apply has_token_eq in E1. unfold has_token. rewrite E1, E2. reflexivity.
    + cbn. rewrite IH. destruct (String.eqb k' k) eqn:E2.
      * apply String.eqb_eq in E2. subst k'. now rewrite E1.
      * reflexivity.
Qed.

Lemma delete_rows_none p t : first_row p t = None -> delete_rows p t = t.
Proof.
  induction t as [|x t IH]; [reflexivity|]. cbn.
  destruct (p x); [discriminate|]. intros H. now rewrite IH.
Qed.

End SqliteFacts.

(** ** Worlds and [exec] *)
Module WorldFacts.

Lemma shard_set_shard_eq n t w : shard (set_shard n t w) n = t.
Proof. unfold shard, set_shard. cbn. now rewrite lookup_insert_eq. Qed.

Lemma shard_set_shard_ne n m t w :
  n <> m -> shard (set_shard n t w) m = shard w m.
Proof. intros H. unfold shard, set_shard. cbn. now rewrite lookup_insert_ne. Qed.

Lemma shard_set_shard n m t w :
  shard (set_shard n t w) m = if String.eqb n m then t else shard w m.
Proof.
  destruct (String.eqb n m) eqn:E.
  - apply String.eqb_eq in E. subst m. apply shard_set_shard_eq.
  - apply String.eqb_neq in E. now apply shard_set_shard_ne.
Qed.

Lemma shard_after_call w n : shard (after_call w) n = shard w n.
Proof. reflexivity. Qed.

Lemma after_call_no_fault w : faults w = [] -> after_call w = w.
Proof. destruct w as [o f u k]. cbn. intros ->. reflexivity. Qed.

Lemma same_store_refl w : same_store w w.
Proof. intros n. reflexivity. Qed.

Lemma same_store_trans w1 w2 w3 :
  same_store w1 w2 -> same_store w2 w3 -> same_store w1 w3.
Proof. intros H1 H2 n. now rewrite H2, H1. Qed.

Lemma row_at_same_store w w' n k :
  same_store w w' -> row_at w' n k = row_at w n k.
Proof. intros H. unfold row_at. now rewrite H. Qed.

(** Writing back a table that did not change. *)
Lemma set_shard_same n w : same_store w (set_shard n (shard w n) w).
Proof.
  intros m. rewrite shard_set_shard.
  destruct (String.eqb n m) eqn:E; [|reflexivity].
  apply String.eqb_eq in E. now subst.
Qed.

(** What one [exec] call does, whatever fault it meets. *)
Lemma exec_unfold c q w :
  exec c q w =
  let w0 := after_call w in
  match next_fault w with
  | ThrowBefore => (Throw, w0)
  | f =>
      match Sqlite.run q (shard w (main c)) with
      | None => (Throw, w0)
      | Some (t', res) =>
          let w1 := set_shard (main c) t' w0 in
          match f with
          | ThrowAfterMain => (Throw, w1)
          | MirrorLost => (Ret res, w1)
          | _ => (Ret res, mirror_write c q w1)
          end
      end
  end.
Proof.
  unfold exec, next_fault, after_call. cbv zeta.
  destruct (faults w) as [|[] fs]; reflexivity.
Qed.

Lemma faults_mirror_write c q w : faults (mirror_write c q w) = faults w.
Proof.
  unfold mirror_write. destruct (mirror c); [|reflexivity].
  destruct (Sqlite.run q (shard w s)) as [[t' r]|]; reflexivity.
Qed.

Lemma uuid_mirror_write c q w :
  uuids (mirror_write c q w) = uuids w
  /\ uuid_next (mirror_write c q w) = uuid_next w.
Proof.
  unfold mirror_write. destruct (mirror c); [|split; reflexivity].
  destruct (Sqlite.run q (shard w s)) as [[t' r]|]; split; reflexivity.
Qed.

Lemma shard_mirror_write c q w n :
  shard (mirror_write c q w) n
  = if decide (mirror c = Some n) then apply_sql q (shard w n) else shard w n.
Proof.
  unfold mirror_write, apply_sql. destruct (mirror c) as [m|].
  - destruct (decide (Some m = Some n)) as [[= ->]|Hne].
    + destruct (Sqlite.run q (shard w n)) as [[t' r]|]; [|reflexivity].
      apply shard_set_shard_eq.
    + destruct (Sqlite.run q (shard w m)) as [[t' r]|]; [|reflexivity].
      apply shard_set_shard_ne. congruence.
  - destruct (decide (None = Some n)); [discriminate|reflexivity].
Qed.

(** The store after a call that went through without a fault. *)
Lemma exec_no_fault c q w :
  faults w = [] ->
  mirror c <> Some (main c) ->
  match Sqlite.run q (shard w (main c)) with
  | Some (t', res) =>
      exists w',
        exec c q w = (Ret res, w')
        /\ faults w' = [] /\ uuids w' = uuids w /\ uuid_next w' = uuid_next w
        /\ forall n,
            shard w' n =
            if String.eqb (main c) n then t'
            else if decide (mirror c = Some n) then apply_sql q (shard w n)
            else shard w n
  | None => exec c q w = (Throw, w)
  end.
Proof.
  intros Hf Hm. rewrite exec_unfold. unfold next_fault. rewrite Hf.
  cbv zeta. rewrite (after_call_no_fault w Hf).
  destruct (Sqlite.run q (shard w (main c))) as [[t' res]|]; [|reflexivity].
  eexists. split; [reflexivity|].
  rewrite faults_mirror_write.
  destruct (uuid_mirror_write c q (set_shard (main c) t' w)) as [-> ->].
  repeat split; try assumption.
  intros n. rewrite shard_mirror_write, !shard_set_shard.
  destruct (String.eqb (main c) n) eqn:E.
  - apply String.eqb_eq in E. subst n.
    destruct (decide _); [contradiction|reflexivity].
  - reflexivity.
Qed.
End WorldFacts.

(** ** Clients and single statements *)
Section StatementFacts.

Context {P : WebCrypto}.
Import Sqlite SqliteFacts WorldFacts.

Lemma append_inj_l a b c : a +:+ b = a +:+ c -> b = c.
Proof. induction a as [|x a IH]; cbn; [auto|]. intros [= H]. auto. Qed.

Lemma createClient_main version doName :
  main (createClient version doName) = version +:+ "-" +:+ doName.
Proof. reflexivity. Qed.

Lemma createClient_mirror version doName :
  mirror (createClient version doName) = Some (aggregate version).
Proof. reflexivity. Qed.

(** A user shard is never the aggregate. *)
Lemma user_shard_not_aggregate version cri :
  version +:+ "-" +:+ getDOName cri <> aggregate version.
Proof.
  unfold aggregate, getDOName. intros H.
  apply append_inj_l, append_inj_l in H. discriminate.
Qed.

Lemma home_not_aggregate env version tok :
  home env version tok <> aggregate version.
Proof. apply user_shard_not_aggregate. Qed.

Lemma user_client_mirror version cri :
  mirror (createClient version (getDOName cri))
  <> Some (main (createClient version (getDOName cri))).
Proof.
  cbn. intros [= H]. symmetry in H.
  now apply (user_shard_not_aggregate version cri).
Qed.

(** A [SELECT] by key, whatever fault the call meets. *)
Lemma exec_select c tok w :
  exists w',
    exec c (SelectByAccessToken tok) w
    = (if throws (next_fault w) then Throw
       else Ret (mkResult (row_at w (main c) tok) 0), w')
    /\ same_store w w'
    /\ faults w' = tail (faults w)
    /\ uuids w' = uuids w /\ uuid_next w' = uuid_next w.
Proof.
  rewrite exec_unfold. cbn [run]. cbv zeta.
  assert (S0 : same_store w (set_shard (main c) (shard w (main c)) (after_call w))).
  { intros n. rewrite shard_set_shard.
    destruct (String.eqb (main c) n) eqn:E; [|reflexivity].
    apply String.eqb_eq in E. now subst. }
  destruct (next_fault w); cbn [throws]; eexists;
    (split; [reflexivity|]).
  - rewrite faults_mirror_write.
    destruct (uuid_mirror_write c (SelectByAccessToken tok)
                (set_shard (main c) (shard w (main c)) (after_call w))) as [-> ->].
    repeat split.
    intros n. rewrite shard_mirror_write. unfold apply_sql. cbn [run].
    destruct (decide _); apply S0.
  - repeat split.
  - repeat split. exact S0.
  - repeat split. exact S0.
Qed.
End StatementFacts.

(** ** Session resolution *)
Section SessionFacts.

Context {P : WebCrypto}.
Import Sqlite SqliteFacts WorldFacts.

Lemma next_fault_after w w' :
  faults w' = tail (faults w) -> next_fault w' = next_fault (after_call w).
Proof. unfold next_fault, after_call. cbn. now intros ->. Qed.

(** A lookup that ends without a row: the locals, and the store. *)
Lemma find_user_unresolved env version w tok ended_on :
  nonempty tok = true ->
  Unresolved env version w (Some tok) (Some ended_on) ->
  exists client w',
    find_user env version tok w = (Ret (mkLocals (Some ended_on) None client), w')
    /\ same_store w w'
    /\ uuids w' = uuids w /\ uuid_next w' = uuid_next w.
Proof.
  intros Htok H. unfold find_user.
  set (c := createClient version
              (getDOName (getClientReferenceId tok (DB_SECRET env)))).
  destruct (exec_select c tok w) as (w1 & E1 & S1 & F1 & U1 & N1).
  unfold try_catch, bind. rewrite E1.
  inversion H as [ | | t Hn Ht | t Hn Ht Hrow | t r p Hn Ht Hrow Hp Hpn Ht2
                 | t r p Hn Ht Hrow Hp Hpn Ht2 Hrow2 ]; subst.
  - discriminate.
  - rewrite Ht. eexists _, _. split; [reflexivity|]. auto.
  - rewrite Ht. fold (home env version ended_on) in Hrow |- *.
    change (main c) with (home env version ended_on). rewrite Hrow.
    cbn. eexists _, _. split; [reflexivity|]. auto.
  - rewrite Ht. change (main c) with (home env version tok). rewrite Hrow.
    cbn [one option_map user_of_row verified_user_access_token of_sql].
    rewrite Hp. cbn [of_sql]. rewrite Hpn.
    set (c2 := createClient version
                 (getDOName (getClientReferenceId ended_on (DB_SECRET env)))).
    destruct (exec_select c2 ended_on w1) as (w2 & E2 & S2 & F2 & U2 & N2).
    rewrite E2. rewrite (next_fault_after _ _ F1), Ht2.
    cbn. eexists _, _. split; [reflexivity|].
    split; [eapply same_store_trans; eassumption|]. split; congruence.
  - rewrite Ht. change (main c) with (home env version tok). rewrite Hrow.
    cbn [one option_map user_of_row verified_user_access_token of_sql].
    rewrite Hp. cbn [of_sql]. rewrite Hpn.
    set (c2 := createClient version
                 (getDOName (getClientReferenceId ended_on (DB_SECRET env)))).
    destruct (exec_select c2 ended_on w1) as (w2 & E2 & S2 & F2 & U2 & N2).
    rewrite E2. rewrite (next_fault_after _ _ F1), Ht2.
    change (main c2) with (home env version ended_on).
    rewrite (row_at_same_store _ _ _ _ S1), Hrow2.
    cbn. eexists _, _. split; [reflexivity|].
    split; [eapply same_store_trans; eassumption|]. split; congruence.
Qed.
End SessionFacts.

(** ** The unpersisted user *)

Section UnpersistedUser.

Context {P : WebCrypto}.
Import Sqlite SqliteFacts WorldFacts.

(** C4 (as amended). When the credential of a request is absent or
    resolves to no stored record (no row, a dangling forwarding
    pointer, or a lookup that throws), the session resolver returns,
    without an error and without changing any table, an unpersisted
    user with balance 0 and null email. Its credential is the one
    the lookup ended on when that one has the form of a UUID;
    otherwise it is a newly minted [crypto.randomUUID()]. *)
Theorem unresolved_credential_unpersisted_user
    (request : Request) (env : Env) (version : string) (w : World)
    (ended_on : option string) :
  Unresolved env version w (credential request) ended_on ->
  exists session w',
    handleUserSession request env version w = (Ret session, w')
    /\ same_store w w'
    /\ balance (session_user session) = 0
    /\ email (session_user session) = Null
    /\ session_user session
       = new_user (access_token (session_user session))
           (encryptToken (access_token (session_user session)) (DB_SECRET env))
    /\ if keeps ended_on
       then Some (access_token (session_user session)) = ended_on
            /\ uuid_next w' = uuid_next w
       else mints_fresh w (access_token (session_user session)) w'.
Proof.
  intros H. unfold handleUserSession.
  assert (Hfresh : forall (l : Locals) w1,
    found_user l = None -> accessToken l = ended_on ->
    same_store w w1 -> uuids w1 = uuids w -> uuid_next w1 = uuid_next w ->
    exists session w',
      (let! user :=
         match found_user l with
         | Some u => ret u
         | None =>
             let! accessToken :=
               match accessToken l with
               | Some tok =>
                   if nonempty tok && uuidGeneralRegex tok then ret tok
                   else randomUUID
               | None => randomUUID
               end in
             let client_reference_id := encryptToken accessToken (DB_SECRET env) in
             ret (new_user accessToken client_reference_id)
         end in
       let headers :=
         [("Set-Cookie", set_cookie env (hostname request) (access_token user))] in
       ret (mkSession user (found_client l) headers)) w1 = (Ret session, w')
      /\ same_store w w'
      /\ balance (session_user session) = 0
      /\ email (session_user session) = Null
      /\ session_user session
         = new_user (access_token (session_user session))
             (encryptToken (access_token (session_user session)) (DB_SECRET env))
      /\ if keeps ended_on
         then Some (access_token (session_user session)) = ended_on
              /\ uuid_next w' = uuid_next w
         else mints_fresh w (access_token (session_user session)) w').
  { intros l w1 Hu Ha S1 U1 N1. rewrite Hu, Ha.
    unfold bind, ret, randomUUID, keeps, mints_fresh.
    destruct ended_on as [tok|]; [destruct (nonempty tok && uuidGeneralRegex tok)|];
      eexists _, _; (split; [reflexivity|]); cbn;
      repeat split; auto; congruence. }
  inversion H as [ Hc | Hc | t Hn Ht Hc | t Hn Ht Hrow Hc
                 | t r p Hn Ht Hrow Hp Hpn Ht2 Hc
                 | t r p Hn Ht Hrow Hp Hpn Ht2 Hrow2 Hc ].
  1: { subst ended_on. unfold bind at 1. unfold ret at 1.
       apply Hfresh; auto using same_store_refl. }
  1: { subst ended_on. cbn [nonempty String.eqb negb]. unfold bind at 1. unfold ret at 1.
       apply Hfresh; auto using same_store_refl. }
  all: rewrite Hn;
    assert (Hu : Unresolved env version w (Some t) ended_on)
      by (rewrite Hc; exact H);
    subst ended_on;
    destruct (find_user_unresolved env version w t _ Hn Hu)
      as (client & w1 & E & S1 & U1 & N1);
    unfold bind at 1; rewrite E;
    apply Hfresh; auto.
Qed.

End UnpersistedUser.

Lemma unresolved_credential_unpersisted_user_witness :
  exists session w',
    handleUserSession (P := Toy.crypto)
      (request_with_cookie "/" "not-a-uuid") Toy.env "1" (Toy.world ∅ [])
    = (Ret session, w')
    /\ same_store (Toy.world ∅ []) w'
    /\ balance (session_user session) = 0
    /\ email (session_user session) = Null
    /\ session_user session
       = new_user (access_token (session_user session))
           (encryptToken (P := Toy.crypto)
              (access_token (session_user session)) (DB_SECRET Toy.env))
    /\ mints_fresh (Toy.world ∅ []) (access_token (session_user session)) w'.
Proof.
  apply (unresolved_credential_unpersisted_user (P := Toy.crypto)
           (request_with_cookie "/" "not-a-uuid") Toy.env "1"
           (Toy.world ∅ []) (Some "not-a-uuid")).
  change (credential (request_with_cookie "/" "not-a-uuid"))
    with (Some "not-a-uuid").
  apply NoRow; reflexivity.
Defined.

(** C4 as first stated fails: a presented credential of UUID form that
    has no row is kept, and no credential is minted. *)
Lemma presented_uuid_is_kept :
  let request :=
    request_with_cookie "/" "123e4567-e89b-42d3-a456-426614174000" in
  let w := Toy.world ∅ [] in
  Unresolved (P := Toy.crypto) Toy.env "1" w (credential request)
    (Some "123e4567-e89b-42d3-a456-426614174000")
  /\ match handleUserSession (P := Toy.crypto) request Toy.env "1" w with
     | (Ret session, w') =>
         access_token (session_user session)
         = "123e4567-e89b-42d3-a456-426614174000"
         /\ ~ mints_fresh w (access_token (session_user session)) w'
     | (Throw, _) => False
     end.
Proof.
  split.
  - change (credential (request_with_cookie "/" "123e4567-e89b-42d3-a456-426614174000"))
      with (Some "123e4567-e89b-42d3-a456-426614174000").
    apply NoRow; vm_compute; reflexivity.
  - vm_compute. split; [reflexivity|]. intros [H _]. discriminate H.
Qed.

(** C5 (the code departs from it). A request that presents a credential
    of UUID form for which no row is stored: the identity is
    unpersisted, yet the session keeps its store handle, and a charge
    runs the conditional update and reports "User balance too low"
    instead of "User is not signed up yet and cannot be charged", which
    is what the same charge reports once the handle is absent. *)
Lemma unpersisted_user_keeps_client :
  let request :=
    request_with_cookie "/" "123e4567-e89b-42d3-a456-426614174000" in
  let w := Toy.world ∅ [] in
  match handleUserSession (P := Toy.crypto) request Toy.env "1" w with
  | (Ret session, w') =>
      row_at w (home (P := Toy.crypto) Toy.env "1"
                  (access_token (session_user session)))
        (access_token (session_user session)) = None
      /\ session_client session <> None
      /\ fst (charge (session_client session) (session_user session) 1 false w')
         = Ret balance_too_low
      /\ fst (charge None (session_user session) 1 false w')
         = Ret not_signed_up
  | (Throw, _) => False
  end.
Proof.
  vm_compute. repeat split. discriminate.
Qed.

(** ** Charging *)
Section ChargeFacts.

Context {P : WebCrypto}.
Import Sqlite SqliteFacts WorldFacts.




End ChargeFacts.


(** Case analysis on the [decide] the goal branches on. *)
Ltac by_decide :=
  match goal with
  | |- context [decide ?X] => destruct (decide X)
  end.

(** ** The resolved session *)
Section ResolvedFacts.

Context {P : WebCrypto}.
Import Sqlite SqliteFacts WorldFacts.

Lemma effective_row_at env version w tok r :
  effective_row w env version tok = Some r ->
  let t := candidate w env version tok in
  row_at w (home env version t) t = Some r.
Proof.
  unfold effective_row. cbv zeta.
  destruct (row_at w (home env version tok) tok) as [r0|] eqn:E0; [|discriminate].
  destruct (String.eqb (candidate w env version tok) tok) eqn:Ec.
  - apply String.eqb_eq in Ec. rewrite Ec. now intros [= <-].
  - auto.
Qed.

Lemma effective_row_token env version w tok r :
  effective_row w env version tok = Some r ->
  row_access_token r = candidate w env version tok.
Proof.
  intros H. apply effective_row_at in H. now apply first_row_token in H.
Qed.

Lemma set_client_reference_id_same cri r :
  row_client_reference_id r = Some cri -> set_client_reference_id cri r = r.
Proof. destruct r. cbn. now intros ->. Qed.

Lemma refresh_no_fault env version t r w :
  faults w = [] ->
  let c := createClient version
             (getDOName (getClientReferenceId t (DB_SECRET env))) in
  let cri := encryptToken t (DB_SECRET env) in
  exists w',
    faults w' = [] /\ uuids w' = uuids w /\ uuid_next w' = uuid_next w
    /\ refresh_client_reference_id env c t (Some (user_of_row r)) w
       = (Ret (mkLocals (Some t)
                 (Some (user_of_row (set_client_reference_id cri r)))
                 (Some c)), w')
    /\ if decide (row_client_reference_id r = Some cri)
       then same_store w w'
       else rewritten env version t w w'.
Proof.
  intros Hf c cri. unfold refresh_client_reference_id. fold cri.
  destruct (decide (row_client_reference_id r = Some cri)) as [Heq|Hne].
  - exists w. repeat split; auto using same_store_refl.
    cbn [client_reference_id user_of_row]. rewrite Heq. cbn [of_sql strict_ne].
    rewrite String.eqb_refl. cbn [negb].
    now rewrite (set_client_reference_id_same _ _ Heq).
  - assert (Hs : strict_ne (client_reference_id (user_of_row r)) cri = true).
    { cbn [client_reference_id user_of_row].
      destruct (row_client_reference_id r) as [x|]; [|reflexivity]. cbn.
      apply negb_true_iff, String.eqb_neq. intros E. apply Hne. now rewrite E. }
    rewrite Hs.
    pose proof (exec_no_fault c (UpdateClientReferenceId cri t) w Hf
                  (user_client_mirror _ _)) as He.
    cbn [run updated] in He. destruct He as (w' & He & Hf' & Hu & Hn & Hsh).
    exists w'. repeat split; auto.
    + unfold bind. rewrite He. reflexivity.
    + intros n. rewrite Hsh. fold (home env version t).
      change (main c) with (home env version t).
      change (mirror c) with (Some (aggregate version)).
      unfold apply_sql. cbn [run updated].
      destruct (String.eqb (home env version t) n) eqn:E.
      * apply String.eqb_eq in E. subst n.
        destruct (decide _) as [_|Hx]; [reflexivity|]. exfalso; auto.
      * apply String.eqb_neq in E.
        destruct (decide (Some (aggregate version) = Some n)) as [[= <-]|Hn'].
        -- destruct (decide _) as [_|Hx]; [reflexivity|]. exfalso; auto.
        -- destruct (decide _) as [[?|?]|_]; [congruence|congruence|reflexivity].
Qed.

Lemma find_user_resolved env version w tok r :
  faults w = [] ->
  effective_row w env version tok = Some r ->
  let t := candidate w env version tok in
  let c := createClient version
             (getDOName (getClientReferenceId t (DB_SECRET env))) in
  let cri := encryptToken t (DB_SECRET env) in
  exists w',
    faults w' = [] /\ uuids w' = uuids w /\ uuid_next w' = uuid_next w
    /\ find_user env version tok w
       = (Ret (mkLocals (Some t)
                 (Some (user_of_row (set_client_reference_id cri r)))
                 (Some c)), w')
    /\ if decide (row_client_reference_id r = Some cri)
       then same_store w w'
       else rewritten env version t w w'.
Proof.
  intros Hf Heff t c cri.
  pose proof (effective_row_at _ _ _ _ _ Heff) as Hat. cbv zeta in Hat. fold t in Hat.
  unfold effective_row in Heff. fold t in Heff.
  unfold find_user.
  set (c0 := createClient version
               (getDOName (getClientReferenceId tok (DB_SECRET env)))).
  destruct (exec_select c0 tok w) as (w1 & E1 & S1 & F1 & U1 & N1).
  unfold try_catch at 1. unfold bind at 1. rewrite E1.
  unfold next_fault. rewrite Hf. cbn [throws].
  change (main c0) with (home env version tok).
  assert (Hf1 : faults w1 = []) by (rewrite F1, Hf; reflexivity).
  destruct (row_at w (home env version tok) tok) as [r0|] eqn:E0; [|discriminate].
  cbn [one option_map].
  (* the tail of the lookup, once the effective credential is known *)
  assert (Htail : forall w2,
    faults w2 = [] -> same_store w w2 ->
    uuids w2 = uuids w -> uuid_next w2 = uuid_next w ->
    exists w',
      faults w' = [] /\ uuids w' = uuids w /\ uuid_next w' = uuid_next w
      /\ refresh_client_reference_id env c t (Some (user_of_row r)) w2
         = (Ret (mkLocals (Some t)
                   (Some (user_of_row (set_client_reference_id cri r)))
                   (Some c)), w')
      /\ if decide (row_client_reference_id r = Some cri)
         then same_store w w'
         else rewritten env version t w w').
  { intros w2 Hf2 S2 U2 N2.
    destruct (refresh_no_fault env version t r w2 Hf2) as (w' & A & B & C & D & E).
    exists w'. split; [assumption|]. split; [congruence|]. split; [congruence|].
    split; [exact D|].
    fold c cri in E. by_decide.
    - eapply same_store_trans; eassumption.
    - intros m. rewrite E, S2. reflexivity. }
  assert (Hcand : t = match row_verified_user_access_token r0 with
                      | Some p => if nonempty p then p else tok
                      | None => tok
                      end).
  { unfold t, candidate. now rewrite E0. }
  change (verified_user_access_token (user_of_row r0))
    with (of_sql (row_verified_user_access_token r0)).
  destruct (row_verified_user_access_token r0) as [p|] eqn:Ep; cbn [of_sql].
  2:{ (* no pointer *)
      rewrite Hcand, String.eqb_refl in Heff. injection Heff as ->.
      destruct (Htail w1 Hf1 S1 U1 N1) as (w' & A & B & C & D & E).
      exists w'. repeat (split; [assumption|]). split; [|exact E].
      subst c cri. rewrite Hcand in D |- *. subst c0. now rewrite D. }
  destruct (nonempty p) eqn:Hp.
  2:{ (* empty pointer *)
      rewrite Hcand, String.eqb_refl in Heff. injection Heff as ->.
      destruct (Htail w1 Hf1 S1 U1 N1) as (w' & A & B & C & D & E).
      exists w'. repeat (split; [assumption|]). split; [|exact E].
      subst c cri. rewrite Hcand in D |- *. subst c0. now rewrite D. }
  (* forwarding pointer *)
  set (c2 := createClient version
               (getDOName (getClientReferenceId p (DB_SECRET env)))).
  destruct (exec_select c2 p w1) as (w2 & E2 & S2 & F2 & U2 & N2).
  unfold try_catch at 1. unfold bind at 1. rewrite E2.
  unfold next_fault. rewrite Hf1. cbn [throws].
  change (main c2) with (home env version p).
  rewrite (row_at_same_store _ _ _ _ S1).
  assert (Hf2 : faults w2 = []) by (rewrite F2, Hf1; reflexivity).
  assert (Hrp : row_at w (home env version p) p = Some r).
  { rewrite <- Hcand. exact Hat. }
  rewrite Hrp. cbn [one option_map].
  destruct (Htail w2 Hf2 (same_store_trans _ _ _ S1 S2)
              ltac:(congruence) ltac:(congruence)) as (w' & A & B & C & D & E).
  exists w'. repeat (split; [assumption|]). split; [|exact E].
  subst c cri. rewrite Hcand in D |- *. subst c2. now rewrite D.
Qed.

End ResolvedFacts.

(** ** Rewriting a stale public identifier *)

Section SelfHeal.

Context {P : WebCrypto}.
Import Sqlite SqliteFacts WorldFacts.

Lemma session_resolved request env version w tok r :
  faults w = [] ->
  credential request = Some tok ->
  nonempty tok = true ->
  effective_row w env version tok = Some r ->
  let t := candidate w env version tok in
  let c := createClient version
             (getDOName (getClientReferenceId t (DB_SECRET env))) in
  let cri := encryptToken t (DB_SECRET env) in
  exists w',
    faults w' = [] /\ uuids w' = uuids w /\ uuid_next w' = uuid_next w
    /\ handleUserSession request env version w
       = (Ret (mkSession (user_of_row (set_client_reference_id cri r))
                 (Some c)
                 [("Set-Cookie", set_cookie env (hostname request) t)]), w')
    /\ if decide (row_client_reference_id r = Some cri)
       then same_store w w'
       else rewritten env version t w w'.
Proof.
  intros Hf Hc Hn Heff t c cri.
  destruct (find_user_resolved env version w tok r Hf Heff)
    as (w' & A & B & C & D & E).
  exists w'. repeat (split; [assumption|]). split; [|exact E].
  unfold handleUserSession. rewrite Hc, Hn.
  unfold bind at 1. rewrite D. cbn [found_user found_client].
  unfold bind, ret. cbn [access_token user_of_row set_client_reference_id row_access_token].
  rewrite (effective_row_token _ _ _ _ _ Heff). reflexivity.
Qed.

(** C8. When session resolution finds an effective user row whose
    stored [client_reference_id] is not the current encoding of its
    [access_token], it rewrites [client_reference_id] to the current
    codec output. No other field of the row changes ([access_token]
    and [balance] in particular), no row of another credential
    changes, and no Durable Object other than the one of the effective
    credential and the aggregate mirror is touched. When the stored
    value already matches, no table changes at all. *)
Theorem stale_client_reference_id_rewritten
    (request : Request) (env : Env) (version : string) (w : World)
    (tok : string) (r : Row) :
  faults w = [] ->
  credential request = Some tok ->
  nonempty tok = true ->
  effective_row w env version tok = Some r ->
  let t := candidate w env version tok in
  let cri := encryptToken t (DB_SECRET env) in
  exists session w',
    handleUserSession request env version w = (Ret session, w')
    /\ if decide (row_client_reference_id r = Some cri)
       then same_store w w' /\ session_user session = user_of_row r
       else
         exists r',
           row_at w' (home env version t) t = Some r'
           /\ session_user session = user_of_row r'
           /\ row_client_reference_id r' = Some cri
           /\ row_access_token r' = row_access_token r
           /\ row_balance r' = row_balance r
           /\ row_name r' = row_name r
           /\ row_email r' = row_email r
           /\ row_verified_email r' = row_verified_email r
           /\ row_verified_user_access_token r'
              = row_verified_user_access_token r
           /\ row_card_fingerprint r' = row_card_fingerprint r
           /\ (forall n k, k <> t -> row_at w' n k = row_at w n k)
           /\ (forall n, n <> home env version t -> n <> aggregate version ->
                         shard w' n = shard w n).
Proof.
  intros Hf Hc Hn Heff t cri.
  destruct (session_resolved request env version w tok r Hf Hc Hn Heff)
    as (w' & _ & _ & _ & D & E).
  fold t cri in D, E.
  eexists _, w'. split; [exact D|]. cbn [session_user].
  destruct (decide (row_client_reference_id r = Some cri)) as [Heq|Hne].
  - split; [assumption|]. now rewrite (set_client_reference_id_same _ _ Heq).
  - exists (set_client_reference_id cri r).
    pose proof (effective_row_at _ _ _ _ _ Heff) as Hat. cbv zeta in Hat.
    fold t in Hat.
    assert (Hrow : forall n k,
      row_at w' n k =
      if decide (n = home env version t \/ n = aggregate version)
      then option_map (fun x => if has_token t x
                                then set_client_reference_id cri x else x)
             (row_at w n k)
      else row_at w n k).
    { intros n k. unfold row_at. rewrite (E n).
      destruct (decide _); [|reflexivity].
      now rewrite first_row_update. }
    split.
    { rewrite Hrow. destruct (decide _) as [_|Hx]; [|exfalso; auto].
      rewrite Hat. cbn. apply first_row_token in Hat.
      apply has_token_eq in Hat. now rewrite Hat. }
    repeat (split; [reflexivity|]). split.
    + intros n k Hk. rewrite Hrow. destruct (decide _); [|reflexivity].
      destruct (row_at w n k) as [x|] eqn:Ex; [|reflexivity]. cbn.
      apply first_row_token in Ex.
      replace (has_token t x) with false; [reflexivity|].
      symmetry. apply String.eqb_neq. congruence.
    + intros n H1 H2. rewrite (E n).
      destruct (decide _) as [[?|?]|_]; [contradiction|contradiction|reflexivity].
Qed.

End SelfHeal.

Lemma stale_client_reference_id_rewritten_witness :
  let request := request_with_cookie "/" Scenario.T1 in
  let w := Toy.world Scenario.stale [] in
  let t := candidate (P := Toy.crypto) w Toy.env "1" Scenario.T1 in
  let cri := encryptToken (P := Toy.crypto) t (DB_SECRET Toy.env) in
  exists session w',
    handleUserSession (P := Toy.crypto) request Toy.env "1" w
    = (Ret session, w')
    /\ if decide (row_client_reference_id Scenario.stale_row1 = Some cri)
       then same_store w w'
            /\ session_user session = user_of_row Scenario.stale_row1
       else
         exists r',
           row_at w' (home (P := Toy.crypto) Toy.env "1" t) t = Some r'
           /\ session_user session = user_of_row r'
           /\ row_client_reference_id r' = Some cri
           /\ row_access_token r' = row_access_token Scenario.stale_row1
           /\ row_balance r' = row_balance Scenario.stale_row1
           /\ row_name r' = row_name Scenario.stale_row1
           /\ row_email r' = row_email Scenario.stale_row1
           /\ row_verified_email r' = row_verified_email Scenario.stale_row1
           /\ row_verified_user_access_token r'
              = row_verified_user_access_token Scenario.stale_row1
           /\ row_card_fingerprint r'
              = row_card_fingerprint Scenario.stale_row1
           /\ (forall n k, k <> t -> row_at w' n k = row_at w n k)
           /\ (forall n,
                  n <> home (P := Toy.crypto) Toy.env "1" t ->
                  n <> aggregate "1" -> shard w' n = shard w n).
Proof.
  apply (stale_client_reference_id_rewritten (P := Toy.crypto)
           (request_with_cookie "/" Scenario.T1) Toy.env "1"
           (Toy.world Scenario.stale []) Scenario.T1 Scenario.stale_row1).
  - reflexivity.
  - vm_compute. reflexivity.
  - reflexivity.
  - vm_compute. reflexivity.
Defined.

(** ** The [/me] endpoint *)
Section MeFacts.

Context {P : WebCrypto} {X : Collaborators}.

Lemma publicUser_eq u :
  publicUser u
  = ("balance", JNumber (balance u))
    :: property "name" (name u)
    ++ property "email" (email u)
    ++ property "verified_email" (verified_email u)
    ++ property "card_fingerprint" (card_fingerprint u).
Proof.
  unfold publicUser, properties.
  destruct (name u), (email u), (verified_email u),
    (verified_user_access_token u), (card_fingerprint u),
    (client_reference_id u); reflexivity.
Qed.

Lemma keys_property k v (allowed : list string) :
  In k allowed -> incl (keys (property k v)) allowed.
Proof.
  intros Hk x. destruct v; cbn; [intros []|intros [<-|[]]..]; exact Hk.
Qed.

Lemma keys_me_object u paymentLink registered :
  incl (keys (me_object u paymentLink registered))
       ["balance"; "name"; "email"; "verified_email"; "card_fingerprint";
        "client_reference_id"; "paymentLink"; "registered"].
Proof.
  unfold me_object. rewrite publicUser_eq. unfold keys.
  change (map fst ((?a :: ?l) ++ ?r)) with (fst a :: map fst (l ++ r)).
  apply incl_cons; [cbn; auto|].
  rewrite !map_app, <- !app_assoc.
  repeat (apply incl_app; [apply keys_property; cbn; auto 10|]).
  apply incl_app.
  - destruct paymentLink; unfold incl; cbn;
      [intros x [<-|[]]; auto 10|intros x []].
  - unfold incl. cbn. intros x [<-|[]]. auto 10.
Qed.

Lemma me_object_same_public u u' env :
  same_public u u' ->
  me_object u (payment_link env u) (truthy (email u))
  = me_object u' (payment_link env u') (truthy (email u')).
Proof.
  intros (H1 & H2 & H3 & H4 & H5 & H6).
  unfold me_object, payment_link. rewrite !publicUser_eq.
  now rewrite H1, H2, H3, H4, H5, H6.
Qed.

(** C10. The JSON body of [/me] carries neither the [access_token] nor
    the [verified_user_access_token] of the resolved user: the object
    it serialises has no property of either name, and it is the same
    object for any two users that agree on the public fields and on
    [client_reference_id] (from which [paymentLink] and [registered]
    follow). *)
Theorem me_hides_credentials (request : Request) (env : Env)
    (version : string) (w w' : World) (session : Session) :
  configured env ->
  pathname request = "/me" ->
  handleUserSession request env version w = (Ret session, w') ->
  exists o,
    stripeBalanceMiddleware request env version w
    = (Ret (MwResponse (mkResponse 200 (Json o) (session_headers session))), w')
    /\ ~ In "access_token" (keys o)
    /\ ~ In "verified_user_access_token" (keys o)
    /\ forall u',
         same_public (session_user session) u' ->
         o = me_object u' (payment_link env u') (truthy (email u')).
Proof.
  intros (C1 & C2 & C3 & C4 & C5) Hp Hs.
  exists (me_object (session_user session)
            (payment_link env (session_user session))
            (truthy (email (session_user session)))).
  split.
  - unfold stripeBalanceMiddleware. rewrite C1, C2, C3, C4, C5, Hp.
    cbn [negb orb]. cbn.
    unfold session_result, bind. rewrite Hs, Hp. reflexivity.
  - split; [|split].
    + intros H. apply keys_me_object in H. cbn in H.
      repeat (destruct H as [H|H]; [discriminate H|]). exact H.
    + intros H. apply keys_me_object in H. cbn in H.
      repeat (destruct H as [H|H]; [discriminate H|]). exact H.
    + intros u' Hu. now apply me_object_same_public.
Qed.

End MeFacts.

Lemma me_hides_credentials_witness :
  let request := request_with_cookie "/me" Scenario.T1 in
  let w := Toy.world Scenario.funded [] in
  let run := handleUserSession (P := Toy.crypto) request Toy.env "1" w in
  exists o,
    stripeBalanceMiddleware (P := Toy.crypto)
      (X := Toy.collaborators None None) request Toy.env "1" w
    = (Ret (MwResponse
              (mkResponse 200 (Json o)
                 (session_headers (returned no_session run)))), snd run)
    /\ ~ In "access_token" (keys o)
    /\ ~ In "verified_user_access_token" (keys o)
    /\ forall u',
         same_public (session_user (returned no_session run)) u' ->
         o = me_object u' (payment_link Toy.env u') (truthy (email u')).
Proof.
  apply (me_hides_credentials (P := Toy.crypto)
           (X := Toy.collaborators None None)
           (request_with_cookie "/me" Scenario.T1) Toy.env "1"
           (Toy.world Scenario.funded [])).
  - repeat split.
  - reflexivity.
  - vm_compute. reflexivity.
Defined.

(** ** The automatic charge of [withStripeflare] *)
Section WrapperFacts.

Context {P : WebCrypto} {X : Collaborators}.
Import Sqlite SqliteFacts WorldFacts.

Lemma refresh_client env version cri t u w l w' :
  refresh_client_reference_id env (createClient version (getDOName cri)) t u w
  = (Ret l, w') ->
  user_client version (found_client l).
Proof.
  unfold refresh_client_reference_id, bind, ret.
  destruct u as [u|].
  - destruct (strict_ne _ _).
    + destruct (exec _ _ w) as [[res|] w1]; [|discriminate].
      intros [= <- _] c' [= <-]. eauto.
    + intros [= <- _] c' [= <-]. eauto.
  - intros [= <- _] c' [= <-]. eauto.
Qed.

Lemma not_found_client version t w l w' :
  not_found t w = (Ret l, w') -> user_client version (found_client l).
Proof. intros [= <- _] c' [=]. Qed.

Lemma find_user_client env version tok w l w' :
  find_user env version tok w = (Ret l, w') ->
  user_client version (found_client l).
Proof.
  unfold find_user, try_catch, bind.
  destruct (exec _ _ w) as [[res|] w1]; [|apply not_found_client].
  destruct (option_map user_of_row (one res)) as [u|].
  2:{ destruct (refresh_client_reference_id _ _ _ _ w1) as [[l1|] w2] eqn:E.
      - intros [= <- <-]. eapply refresh_client, E.
      - apply not_found_client. }
  assert (Hplain :
    (let (r, w'0) := refresh_client_reference_id env
                       (createClient version
                          (getDOName (getClientReferenceId tok (DB_SECRET env))))
                       tok (Some u) w1 in
     match r with
     | Ret a => (Ret a, w'0)
     | Throw => not_found tok w'0
     end) = (Ret l, w') -> user_client version (found_client l)).
  { destruct (refresh_client_reference_id _ _ _ _ w1) as [[l1|] w2] eqn:E.
    - intros [= <- <-]. eapply refresh_client, E.
    - apply not_found_client. }
  destruct (verified_user_access_token u) as [| |p]; try exact Hplain.
  destruct (nonempty p); [|exact Hplain].
  destruct (exec _ _ w1) as [[res2|] w2].
  2:{ intros H. eapply not_found_client, H. }
  destruct (refresh_client_reference_id _ _ _ _ w2) as [[l1|] w3] eqn:E.
  - intros [= <- <-]. eapply refresh_client, E.
  - intros H. eapply not_found_client, H.
Qed.

Lemma session_client_shape request env version w s w' :
  handleUserSession request env version w = (Ret s, w') ->
  user_client version (session_client s).
Proof.
  unfold handleUserSession. unfold bind at 1.
  assert (Htail : forall l w1,
    user_client version (found_client l) ->
    (let! user :=
       match found_user l with
       | Some u => ret u
       | None =>
           let! accessToken :=
             match accessToken l with
             | Some tok =>
                 if nonempty tok && uuidGeneralRegex tok then ret tok
                 else randomUUID
             | None => randomUUID
             end in
           let client_reference_id := encryptToken accessToken (DB_SECRET env) in
           ret (new_user accessToken client_reference_id)
       end in
     let headers :=
       [("Set-Cookie", set_cookie env (hostname request) (access_token user))] in
     ret (mkSession user (found_client l) headers)) w1 = (Ret s, w') ->
    user_client version (session_client s)).
  { intros l w1 Hl. unfold bind, ret, randomUUID.
    destruct (found_user l); [now intros [= <- _]|].
    destruct (accessToken l) as [a|];
      [destruct (nonempty a && uuidGeneralRegex a)|]; now intros [= <- _]. }
  destruct (credential request) as [tok|].
  - destruct (nonempty tok).
    + destruct (find_user env version tok w) as [[l|] w1] eqn:E; [|discriminate].
      apply Htail. eapply find_user_client, E.
    + unfold ret at 1. apply Htail. intros c' [=].
  - unfold ret at 1. apply Htail. intros c' [=].
Qed.

(** A session result of the middleware carries the [charge] closure
    over its own client and user, and the client of a user shard. *)
Lemma middleware_session request env version w user headers client
    paymentLink registered ch w1 :
  stripeBalanceMiddleware request env version w
  = (Ret (MwSession user headers client paymentLink registered ch), w1) ->
  ch = charge client user /\ user_client version client.
Proof.
  assert (Hs : forall w0,
    session_result request env version w0
    = (Ret (MwSession user headers client paymentLink registered ch), w1) ->
    ch = charge client user /\ user_client version client).
  { intros w0. unfold session_result, bind.
    destruct (handleUserSession request env version w0) as [[s|] w2] eqn:E;
      [|discriminate].
    apply session_client_shape in E.
    destruct (String.eqb (pathname request) "/me"); [discriminate|].
    unfold ret. intros [= <- <- <- <- <- <- <-]. split; [reflexivity|exact E]. }
  unfold stripeBalanceMiddleware.
  destruct (_ || _); [discriminate|].
  destruct (String.eqb (pathname request) "/rotate-token").
  { unfold bind. destruct (handleTokenRotation _ _ _ w) as [[?|] ?]; discriminate. }
  destruct (String.eqb (pathname request) "/stripe-webhook").
  { unfold bind. destruct (handleStripeWebhook _ _ _ w) as [[?|] ?]; discriminate. }
  destruct (Str.startsWith (pathname request) "/db/"); [|apply Hs].
  unfold bind.
  match goal with
  | |- context [match ?m w with _ => _ end] =>
      destruct (m w) as [[secret|] w0]; [|discriminate]
  end.
  destruct (dorm_middleware _ _ _ _ _ w0) as [[[resp|]|] w2];
    [discriminate|apply Hs|discriminate].
Qed.


(** The session result of the middleware for a path that is none of
    its own endpoints. *)
Lemma middleware_session_of request env version w s w1 :
  configured env ->
  String.eqb (pathname request) "/rotate-token" = false ->
  String.eqb (pathname request) "/stripe-webhook" = false ->
  Str.startsWith (pathname request) "/db/" = false ->
  String.eqb (pathname request) "/me" = false ->
  handleUserSession request env version w = (Ret s, w1) ->
  stripeBalanceMiddleware request env version w
  = (Ret (MwSession (session_user s) (session_headers s) (session_client s)
            (payment_link env (session_user s))
            (truthy (email (session_user s)))
            (charge (session_client s) (session_user s))), w1).
Proof.
  intros (C1 & C2 & C3 & C4 & C5) H1 H2 H3 H4 Hs.
  unfold stripeBalanceMiddleware. rewrite C1, C2, C3, C4, C5, H1, H2, H3.
  cbn [negb orb]. unfold session_result, bind. now rewrite Hs, H4.
Qed.


End WrapperFacts.


(** ** The payment webhook *)
Section WebhookFacts.

Context {P : WebCrypto} {X : Collaborators}.
Import Sqlite SqliteFacts WorldFacts.

(** A delivered session reaches the checkout branch. *)
Lemma delivered_checkout request env version session w :
  delivers request env session ->
  handleStripeWebhook request env version w
  = checkout_completed env version session w.
Proof.
  intros (body & signature & event & Hb & Hs & He & Ht & Ho).
  unfold handleStripeWebhook. now rewrite Hb, Hs, He, Ht, Ho, String.eqb_refl.
Qed.

(** C6 (as amended). A payment event that is not paid, reports no
    amount or amount zero, lacks the public identifier or the payer
    email, or whose public identifier fails to decode, leaves the whole
    world as it was and no exception escapes: the reconciler answers
    with status 400, and with status 200 when the only failure is that
    the identifier does not decode. *)
Theorem discarded_event_changes_nothing
    (request : Request) (env : Env) (version : string)
    (session : CheckoutSession) (w : World) (st : Z) :
  delivers request env session ->
  Discarded env session st ->
  exists response,
    handleStripeWebhook request env version w = (Ret response, w)
    /\ status response = st
    /\ (st = 400 \/ st = 200).
Proof.
  intros Hd Hx. rewrite (delivered_checkout _ _ _ _ _ Hd).
  unfold checkout_completed.
  destruct Hx as [Hp|Hi|He|Hs|amount id email Hp Hi He Hs Hdec];
    unfold paid_amount, public_identifier, payer_email in *.
  - destruct (amount_total session) as [a|]; [|eexists; repeat split; auto].
    destruct (String.eqb (payment_status session) "paid");
      destruct (a =? 0); try discriminate; cbn;
      eexists; repeat split; auto.
  - destruct (amount_total session) as [a|]; [|eexists; repeat split; auto].
    destruct (negb _ || _); [eexists; repeat split; auto|].
    rewrite Hi. eexists; repeat split; auto.
  - destruct (amount_total session) as [a|]; [|eexists; repeat split; auto].
    destruct (negb _ || _); [eexists; repeat split; auto|].
    destruct (or_null (session_client_reference_id session));
      [|eexists; repeat split; auto].
    rewrite He. eexists; repeat split; auto.
  - destruct (amount_total session) as [a|]; [|eexists; repeat split; auto].
    destruct (negb _ || _); [eexists; repeat split; auto|].
    destruct (or_null (session_client_reference_id session));
      [|eexists; repeat split; auto].
    destruct (or_null _); [|eexists; repeat split; auto].
    rewrite Hs. eexists; repeat split; auto.
  - destruct (amount_total session) as [a|]; [|discriminate].
    destruct (String.eqb (payment_status session) "paid"); [|discriminate].
    destruct (a =? 0); [discriminate|]. cbn [negb orb andb].
    rewrite Hi, He, Hs, Hdec. cbn [negb].
    eexists; repeat split; auto.
Qed.

End WebhookFacts.

Lemma discarded_event_changes_nothing_witness :
  let event := checkout "paid" 500 "not-a-public-identifier" in
  exists response,
    handleStripeWebhook (P := Toy.crypto)
      (X := Toy.collaborators (Some event) None)
      webhook_request Toy.env "1" (Toy.world Scenario.funded [])
    = (Ret response, Toy.world Scenario.funded [])
    /\ status response = 200
    /\ (200 = 400 \/ 200 = 200).
Proof.
  apply (discarded_event_changes_nothing (P := Toy.crypto)
           (X := Toy.collaborators
                   (Some (checkout "paid" 500 "not-a-public-identifier")) None)
           webhook_request Toy.env "1"
           (event_object (checkout "paid" 500 "not-a-public-identifier"))).
  - exists "{}", "t=1,v1=signature",
      (checkout "paid" 500 "not-a-public-identifier").
    repeat split.
  - apply (NotDecodable _ _ 500 "not-a-public-identifier" "ada@example.com");
      reflexivity.
Defined.

(** C6 as first stated fails. An event with a negative amount is
    non-positive, yet it passes the guard [!session.amount_total] and
    the balance of its identity is written; and an event that is not
    paid is answered with status 400, not with a success status. *)
Lemma negative_amount_is_written :
  let w := Toy.world Scenario.funded [] in
  let negative := checkout "paid" (-5) (Scenario.id_of Scenario.T1) in
  let unpaid := checkout "unpaid" 500 (Scenario.id_of Scenario.T1) in
  match handleStripeWebhook (P := Toy.crypto)
          (X := Toy.collaborators (Some negative) None)
          webhook_request Toy.env "1" w with
  | (Ret response, w') =>
      amount_total (event_object negative) = Some (-5)
      /\ status response = 200
      /\ option_map row_balance
           (row_at w (Scenario.home_of Scenario.T1) Scenario.T1) = Some 500
      /\ option_map row_balance
           (row_at w' (Scenario.home_of Scenario.T1) Scenario.T1) = Some 495
  | (Throw, _) => False
  end
  /\ match handleStripeWebhook (P := Toy.crypto)
             (X := Toy.collaborators (Some unpaid) None)
             webhook_request Toy.env "1" w with
     | (Ret response, _) => status response = 400
     | (Throw, _) => False
     end.
Proof. vm_compute. repeat split. Qed.

(** ** Merging a payment into an alternate identity *)
Section MergeFacts.

Context {P : WebCrypto} {X : Collaborators}.
Import Sqlite SqliteFacts WorldFacts.

(** A statement that reads, through a client without mirror. *)
Lemma exec_read c q w res :
  faults w = [] ->
  mirror c = None ->
  run q (shard w (main c)) = Some (shard w (main c), res) ->
  exists w',
    exec c q w = (Ret res, w')
    /\ faults w' = [] /\ uuids w' = uuids w /\ uuid_next w' = uuid_next w
    /\ same_store w w'.
Proof.
  intros Hf Hm Hr.
  assert (Hne : mirror c <> Some (main c)) by (rewrite Hm; discriminate).
  pose proof (exec_no_fault c q w Hf Hne) as He. rewrite Hr in He.
  destruct He as (w' & He & A & B & C & D).
  exists w'. repeat (split; [assumption|]).
  intros n. rewrite D, Hm.
  destruct (String.eqb (main c) n) eqn:E.
  - apply String.eqb_eq in E. now subst.
  - destruct (decide _); [discriminate|reflexivity].
Qed.

Lemma first_row_key_exists k t r :
  In r t -> row_access_token r = k ->
  exists r', first_row (has_token k) t = Some r'.
Proof.
  intros Hin Hk.
  destruct (first_row (has_token k) t) as [r'|] eqn:E; [eauto|].
  rewrite first_row_none in E. specialize (E r Hin).
  apply has_token_eq in Hk. congruence.
Qed.

(** An alternate identity has a row in the view. *)
Lemma alternate_identity_row view details email A :
  alternate_identity view details email = Some A ->
  nonempty A = true /\ exists rA, first_row (has_token A) view = Some rA.
Proof.
  unfold alternate_identity. cbv zeta.
  set (by_email := match or_null (proven_email details email) with
                   | Some e => first_row (col_is row_verified_email e) view
                   | None => None end).
  set (by_card := match or_null (details ≫= card_fingerprint_of) with
                  | Some f => first_row (col_is row_card_fingerprint f) view
                  | None => None end).
  assert (He : forall r, by_email = Some r -> In r view).
  { intros r. unfold by_email.
    destruct (or_null (proven_email details email)); [|intros [=]].
    intros H. now apply first_row_some in H. }
  assert (Hc : forall r, by_card = Some r -> In r view).
  { intros r. unfold by_card.
    destruct (or_null (details ≫= card_fingerprint_of)); [|intros [=]].
    intros H. now apply first_row_some in H. }
  unfold or_null, or_else.
  destruct by_email as [r1|]; cbn [option_map].
  - destruct (nonempty (row_access_token r1)) eqn:E1.
    + rewrite E1. intros [= <-]. split; [assumption|].
      eapply first_row_key_exists; [apply He|]; reflexivity.
    + destruct by_card as [r2|]; cbn [option_map]; [|discriminate].
      destruct (nonempty (row_access_token r2)) eqn:E2; [|discriminate].
      intros [= <-]. split; [assumption|].
      eapply first_row_key_exists; [apply Hc|]; reflexivity.
  - destruct by_card as [r2|]; cbn [option_map]; [|discriminate].
    destruct (nonempty (row_access_token r2)) eqn:E2; [|discriminate].
    intros [= <-]. split; [assumption|].
    eapply first_row_key_exists; [apply Hc|]; reflexivity.
Qed.


(** An [INSERT] of row [r] through the client of a user shard. *)
Lemma exec_insert_no_fault version cri q r w :
  faults w = [] ->
  (forall t, run q t = inserted r t) ->
  row_at w (event_shard version cri) (row_access_token r) = None ->
  exists w',
    exec (createClient version (getDOName cri)) q w
    = (Ret (mkResult None 1), w')
    /\ faults w' = [] /\ uuids w' = uuids w /\ uuid_next w' = uuid_next w
    /\ forall n k,
         row_at w' n k =
         if decide (n = event_shard version cri
                    \/ (n = aggregate version
                        /\ row_at w (aggregate version) (row_access_token r)
                           = None))
         then (if String.eqb (row_access_token r) k then Some r
               else row_at w n k)
         else row_at w n k.
Proof.
  intros Hf Hq Hfree.
  set (c := createClient version (getDOName cri)).
  pose proof (exec_no_fault c q w Hf (user_client_mirror _ _)) as He.
  rewrite Hq in He. unfold inserted in He.
  change (main c) with (event_shard version cri) in He.
  destruct (insert_row r (shard w (event_shard version cri))) as [t'|] eqn:Ei.
  2:{ unfold insert_row in Ei. unfold row_at in Hfree.
      rewrite Hfree in Ei. discriminate. }
  destruct He as (w' & He & A & B & C & D).
  exists w'. repeat (split; [assumption|]).
  intros n k. unfold row_at at 1. rewrite D.
  change (mirror c) with (Some (aggregate version)).
  destruct (String.eqb (event_shard version cri) n) eqn:En.
  - apply String.eqb_eq in En. subst n.
    destruct (decide _) as [_|Hx]; [|exfalso; auto].
    apply (first_row_insert k _ _ _ Ei).
  - apply String.eqb_neq in En.
    destruct (decide (Some (aggregate version) = Some n)) as [[= <-]|Hn].
    + unfold apply_sql. rewrite Hq. unfold inserted.
      destruct (insert_row r (shard w (aggregate version))) as [t2|] eqn:E2.
      * assert (Hnone : row_at w (aggregate version) (row_access_token r) = None).
        { unfold insert_row in E2. unfold row_at.
          now destruct (first_row _ _). }
        destruct (decide _) as [_|Hx]; [|exfalso; auto].
        apply (first_row_insert k _ _ _ E2).
      * assert (Hsome : row_at w (aggregate version) (row_access_token r) <> None).
        { unfold insert_row in E2. unfold row_at.
          now destruct (first_row _ _). }
        destruct (decide _) as [[?|[_ ?]]|_]; [congruence|contradiction|reflexivity].
    + destruct (decide _) as [[?|[? _]]|_]; [congruence|congruence|reflexivity].
Qed.

(** An [UPDATE] that keeps keys, through the client of a user shard. *)
Lemma exec_update_no_fault version cri q p f w :
  faults w = [] ->
  (forall t, run q t = updated p f t) ->
  (forall x, row_access_token (f x) = row_access_token x) ->
  exists w',
    exec (createClient version (getDOName cri)) q w
    = (Ret (mkResult None (count_rows p (shard w (event_shard version cri)))), w')
    /\ faults w' = [] /\ uuids w' = uuids w /\ uuid_next w' = uuid_next w
    /\ forall n k,
         row_at w' n k =
         if decide (n = event_shard version cri \/ n = aggregate version)
         then option_map (fun x => if p x then f x else x) (row_at w n k)
         else row_at w n k.
Proof.
  intros Hf Hq Hkey.
  set (c := createClient version (getDOName cri)).
  pose proof (exec_no_fault c q w Hf (user_client_mirror _ _)) as He.
  rewrite Hq in He. unfold updated in He.
  change (main c) with (event_shard version cri) in He.
  destruct He as (w' & He & A & B & C & D).
  exists w'. repeat (split; [assumption|]).
  intros n k. unfold row_at at 1. rewrite D.
  change (mirror c) with (Some (aggregate version)).
  destruct (String.eqb (event_shard version cri) n) eqn:En.
  - apply String.eqb_eq in En. subst n.
    destruct (decide _) as [_|Hx]; [|exfalso; auto].
    now apply first_row_update.
  - apply String.eqb_neq in En.
    destruct (decide (Some (aggregate version) = Some n)) as [[= <-]|Hn].
    + unfold apply_sql. rewrite Hq. unfold updated.
      destruct (decide _) as [_|Hx]; [|exfalso; auto].
      now apply first_row_update.
    + destruct (decide _) as [[?|?]|_]; [congruence|congruence|reflexivity].
Qed.

(** A [DELETE] by key through the client of a user shard. *)
Lemma exec_delete_no_fault version cri tok w :
  faults w = [] ->
  exists w' res,
    exec (createClient version (getDOName cri)) (DeleteByAccessToken tok) w
    = (Ret res, w')
    /\ faults w' = [] /\ uuids w' = uuids w /\ uuid_next w' = uuid_next w
    /\ forall n k,
         row_at w' n k =
         if decide (n = event_shard version cri \/ n = aggregate version)
         then (if String.eqb tok k then None else row_at w n k)
         else row_at w n k.
Proof.
  intros Hf.
  set (c := createClient version (getDOName cri)).
  pose proof (exec_no_fault c (DeleteByAccessToken tok) w Hf
                (user_client_mirror _ _)) as He.
  cbn [run] in He. change (main c) with (event_shard version cri) in He.
  destruct He as (w' & He & A & B & C & D).
  exists w'. eexists. split; [exact He|]. repeat (split; [assumption|]).
  intros n k. unfold row_at at 1. rewrite D.
  change (mirror c) with (Some (aggregate version)).
  destruct (String.eqb (event_shard version cri) n) eqn:En.
  - apply String.eqb_eq in En. subst n.
    destruct (decide _) as [_|Hx]; [|exfalso; auto].
    apply first_row_delete.
  - apply String.eqb_neq in En.
    destruct (decide (Some (aggregate version) = Some n)) as [[= <-]|Hn].
    + unfold apply_sql. cbn [run].
      destruct (decide _) as [_|Hx]; [|exfalso; auto].
      apply first_row_delete.
    + destruct (decide _) as [[?|?]|_]; [congruence|congruence|reflexivity].
Qed.


Lemma paid_amount_inv session amount :
  paid_amount session = Some amount ->
  amount_total session = Some amount
  /\ negb (String.eqb (payment_status session) "paid") || (amount =? 0) = false.
Proof.
  unfold paid_amount. destruct (amount_total session) as [a|]; [|discriminate].
  destruct (String.eqb (payment_status session) "paid"); [|discriminate].
  destruct (a =? 0) eqn:E; [discriminate|]. cbn. intros [= <-]. now rewrite E.
Qed.

(** The two lookups for an alternate identity. *)
Lemma lookup_no_fault version (sel : option string) (q : string -> Sql)
    (col : Row -> option string) w :
  faults w = [] ->
  (forall v t, run (q v) t = Some (t, mkResult (first_row (col_is col v) t) 0)) ->
  exists w',
    (match sel with
     | Some v =>
         let! r := exec (createAggregateClient version) (q v) in ret (one r)
     | None => ret None
     end) w
    = (Ret (match sel with
            | Some v => first_row (col_is col v) (shard w (aggregate version))
            | None => None
            end), w')
    /\ faults w' = [] /\ uuids w' = uuids w /\ uuid_next w' = uuid_next w
    /\ same_store w w'.
Proof.
  intros Hf Hq. destruct sel as [v|].
  - destruct (exec_read (createAggregateClient version) (q v) w _ Hf eq_refl
                (Hq v _)) as (w' & E & A & B & C & D).
    exists w'. unfold bind. rewrite E. repeat split; assumption.
  - exists w. repeat split; auto using same_store_refl.
Qed.

(** C3. A completed payment event whose decoded [access_token] has no
    row, while the payment method details Stripe returns for it match
    an alternate identity [A] in the aggregate view (by the email a
    link payment proves, else by the card fingerprint): the reconciler
    inserts for the event's [access_token] a row that holds only the
    forwarding pointer to [A] (balance 0, no email); and the row of
    [A], in the aggregate and in [A]'s own Durable Object, has
    afterwards the old balance plus the amount, the payer's email and
    name, and every other column as it was. No other row changes. *)
Theorem payment_merges_into_alternate_identity
    (request : Request) (env : Env) (version : string)
    (session : CheckoutSession) (w : World)
    (amount : Z) (id email tok A : string)
    (details : option PaymentMethodDetails) :
  faults w = [] ->
  delivers request env session ->
  accepted env session amount id email tok ->
  row_at w (aggregate version) tok = None ->
  row_at w (event_shard version id) tok = None ->
  retrieve_payment_method_details (STRIPE_SECRET env) session = Some details ->
  alternate_identity (shard w (aggregate version)) details email = Some A ->
  exists w' rA rA',
    row_at w (aggregate version) A = Some rA
    /\ handleStripeWebhook request env version w = (Ret processed, w')
    /\ row_at w' (event_shard version id) tok = Some (pointer_row tok A)
    /\ row_at w' (aggregate version) tok = Some (pointer_row tok A)
    /\ row_at w' (aggregate version) A = Some rA'
    /\ credited amount email (payer_name session) rA rA'
    /\ match row_at w (home env version A) A with
       | Some rH =>
           exists rH',
             row_at w' (home env version A) A = Some rH'
             /\ credited amount email (payer_name session) rH rH'
       | None => row_at w' (home env version A) A = None
       end
    /\ forall n k, k <> tok -> k <> A -> row_at w' n k = row_at w n k.
Proof.
  intros Hf Hd (Hp & Hi & He & Hs & Hdec) Hnone Hfree Hret Halt.
  destruct (alternate_identity_row _ _ _ _ Halt) as [HA [rA HrA]].
  assert (HAtok : A <> tok).
  { intros ->. unfold row_at in Hnone. congruence. }
  rewrite (delivered_checkout _ _ _ _ _ Hd). unfold checkout_completed.
  destruct (paid_amount_inv _ _ Hp) as [Ha Hguard]. rewrite Ha, Hguard.
  unfold public_identifier, payer_email in Hi, He. rewrite Hi, He, Hs.
  cbn [negb]. rewrite Hdec.
  (* the row of the decoded credential is looked up in the aggregate *)
  destruct (exec_read (createAggregateClient version) (SelectByAccessToken tok)
              w _ Hf eq_refl eq_refl) as (w1 & E1 & F1 & U1 & N1 & S1).
  unfold bind at 1. rewrite E1. cbn [one].
  change (first_row (has_token tok)
            (shard w (main (createAggregateClient version))))
    with (row_at w (aggregate version) tok).
  rewrite Hnone.
  (* the two lookups for an alternate identity *)
  rewrite Hret.
  change (match details with
          | Some d => if String.eqb (payment_method_type d) "link"
                      then Some email else None
          | None => None
          end) with (proven_email details email).
  destruct (lookup_no_fault version (or_null (proven_email details email))
              SelectByVerifiedEmail row_verified_email w1 F1
              ltac:(reflexivity)) as (w2 & E2 & F2 & U2 & N2 & S2).
  unfold bind at 1. rewrite E2.
  destruct (lookup_no_fault version (or_null (details ≫= card_fingerprint_of))
              SelectByCardFingerprint row_card_fingerprint w2 F2
              ltac:(reflexivity)) as (w3 & E3 & F3 & U3 & N3 & S3).
  unfold bind at 1. rewrite E3.
  rewrite (S2 (aggregate version)), (S1 (aggregate version)).
  unfold alternate_identity in Halt. cbv zeta in Halt. rewrite Halt.
  replace (String.eqb A tok) with false
    by (symmetry; now apply String.eqb_neq).
  cbn [negb].
  (* the pointer row, then the credit *)
  assert (S03 : same_store w w3)
    by (eapply same_store_trans; [|eassumption];
        eapply same_store_trans; eassumption).
  assert (Hfree3 : row_at w3 (event_shard version id)
                     (row_access_token (pointer_row tok A)) = None)
    by (rewrite (row_at_same_store _ _ _ _ S03); exact Hfree).
  destruct (exec_insert_no_fault version id (InsertPointer tok A)
              (pointer_row tok A) w3 F3 (fun t => eq_refl) Hfree3)
    as (w4 & E4 & F4 & U4 & N4 & R4).
  unfold bind at 1. rewrite E4.
  destruct (exec_update_no_fault version
              (getClientReferenceId A (DB_SECRET env))
              (UpdateCredit amount (Some email) (payer_name session) A)
              (has_token A)
              (credit_row amount (Some email) (payer_name session))
              w4 F4 (fun t => eq_refl) (fun x => eq_refl))
    as (w5 & E5 & _ & _ & _ & R5).
  unfold bind at 1.
  change (or_null (customer_details session ≫= customer_name))
    with (payer_name session).
  rewrite E5. unfold ret.
  change (event_shard version (getClientReferenceId A (DB_SECRET env)))
    with (home env version A) in R5.
  cbn [row_access_token pointer_row] in R4.
  assert (R3 : forall n k, row_at w3 n k = row_at w n k)
    by (intros n k; apply row_at_same_store, S03).
  assert (Hagg3 : row_at w3 (aggregate version) tok = None)
    by (rewrite R3; exact Hnone).
  (* the row of [tok] after both statements *)
  assert (Hptr : forall n,
    n = event_shard version id \/ n = aggregate version ->
    row_at w5 n tok = Some (pointer_row tok A)).
  { intros n Hn.
    assert (H4 : row_at w4 n tok = Some (pointer_row tok A)).
    { rewrite R4. destruct (decide _) as [_|Hx].
      - now rewrite String.eqb_refl.
      - exfalso. apply Hx. destruct Hn; auto. }
    rewrite R5, H4. destruct (decide _); [|reflexivity].
    cbn [option_map]. unfold has_token. cbn [row_access_token pointer_row].
    replace (String.eqb tok A) with false; [reflexivity|].
    symmetry. apply String.eqb_neq. congruence. }
  (* the row of [A] after both statements *)
  assert (HA4 : forall n, row_at w4 n A = row_at w n A).
  { intros n. rewrite R4, R3.
    replace (String.eqb tok A) with false
      by (symmetry; apply String.eqb_neq; congruence).
    now destruct (decide _). }
  assert (Hcredit : forall n,
    n = home env version A \/ n = aggregate version ->
    row_at w5 n A
    = option_map (credit_row amount (Some email) (payer_name session))
        (row_at w n A)).
  { intros n Hn. rewrite R5, HA4.
    destruct (decide _) as [_|Hx]; [|contradiction].
    destruct (row_at w n A) as [x|] eqn:Ex; [|reflexivity]. cbn.
    apply first_row_token, has_token_eq in Ex. now rewrite Ex. }
  exists w5, rA, (credit_row amount (Some email) (payer_name session) rA).
  split; [exact HrA|]. split; [reflexivity|].
  split; [apply Hptr; auto|]. split; [apply Hptr; auto|].
  split; [rewrite Hcredit by auto; unfold row_at; now rewrite HrA|].
  split; [repeat split|].
  split.
  { rewrite Hcredit by auto.
    destruct (row_at w (home env version A) A) as [rH|]; [|reflexivity].
    eexists. split; [reflexivity|repeat split]. }
  intros n k Hk1 Hk2. rewrite R5.
  assert (H4 : row_at w4 n k = row_at w n k).
  { rewrite R4, R3.
    replace (String.eqb tok k) with false
      by (symmetry; apply String.eqb_neq; congruence).
    now destruct (decide _). }
  rewrite H4. destruct (decide _); [|reflexivity].
  destruct (row_at w n k) as [x|] eqn:Ex; [|reflexivity]. cbn.
  apply first_row_token in Ex.
  replace (has_token A x) with false; [reflexivity|].
  symmetry. apply String.eqb_neq. congruence.
Qed.

End MergeFacts.

Lemma payment_merges_into_alternate_identity_witness :
  let event := checkout "paid" 300 (Scenario.id_of Scenario.T2) in
  let details := Some (mkPaymentMethod "card" (Some "F1")) in
  let w := Toy.world Scenario.funded [] in
  let merged :=
    mkRow Scenario.T1 800 (Some "Ada") (Some "ada@example.com") None None
          (Some "F1") (Some (Scenario.id_of Scenario.T1)) in
  exists w',
    handleStripeWebhook (P := Toy.crypto)
      (X := Toy.collaborators (Some event) details)
      webhook_request Toy.env "1" w
    = (Ret processed, w')
    /\ row_at w' (event_shard "1" (Scenario.id_of Scenario.T2)) Scenario.T2
       = Some (mkRow Scenario.T2 0 None None None (Some Scenario.T1) None None)
    /\ row_at w' (aggregate "1") Scenario.T2
       = Some (mkRow Scenario.T2 0 None None None (Some Scenario.T1) None None)
    /\ row_at w' (aggregate "1") Scenario.T1 = Some merged
    /\ row_at w' (Scenario.home_of Scenario.T1) Scenario.T1 = Some merged.
Proof.
  intros event details w merged.
  assert (Hagg : row_at w (aggregate "1") Scenario.T1 = Some Scenario.row1)
    by (vm_compute; reflexivity).
  assert (Hhome : row_at w (home (P := Toy.crypto) Toy.env "1" Scenario.T1)
                    Scenario.T1 = Some Scenario.row1)
    by (vm_compute; reflexivity).
  assert (Hrow : forall r',
             credited 300 "ada@example.com" (Some "Ada") Scenario.row1 r' ->
             r' = merged).
  { intros [t b n e ve p f c] (H1 & H2 & H3 & H4 & H5 & H6 & H7 & H8).
    cbn [row_balance row_email row_name row_access_token row_verified_email
         row_verified_user_access_token row_card_fingerprint
         row_client_reference_id Scenario.row1] in *.
    subst. reflexivity. }
  destruct (payment_merges_into_alternate_identity (P := Toy.crypto)
              (X := Toy.collaborators (Some event) details)
              webhook_request Toy.env "1" (event_object event) w
              300 (Scenario.id_of Scenario.T2) "ada@example.com"
              Scenario.T2 Scenario.T1 details)
    as (w' & rA & rA' & HrA & E & P1 & P2 & A1 & C1 & A2 & _).
  - reflexivity.
  - exists "{}", "t=1,v1=signature", event. repeat split.
  - repeat split.
  - vm_compute. reflexivity.
  - vm_compute. reflexivity.
  - reflexivity.
  - vm_compute. reflexivity.
  - rewrite Hagg in HrA. injection HrA as <-.
    rewrite Hhome in A2. destruct A2 as (rH' & A2 & C2).
    apply Hrow in C1, C2. subst rA' rH'.
    exists w'. split; [exact E|]. split; [exact P1|]. split; [exact P2|].
    split; [exact A1|exact A2].
Defined.

(** ** Token rotation *)
Section RotationFacts.

Context {P : WebCrypto}.
Import Sqlite SqliteFacts WorldFacts.

Lemma to_sql_of_sql o : to_sql (of_sql o) = o.
Proof. now destruct o. Qed.

Lemma candidate_nonempty w env version tok :
  nonempty tok = true -> nonempty (candidate w env version tok) = true.
Proof.
  intros H. unfold candidate.
  destruct (row_at w (home env version tok) tok) as [r|]; [|exact H].
  destruct (row_verified_user_access_token r) as [p|]; [|exact H].
  destruct (nonempty p) eqn:E; [exact E|exact H].
Qed.

(** Rows seen through a rewrite of the public identifier. *)
Lemma rewritten_row_at env version t w w' n k :
  rewritten env version t w w' ->
  row_at w' n k =
  if decide (n = home env version t \/ n = aggregate version)
  then option_map
         (fun x => if has_token t x
                   then set_client_reference_id
                          (encryptToken t (DB_SECRET env)) x
                   else x)
         (row_at w n k)
  else row_at w n k.
Proof.
  intros H. unfold row_at. rewrite (H n).
  destruct (decide _); [|reflexivity]. now apply first_row_update.
Qed.

(** After session resolution, a credential has a row where it had one. *)
Lemma resolved_row_none env version t r w w' n k :
  (if decide (row_client_reference_id r
              = Some (encryptToken t (DB_SECRET env)))
   then same_store w w' else rewritten env version t w w') ->
  row_at w n k = None -> row_at w' n k = None.
Proof.
  destruct (decide _); intros H Hnone.
  - now rewrite (row_at_same_store _ _ _ _ H).
  - rewrite (rewritten_row_at _ _ _ _ _ _ _ H), Hnone. now destruct (decide _).
Qed.

Lemma resolved_row_some env version t r w w' :
  (if decide (row_client_reference_id r
              = Some (encryptToken t (DB_SECRET env)))
   then same_store w w' else rewritten env version t w w') ->
  row_at w (home env version t) t = Some r ->
  row_at w' (home env version t) t
  = Some (set_client_reference_id (encryptToken t (DB_SECRET env)) r).
Proof.
  destruct (decide _) as [Heq|Hne]; intros H Hr.
  - rewrite (row_at_same_store _ _ _ _ H), Hr.
    now rewrite (set_client_reference_id_same _ _ Heq).
  - rewrite (rewritten_row_at _ _ _ _ _ _ _ H), Hr.
    destruct (decide _) as [_|Hx]; [|exfalso; auto]. cbn.
    apply first_row_token, has_token_eq in Hr. now rewrite Hr.
Qed.


Lemma rotation_success request env version w tok r :
  method request = "POST" ->
  faults w = [] ->
  credential request = Some tok ->
  nonempty tok = true ->
  effective_row w env version tok = Some r ->
  let t := candidate w env version tok in
  let u := uuids w (uuid_next w) in
  row_at w (home env version u) u = None ->
  exists response w',
    handleTokenRotation request env version w = (Ret response, w')
    /\ status response = 200
    /\ Headers.get "Set-Cookie" (response_headers response)
       = Some (set_cookie env (hostname request) u)
    /\ row_at w' (home env version t) t = None
    /\ effective_row w' env version t = None
    /\ row_at w' (home env version u) u = Some (rotated_row env u r)
    /\ effective_row w' env version u = Some (rotated_row env u r).
Proof.
  intros Hm Hf Hc Hn Heff t u Hfree.
  destruct (session_resolved request env version w tok r Hf Hc Hn Heff)
    as (w1 & F1 & U1 & N1 & E1 & St1).
  fold t in E1, St1.
  pose proof (effective_row_at _ _ _ _ _ Heff) as Hat. cbv zeta in Hat.
  fold t in Hat.
  pose proof (effective_row_token _ _ _ _ _ Heff) as Htok. fold t in Htok.
  assert (Hut : u <> t).
  { intros E. rewrite E in Hfree. congruence. }
  (* the new row is free after the session, too *)
  assert (Hfree1 : row_at (after_uuid w1) (home env version u) u = None).
  { change (row_at (after_uuid w1) (home env version u) u)
      with (row_at w1 (home env version u) u).
    eapply resolved_row_none; eassumption. }
  set (user := user_of_row
                 (set_client_reference_id (encryptToken t (DB_SECRET env)) r)) in *.
  set (q := InsertCopy u (balance user) (to_sql (email user))
              (to_sql (verified_email user)) (to_sql (card_fingerprint user))
              (to_sql (name user)) (encryptToken u (DB_SECRET env)) None).
  assert (Hq : forall tb, run q tb = inserted (rotated_row env u r) tb).
  { intros tb. unfold q, user. cbn [run balance email verified_email
      card_fingerprint name user_of_row set_client_reference_id
      row_balance row_email row_verified_email row_card_fingerprint row_name].
    now rewrite !to_sql_of_sql. }
  destruct (exec_insert_no_fault version (encryptToken u (DB_SECRET env)) q
              (rotated_row env u r) (after_uuid w1) F1 Hq Hfree1)
    as (w2 & E2 & F2 & U2 & N2 & R2).
  destruct (exec_delete_no_fault version
              (getClientReferenceId t (DB_SECRET env)) t w2 F2)
    as (w3 & res3 & E3 & F3 & U3 & N3 & R3).
  change (event_shard version (encryptToken u (DB_SECRET env)))
    with (home env version u) in R2.
  change (event_shard version (getClientReferenceId t (DB_SECRET env)))
    with (home env version t) in R3.
  cbn [row_access_token rotated_row] in R2.
  (* the rows of [t] and [u] in the end *)
  assert (Hold : row_at w3 (home env version t) t = None).
  { rewrite R3. by_decide; [|exfalso; auto].
    now rewrite String.eqb_refl. }
  assert (Hnew : row_at w3 (home env version u) u = Some (rotated_row env u r)).
  { assert (H2 : row_at w2 (home env version u) u = Some (rotated_row env u r)).
    { rewrite R2. by_decide; [|exfalso; auto].
      now rewrite String.eqb_refl. }
    rewrite R3, H2.
    replace (String.eqb t u) with false
      by (symmetry; apply String.eqb_neq; congruence).
    now by_decide. }
  eexists _, w3. split.
  { unfold handleTokenRotation. rewrite Hm.
    change (String.eqb "POST" "POST") with true. cbn [negb].
    unfold bind at 1. rewrite E1. cbn [session_user session_client].
    fold user.
    replace (nonempty (access_token user)) with true.
    2:{ symmetry. unfold user. cbn [access_token user_of_row
          set_client_reference_id row_access_token].
        rewrite Htok. now apply candidate_nonempty. }
    cbn [negb]. unfold bind at 1. unfold randomUUID at 1.
    change (mkWorld (objects w1) (faults w1) (uuids w1) (S (uuid_next w1)))
      with (after_uuid w1).
    rewrite U1, N1. fold u. fold q.
    unfold try_catch. unfold bind at 1. rewrite E2.
    unfold bind at 1.
    replace (access_token user) with t
      by (unfold user; cbn; now rewrite Htok).
    rewrite E3. unfold ret. reflexivity. }
  split; [reflexivity|]. split; [reflexivity|].
  split; [exact Hold|]. split.
  { unfold effective_row. now rewrite Hold. }
  split; [exact Hnew|].
  unfold effective_row, candidate. rewrite Hnew.
  cbn [row_verified_user_access_token rotated_row].
  now rewrite String.eqb_refl.
Qed.


(** A call that meets a throwing fault. *)
Lemma exec_throwing c q w :
  throws (next_fault w) = true ->
  exists w', exec c q w = (Throw, w') /\ faults w' = tail (faults w).
Proof.
  intros H. rewrite exec_unfold. cbv zeta.
  destruct (next_fault w); try discriminate.
  - eexists. split; reflexivity.
  - destruct (run q (shard w (main c))) as [[t' res]|];
      eexists; split; reflexivity.
Qed.

(** A [DELETE] by key whose call goes through leaves no row of that
    key in the shard of the client. *)
Lemma exec_delete_goes_through c k w :
  throws (next_fault w) = false ->
  exists res w',
    exec c (DeleteByAccessToken k) w = (Ret res, w')
    /\ row_at w' (main c) k = None.
Proof.
  intros H. rewrite exec_unfold. cbn [run]. cbv zeta.
  assert (Hdel : forall tb,
    first_row (has_token k) (delete_rows (has_token k) tb) = None).
  { intros tb. rewrite first_row_delete. now rewrite String.eqb_refl. }
  destruct (next_fault w); try discriminate; eexists _, _;
    (split; [reflexivity|]); unfold row_at.
  - rewrite shard_mirror_write, shard_set_shard_eq.
    destruct (decide _); [|apply Hdel].
    unfold apply_sql. cbn [run]. apply Hdel.
  - rewrite shard_set_shard_eq. apply Hdel.
Qed.

Lemma rotation_cleanup request env version w s w1 :
  method request = "POST" ->
  handleUserSession request env version w = (Ret s, w1) ->
  session_client s <> None ->
  nonempty (access_token (session_user s)) = true ->
  throws (next_fault w1) = true ->
  throws (next_fault (after_call w1)) = false ->
  let u := uuids w1 (uuid_next w1) in
  exists response w',
    handleTokenRotation request env version w = (Ret response, w')
    /\ status response = 500
    /\ row_at w' (home env version u) u = None.
Proof.
  intros Hm Hs Hc Hn Ht1 Ht2 u.
  unfold handleTokenRotation. rewrite Hm.
  change (String.eqb "POST" "POST") with true. cbn [negb].
  unfold bind at 1. rewrite Hs.
  destruct (session_client s) as [c|]; [|contradiction].
  rewrite Hn. cbn [negb].
  unfold bind at 1. unfold randomUUID at 1.
  change (mkWorld (objects w1) (faults w1) (uuids w1) (S (uuid_next w1)))
    with (after_uuid w1).
  fold u.
  set (newUserClient := createClient version
                          (getDOName (encryptToken u (DB_SECRET env)))).
  unfold try_catch at 1. unfold bind at 1. cbv beta.
  match goal with
  | |- context [exec newUserClient ?q (after_uuid w1)] =>
      destruct (exec_throwing newUserClient q (after_uuid w1) Ht1)
        as (w2 & E2 & F2)
  end.
  rewrite E2.
  assert (Ht2' : throws (next_fault w2) = false).
  { unfold next_fault. rewrite F2. exact Ht2. }
  destruct (exec_delete_goes_through newUserClient u w2 Ht2')
    as (res & w3 & E3 & R3).
  unfold bind at 1. unfold try_catch. unfold bind at 1. rewrite E3.
  unfold ret. eexists _, w3. split; [reflexivity|].
  split; [reflexivity|exact R3].
Qed.

(** C7 (as amended). A rotation that goes through answers 200 and sets
    the cookie to the new credential; afterwards the old credential
    has no row and resolves to none, and the new credential resolves
    to a row with the balance, email, verified email, card fingerprint
    and name of the row before the rotation, the public identifier of
    the new credential and no forwarding pointer. When the copy into
    the new row throws, the operation attempts to delete the new row
    before it answers 500; when that cleanup statement goes through, no
    row of the new credential is left in its Durable Object. *)
Theorem rotation_moves_identity (request : Request) (env : Env)
    (version : string) :
  method request = "POST" ->
  (forall w tok r,
      faults w = [] ->
      credential request = Some tok ->
      nonempty tok = true ->
      effective_row w env version tok = Some r ->
      let t := candidate w env version tok in
      let u := uuids w (uuid_next w) in
      row_at w (home env version u) u = None ->
      exists response w',
        handleTokenRotation request env version w = (Ret response, w')
        /\ status response = 200
        /\ Headers.get "Set-Cookie" (response_headers response)
           = Some (set_cookie env (hostname request) u)
        /\ row_at w' (home env version t) t = None
        /\ effective_row w' env version t = None
        /\ row_at w' (home env version u) u = Some (rotated_row env u r)
        /\ effective_row w' env version u = Some (rotated_row env u r))
  /\ (forall w s w1,
         handleUserSession request env version w = (Ret s, w1) ->
         session_client s <> None ->
         nonempty (access_token (session_user s)) = true ->
         throws (next_fault w1) = true ->
         throws (next_fault (after_call w1)) = false ->
         let u := uuids w1 (uuid_next w1) in
         exists response w',
           handleTokenRotation request env version w = (Ret response, w')
           /\ status response = 500
           /\ row_at w' (home env version u) u = None).
Proof.
  intros Hm. split.
  - intros w tok r. now apply rotation_success.
  - intros w s w1. now apply rotation_cleanup.
Qed.

End RotationFacts.

Lemma rotation_moves_identity_witness :
  let request := rotate_request Scenario.T1 in
  let u := "00000000-0000-4000-8000-000000000000" in
  (exists response w',
      handleTokenRotation (P := Toy.crypto) request Toy.env "1"
        (Toy.world Scenario.funded [])
      = (Ret response, w')
      /\ status response = 200
      /\ Headers.get "Set-Cookie" (response_headers response)
         = Some (set_cookie Toy.env "example.com" u)
      /\ row_at w' (Scenario.home_of Scenario.T1) Scenario.T1 = None
      /\ effective_row (P := Toy.crypto) w' Toy.env "1" Scenario.T1 = None
      /\ row_at w' (Scenario.home_of u) u
         = Some (rotated_row (P := Toy.crypto) Toy.env u Scenario.row1)
      /\ effective_row (P := Toy.crypto) w' Toy.env "1" u
         = Some (rotated_row (P := Toy.crypto) Toy.env u Scenario.row1))
  /\ (exists response w',
         handleTokenRotation (P := Toy.crypto) request Toy.env "1"
           (Toy.world Scenario.funded [NoFault; ThrowAfterMain])
         = (Ret response, w')
         /\ status response = 500
         /\ row_at w' (Scenario.home_of u) u = None).
Proof.
  destruct (rotation_moves_identity (P := Toy.crypto)
              (rotate_request Scenario.T1) Toy.env "1" eq_refl) as [HA HB].
  split.
  - apply (HA (Toy.world Scenario.funded []) Scenario.T1 Scenario.row1).
    + reflexivity.
    + vm_compute. reflexivity.
    + reflexivity.
    + vm_compute. reflexivity.
    + vm_compute. reflexivity.
  - apply (HB (Toy.world Scenario.funded [NoFault; ThrowAfterMain])
              (returned no_session
                 (handleUserSession (P := Toy.crypto)
                    (rotate_request Scenario.T1) Toy.env "1"
                    (Toy.world Scenario.funded [NoFault; ThrowAfterMain])))
              (snd (handleUserSession (P := Toy.crypto)
                      (rotate_request Scenario.T1) Toy.env "1"
                      (Toy.world Scenario.funded [NoFault; ThrowAfterMain])))).
    + vm_compute. reflexivity.
    + vm_compute. discriminate.
    + vm_compute. reflexivity.
    + vm_compute. reflexivity.
    + vm_compute. reflexivity.
Defined.

(** C7 as first stated fails: the cleanup is itself a statement that
    can fail. When the copy throws after the new shard has written the
    row, and the cleanup call throws too, the rotation answers 500 and
    the row of the new credential stays behind, next to the old one. *)
Lemma failed_cleanup_leaves_new_row :
  let u := "00000000-0000-4000-8000-000000000000" in
  match handleTokenRotation (P := Toy.crypto) (rotate_request Scenario.T1)
          Toy.env "1"
          (Toy.world Scenario.funded [NoFault; ThrowAfterMain; ThrowBefore])
  with
  | (Ret response, w') =>
      status response = 500
      /\ row_at w' (Scenario.home_of u) u
         = Some (rotated_row (P := Toy.crypto) Toy.env u Scenario.row1)
      /\ row_at w' (Scenario.home_of Scenario.T1) Scenario.T1
         = Some Scenario.row1
  | (Throw, _) => False
  end.
Proof. vm_compute. repeat split. Qed.

(** ** Shape of a public identifier *)

Module ShapeFacts.
Import Base64 Base64Url Base64Facts Base64Round.
Local Open Scope N_scope.

Local Ltac Zify.zify_post_hook ::= Z.to_euclidean_division_equations.

Lemma sextet_url_safe n : n < 64 -> url_safe (to_url (encode_sextet n)) = true.
Proof.
  intros H.
  assert (Hall : forallb (fun n => url_safe (to_url (encode_sextet n)))
                   (map N.of_nat (seq 0 64)) = true) by (vm_compute; reflexivity).
  rewrite forallb_forall in Hall. apply Hall.
  apply in_map_iff. exists (N.to_nat n). split; [apply N2Nat.id|].
  apply in_seq. lia.
Qed.

Lemma div3_step (n : nat) : ((4 * S (S (S n)) + 2) / 3 = 4 + (4 * n + 2) / 3)%nat.
Proof.
  replace (4 * S (S (S n)) + 2)%nat with ((4 * n + 2) + 4 * 3)%nat by lia.
  rewrite Nat.div_add by lia. lia.
Qed.

Lemma url_btoa_shape s :
  all_chars url_safe (url (btoa s)) = true
  /\ String.length (url (btoa s)) = ((4 * String.length s + 2) / 3)%nat.
Proof.
  induction s as [|a|a b|a b c r IH] using string_ind3.
  - split; reflexivity.
  - pose proof (byte_bound a) as Ha.
    set (n1 := N_of_ascii a / 4). set (n2 := (N_of_ascii a mod 4) * 16).
    assert (H1 : n1 < 64) by (subst n1; lia).
    assert (H2 : n2 < 64) by (subst n2; lia).
    destruct (sextet_facts n1 H1) as (_ & _ & U1 & _).
    destruct (sextet_facts n2 H2) as (_ & _ & U2 & _).
    cbn [btoa]. fold n1 n2.
    rewrite U1, U2, !url_pad. change (url EmptyString) with EmptyString.
    cbn [all_chars]. rewrite !sextet_url_safe by assumption. split; reflexivity.
  - pose proof (byte_bound a) as Ha. pose proof (byte_bound b) as Hb.
    set (n1 := N_of_ascii a / 4).
    set (n2 := (N_of_ascii a mod 4) * 16 + N_of_ascii b / 16).
    set (n3 := (N_of_ascii b mod 16) * 4).
    assert (H1 : n1 < 64) by (subst n1; lia).
    assert (H2 : n2 < 64) by (subst n2; lia).
    assert (H3 : n3 < 64) by (subst n3; lia).
    destruct (sextet_facts n1 H1) as (_ & _ & U1 & _).
    destruct (sextet_facts n2 H2) as (_ & _ & U2 & _).
    destruct (sextet_facts n3 H3) as (_ & _ & U3 & _).
    cbn [btoa]. fold n1 n2 n3.
    rewrite U1, U2, U3, !url_pad. change (url EmptyString) with EmptyString.
    cbn [all_chars]. rewrite !sextet_url_safe by assumption. split; reflexivity.
  - destruct IH as [IH1 IH2].
    pose proof (byte_bound a) as Ha. pose proof (byte_bound b) as Hb.
    pose proof (byte_bound c) as Hc.
    set (n1 := N_of_ascii a / 4).
    set (n2 := (N_of_ascii a mod 4) * 16 + N_of_ascii b / 16).
    set (n3 := (N_of_ascii b mod 16) * 4 + N_of_ascii c / 64).
    set (n4 := N_of_ascii c mod 64).
    assert (H1 : n1 < 64) by (subst n1; lia).
    assert (H2 : n2 < 64) by (subst n2; lia).
    assert (H3 : n3 < 64) by (subst n3; lia).
    assert (H4 : n4 < 64) by (subst n4; lia).
    destruct (sextet_facts n1 H1) as (_ & _ & U1 & _).
    destruct (sextet_facts n2 H2) as (_ & _ & U2 & _).
    destruct (sextet_facts n3 H3) as (_ & _ & U3 & _).
    destruct (sextet_facts n4 H4) as (_ & _ & U4 & _).
    cbn [btoa]. fold n1 n2 n3 n4.
    rewrite U1, U2, U3, U4.
    cbn [all_chars]. rewrite !sextet_url_safe by assumption. rewrite IH1.
    split; [reflexivity|].
    repeat change (String.length (String ?x ?y)) with (S (String.length y)).
    rewrite IH2, div3_step. lia.
Qed.

Lemma length_string_of_list_byte (b : list byte) :
  String.length (string_of_list_byte b) = length b.
Proof.
  unfold string_of_list_byte.
  induction b as [|x b IH]; [reflexivity|].
  cbn [map string_of_list_ascii].
  change (String.length (String ?x ?y)) with (S (String.length y)).
  cbn [length]. now rewrite IH.
Qed.


Lemma chars_unurl s :
  list_ascii_of_string (unurl s) = map of_url (list_ascii_of_string s).
Proof.
  unfold unurl. induction s as [|c s IH]; [reflexivity|].
  cbn [replace_char list_ascii_of_string map]. rewrite IH.
  unfold of_url. f_equal.
Qed.

Lemma occurs_in c s : occurs c s = true -> In c (list_ascii_of_string s).
Proof.
  induction s as [|c' s IH]; [discriminate|].
  cbn [occurs list_ascii_of_string]. intros H.
  apply orb_true_iff in H. destruct H as [H|H].
  - left. apply Ascii.eqb_eq in H. now subst.
  - right. now apply IH.
Qed.

Lemma undecodable_inv c :
  undecodable c = true ->
  of_url c = c /\ decode_sextet c = None
  /\ is_ascii_whitespace c = false /\ c <> pad.
Proof.
  destruct c as [[] [] [] [] [] [] [] []]; intros H;
    try discriminate H; repeat split; discriminate.
Qed.

Lemma in_filter_whitespace c l :
  In c l -> is_ascii_whitespace c = false ->
  In c (filter (fun c => negb (is_ascii_whitespace c)) l).
Proof.
  intros H Hc. apply list_elem_of_In, list_elem_of_filter.
  split; [now rewrite Hc|now apply list_elem_of_In].
Qed.

Lemma in_strip_padding c l : In c l -> c <> pad -> In c (strip_padding l).
Proof.
  intros H Hc. unfold strip_padding.
  destruct (N.of_nat (length l) mod 4 =? 0); [|assumption].
  destruct (rev l) as [|p1 [|p2 r]] eqn:E; try assumption.
  destruct (Ascii.eqb p1 pad) eqn:E1; [|assumption].
  apply Ascii.eqb_eq in E1. subst p1.
  apply in_rev in H. rewrite E in H.
  destruct H as [H|H]; [now subst|].
  destruct (Ascii.eqb p2 pad) eqn:E2.
  - apply Ascii.eqb_eq in E2. subst p2.
    destruct H as [H|H]; [now subst|]. now apply in_rev in H.
  - now apply in_rev in H.
Qed.

Lemma sextets_none c l : In c l -> decode_sextet c = None -> sextets l = None.
Proof.
  induction l as [|x l IH]; [intros []|].
  intros [->|H] Hc; cbn [sextets].
  - now rewrite Hc.
  - rewrite (IH H Hc). now destruct (decode_sextet x).
Qed.

Lemma pad_survives l : In pad (strip_padding (l ++ [pad; pad; pad])).
Proof.
  unfold strip_padding.
  destruct (N.of_nat (length (l ++ [pad; pad; pad])) mod 4 =? 0).
  - rewrite rev_app_distr. cbn [rev app].
    rewrite !Ascii.eqb_refl. cbn [rev]. rewrite rev_involutive.
    apply in_or_app. right. now left.
  - apply in_or_app. right. now left.
Qed.

Lemma atob_none_of c l s :
  list_ascii_of_string s = l ->
  In c (strip_padding (filter (fun c => negb (is_ascii_whitespace c)) l)) ->
  decode_sextet c = None -> atob s = None.
Proof.
  intros <- H Hc. unfold atob. now rewrite (sextets_none c _ H Hc).
Qed.

End ShapeFacts.

Section MalformedFacts.
Context {P : WebCrypto}.
Import Base64 Base64Url Base64Round ShapeFacts.

Lemma base64url_rejects (s : string) :
  (String.length s mod 4 = 1)%nat
  \/ (exists c, occurs c s = true /\ undecodable c = true) ->
  base64UrlToArrayBuffer s = None.
Proof.
  intros H. unfold base64UrlToArrayBuffer, padEnd.
  rewrite !length_replace_char. fold (unurl s).
  set (k := (String.length s + (4 - String.length s mod 4) mod 4
             - String.length s)%nat).
  enough (E : atob (unurl s +:+ repeat_char "=" k) = None) by now rewrite E.
  destruct H as [H|(c & Hc & Hu)].
  - assert (Hk : k = 3%nat) by (subst k; rewrite H; cbn; lia).
    rewrite Hk. eapply (atob_none_of pad); [reflexivity| |reflexivity].
    rewrite list_ascii_app. cbn [repeat_char list_ascii_of_string].
    rewrite filter_app.
    replace (filter (fun c => negb (is_ascii_whitespace c))
               ["="%char; "="%char; "="%char]) with [pad; pad; pad]
      by reflexivity.
    apply pad_survives.
  - destruct (undecodable_inv c Hu) as (E1 & E2 & E3 & E4).
    eapply (atob_none_of c); [reflexivity| |exact E2].
    apply in_strip_padding; [|exact E4].
    apply in_filter_whitespace; [|exact E3].
    rewrite list_ascii_app. apply in_or_app. left.
    rewrite chars_unurl, <- E1. apply in_map. now apply occurs_in.
Qed.

Lemma unurl_idem s : unurl (unurl s) = unurl s.
Proof.
  unfold unurl. induction s as [|c s IH]; [reflexivity|].
  cbn [replace_char]. rewrite IH. f_equal.
  destruct c as [[] [] [] [] [] [] [] []]; reflexivity.
Qed.

Lemma base64url_standard_alphabet (s : string) :
  base64UrlToArrayBuffer (replace_char "_" "/" (replace_char "-" "+" s))
  = base64UrlToArrayBuffer s.
Proof.
  fold (unurl s). unfold base64UrlToArrayBuffer.
  fold (unurl (unurl s)). fold (unurl s). rewrite unurl_idem.
  unfold unurl at 1 2 3. now rewrite !length_replace_char.
Qed.

(** X3. A ciphertext whose length leaves remainder 1 modulo 4, or that
    holds a character that is no letter, no digit and none of [-], [_],
    [+], [/], [=] and the ASCII white space, cannot be decoded:
    [base64UrlToArrayBuffer] throws, and so does [decryptToken],
    whatever the secret. The characters [+] and [/] of standard base64
    are not rejected: they are read as [-] and [_]. *)
Theorem malformed_identifier_rejected (cipherText secret : string) :
  ((String.length cipherText mod 4 = 1)%nat
   \/ (exists c, occurs c cipherText = true /\ undecodable c = true) ->
   base64UrlToArrayBuffer cipherText = None
   /\ decryptToken cipherText secret = None)
  /\ base64UrlToArrayBuffer
       (replace_char "_" "/" (replace_char "-" "+" cipherText))
     = base64UrlToArrayBuffer cipherText
  /\ decryptToken (replace_char "_" "/" (replace_char "-" "+" cipherText))
       secret
     = decryptToken cipherText secret.
Proof.
  split; [|split].
  - intros H. pose proof (base64url_rejects cipherText H) as E.
    split; [exact E|]. unfold decryptToken. now rewrite E.
  - apply base64url_standard_alphabet.
  - unfold decryptToken. now rewrite base64url_standard_alphabet.
Qed.

End MalformedFacts.

Lemma malformed_identifier_rejected_witness :
  (base64UrlToArrayBuffer "abcde" = None
   /\ decryptToken (P := Toy.crypto) "abcde" "0123456789abcdef" = None)
  /\ (base64UrlToArrayBuffer "ab!d" = None
      /\ decryptToken (P := Toy.crypto) "ab!d" "0123456789abcdef" = None)
  /\ base64UrlToArrayBuffer "+/+/" = base64UrlToArrayBuffer "-_-_".
Proof.
  split; [|split].
  - apply (malformed_identifier_rejected (P := Toy.crypto)). left. reflexivity.
  - apply (malformed_identifier_rejected (P := Toy.crypto)). right.
    exists "!"%char. split; reflexivity.
  - exact (proj1 (proj2 (malformed_identifier_rejected (P := Toy.crypto)
                           "-_-_" ""))).
Defined.

(** X1. The encoding of a buffer of [n] bytes has [(4n + 2) / 3]
    characters, all of them letters, digits, [-] or [_] (no [+], [/]
    or padding), and [base64UrlToArrayBuffer] decodes it back to the
    same bytes. *)
Theorem base64url_shape (buffer : list byte) :
  all_chars url_safe (arrayBufferToBase64Url buffer) = true
  /\ String.length (arrayBufferToBase64Url buffer)
     = ((4 * length buffer + 2) / 3)%nat
  /\ base64UrlToArrayBuffer (arrayBufferToBase64Url buffer) = Some buffer.
Proof.
  destruct (ShapeFacts.url_btoa_shape (string_of_list_byte buffer)) as [H1 H2].
  rewrite ShapeFacts.length_string_of_list_byte in H2.
  split; [exact H1|]. split; [exact H2|]. apply base64url_roundtrip.
Qed.

Section IdentifierFacts.
Context {P : WebCrypto} (L : WebCryptoLaws P).
Import Base64Round ShapeFacts.

Lemma decrypt_encrypt_any token secret :
  decryptToken (encryptToken token secret) secret = Some token.
Proof.
  unfold decryptToken, encryptToken.
  rewrite base64url_roundtrip.
  destruct (split_at_length (generateIV token)
              (AES_GCM_encrypt (deriveKey secret) (generateIV token)
                 (TextEncoder_encode token))
              IV_LENGTH (generateIV_length L token)) as [-> ->].
  rewrite decrypt_encrypt, decode_encode. reflexivity.
Qed.

Lemma encryptToken_inj secret t t' :
  encryptToken t secret = encryptToken t' secret -> t = t'.
Proof.
  intros E. pose proof (decrypt_encrypt_any t secret) as H.
  rewrite E, decrypt_encrypt_any in H. congruence.
Qed.

Lemma encryptToken_safe token secret :
  all_chars url_safe (encryptToken token secret) = true.
Proof. unfold encryptToken. apply url_btoa_shape. Qed.

Lemma nonempty_length s : (0 < String.length s)%nat -> nonempty s = true.
Proof. destruct s; [cbn; lia|reflexivity]. Qed.

Lemma encryptToken_nonempty token secret :
  nonempty (encryptToken token secret) = true.
Proof.
  apply nonempty_length. unfold encryptToken, arrayBufferToBase64Url.
  destruct (url_btoa_shape
              (string_of_list_byte
                 (generateIV token
                  ++ AES_GCM_encrypt (deriveKey secret) (generateIV token)
                       (TextEncoder_encode token)))) as [_ H].
  unfold Base64Url.url in H. rewrite H.
  rewrite length_string_of_list_byte, length_app, (generateIV_length L).
  unfold IV_LENGTH.
  apply Nat.div_str_pos. lia.
Qed.

(** X2. Under one secret and one version, two different credentials
    never share a public identifier nor a Durable Object, and the
    Durable Object of a credential is never the aggregate. *)
Theorem distinct_credentials_distinct_shards (env : Env) (version : string)
    (t t' : string) :
  t <> t' ->
  encryptToken t (DB_SECRET env) <> encryptToken t' (DB_SECRET env)
  /\ home env version t <> home env version t'
  /\ home env version t <> aggregate version.
Proof.
  intros Hne.
  assert (H1 : encryptToken t (DB_SECRET env) <> encryptToken t' (DB_SECRET env)).
  { intros E. apply Hne. eapply encryptToken_inj, E. }
  split; [exact H1|]. split; [|apply home_not_aggregate].
  unfold home, getClientReferenceId, getDOName. rewrite !createClient_main.
  intros E. apply H1.
  apply append_inj_l in E. apply append_inj_l in E.
  apply append_inj_l in E. exact E.
Qed.

End IdentifierFacts.

Lemma distinct_credentials_distinct_shards_witness :
  Scenario.id_of Scenario.T1 <> Scenario.id_of Scenario.T2
  /\ Scenario.home_of Scenario.T1 <> Scenario.home_of Scenario.T2
  /\ Scenario.home_of Scenario.T1 <> aggregate "1".
Proof.
  apply (distinct_credentials_distinct_shards toy_laws Toy.env "1"
           Scenario.T1 Scenario.T2).
  discriminate.
Defined.

(** ** Reading a request body *)

Module StreamFacts.

Lemma total_length_from (chunks : list (list byte)) (n : nat) :
  fold_left (fun acc chunk => (acc + length chunk)%nat) chunks n
  = (n + length (concat chunks))%nat.
Proof.
  revert n. induction chunks as [|c chunks IH]; intros n; cbn [fold_left concat].
  - cbn. lia.
  - rewrite IH, length_app. lia.
Qed.

Lemma copy_chunks_fills (chunks : list (list byte)) (done rest : list byte) :
  length rest = length (concat chunks) ->
  copy_chunks chunks (length done) (done ++ rest)
  = Some (done ++ concat chunks).
Proof.
  revert done rest. induction chunks as [|c chunks IH]; intros done rest H.
  - cbn in *. destruct rest; [reflexivity|discriminate].
  - cbn [concat] in *. rewrite length_app in H.
    cbn [copy_chunks]. unfold Uint8Array.set.
    replace (length done + length c <=? length (done ++ rest))%nat with true
      by (symmetry; apply Nat.leb_le; rewrite length_app; lia).
    destruct (Base64Round.split_at_length done rest (length done) eq_refl)
      as [E1 _].
    rewrite E1.
    replace (skipn (length done + length c) (done ++ rest))
      with (skipn (length c) rest).
    2:{ rewrite skipn_app, (@skipn_all2 _ _ done) by lia.
        replace (length done + length c - length done)%nat with (length c) by lia.
        reflexivity. }
    replace (done ++ c ++ skipn (length c) rest)
      with ((done ++ c) ++ skipn (length c) rest) by now rewrite <- app_assoc.
    replace (length done + length c)%nat with (length (done ++ c))
      by now rewrite length_app.
    rewrite IH; [now rewrite <- app_assoc|].
    rewrite length_skipn. lia.
Qed.

End StreamFacts.

(** X4. [streamToBuffer] returns the chunks of the stream joined in the
    order they were read, whatever their number and sizes (its
    [result.set] calls never leave the buffer); it fails only when a
    [read()] fails. *)
Theorem streamToBuffer_concat (readableStream : ReadableStream) :
  streamToBuffer readableStream
  = option_map (@concat byte) (read_chunks readableStream)
  /\ (forall chunks,
         streamToBuffer (map Some chunks) = Some (concat chunks))
  /\ (streamToBuffer readableStream = None <-> In None readableStream).
Proof.
  assert (A : forall s, streamToBuffer s = option_map (@concat byte) (read_chunks s)).
  { intros s. unfold streamToBuffer. destruct (read_chunks s) as [chunks|]; [|reflexivity].
    cbv zeta. rewrite StreamFacts.total_length_from. cbn [Nat.add option_map].
    apply (StreamFacts.copy_chunks_fills chunks []).
    unfold Uint8Array.make. apply repeat_length. }
  assert (B : forall chunks, read_chunks (map Some chunks) = Some chunks).
  { induction chunks as [|c chunks IH]; [reflexivity|].
    cbn [map read_chunks]. now rewrite IH. }
  split; [apply A|]. split.
  - intros chunks. now rewrite A, B.
  - rewrite A. induction readableStream as [|[v|] s IH]; cbn [read_chunks].
    + split; [discriminate|intros []].
    + destruct (read_chunks s); cbn [option_map] in *.
      * split; [discriminate|]. intros [H|H]; [discriminate|].
        now apply IH in H.
      * split; [intros _; right; now apply IH|reflexivity].
    + split; [intros _; now left|reflexivity].
Qed.

(** ** Cookies and bearer tokens *)

Module StrFacts.
Import Str.

Lemma append_cons c s t : String c s +:+ t = String c (s +:+ t).
Proof. reflexivity. Qed.

Lemma append_nil s : "" +:+ s = s.
Proof. reflexivity. Qed.

Lemma split_not_nil sep s : split sep s <> [].
Proof.
  destruct s as [|c s]; cbn [split]; [discriminate|].
  destruct (Ascii.eqb c sep); [discriminate|].
  destruct (split sep s); discriminate.
Qed.

Lemma split_app sep a b :
  split sep (a +:+ String sep b) = split sep a ++ split sep b.
Proof.
  induction a as [|c a IH].
  - rewrite append_nil. cbn [split]. now rewrite Ascii.eqb_refl.
  - rewrite append_cons. cbn [split]. rewrite IH.
    destruct (Ascii.eqb c sep); [reflexivity|].
    pose proof (split_not_nil sep a) as Hn.
    destruct (split sep a) as [|h t]; [contradiction|reflexivity].
Qed.

Lemma split_none sep s : occurs sep s = false -> split sep s = [s].
Proof.
  induction s as [|c s IH]; [reflexivity|].
  cbn [occurs split]. intros H. apply orb_false_iff in H. destruct H as [H1 H2].
  rewrite Ascii.eqb_sym, H1, (IH H2). reflexivity.
Qed.

Lemma toLowerCase_app a b : toLowerCase (a +:+ b) = toLowerCase a +:+ toLowerCase b.
Proof.
  induction a as [|c a IH]; [reflexivity|].
  rewrite append_cons. cbn [toLowerCase]. now rewrite IH.
Qed.

Lemma length_toLowerCase s : String.length (toLowerCase s) = String.length s.
Proof.
  induction s as [|c s IH]; [reflexivity|]. cbn [toLowerCase].
  change (String.length (String ?x ?y)) with (S (String.length y)).
  now rewrite IH.
Qed.

Lemma startsWith_app p s : startsWith (p +:+ s) p = true.
Proof.
  induction p as [|c p IH]; [now destruct s|].
  rewrite append_cons. cbn [startsWith]. now rewrite Ascii.eqb_refl, IH.
Qed.

Lemma slice_from_app a b : slice_from (String.length a) (a +:+ b) = b.
Proof.
  induction a as [|c a IH]; [now destruct b|].
  rewrite append_cons.
  change (String.length (String ?x ?y)) with (S (String.length y)).
  cbn [slice_from]. exact IH.
Qed.

End StrFacts.

Section CookieFacts.
Import Str StrFacts.

Lemma parseCookies_app header cookie :
  occurs ";" cookie = false ->
  parseCookies (header +:+ ";" +:+ cookie)
  = cookie_step (parseCookies header) cookie.
Proof.
  intros H. unfold parseCookies.
  change (";" +:+ cookie) with (String ";" cookie).
  rewrite split_app, (split_none _ _ H), foldl_app. reflexivity.
Qed.

Lemma set_property_other name value cookies :
  name <> "__proto__" ->
  set_property name value cookies = <[name := value]> cookies.
Proof.
  intros H. unfold set_property.
  now replace (String.eqb name "__proto__") with false
    by (symmetry; now apply String.eqb_neq).
Qed.

Lemma step_pair cookies name value others :
  occurs "=" name = false -> occurs "=" value = false ->
  nonempty (trim name) = true -> nonempty (trim value) = true ->
  trim name <> "__proto__" ->
  (others = "" \/ exists more, others = String "=" more) ->
  cookie_step cookies (name +:+ "=" +:+ value +:+ others)
  = <[trim name := trim value]> cookies.
Proof.
  intros Hn Hv Nn Nv Np Ho. unfold cookie_step.
  change ("=" +:+ value +:+ others) with (String "=" (value +:+ others)).
  rewrite split_app, (split_none _ _ Hn).
  assert (E : exists l, split "=" (value +:+ others) = value :: l).
  { destruct Ho as [->|[more ->]].
    - exists []. replace (value +:+ "") with value.
      + now apply split_none.
      + clear. induction value as [|c v IH]; [reflexivity|].
        rewrite append_cons. now rewrite <- IH.
    - rewrite split_app, (split_none _ _ Hv). eexists. reflexivity. }
  destruct E as [l ->]. cbn [app map]. rewrite Nn, Nv.
  now apply set_property_other.
Qed.

Lemma step_proto cookies value :
  cookie_step cookies ("__proto__" +:+ "=" +:+ value) = cookies.
Proof.
  unfold cookie_step.
  change ("__proto__" +:+ "=" +:+ value)
    with ("__proto__" +:+ String "=" value).
  rewrite split_app.
  replace (split "=" "__proto__") with ["__proto__"] by reflexivity.
  pose proof (split_not_nil "=" value) as Hv.
  destruct (split "=" value) as [|v l]; [contradiction|].
  cbn [app map]. replace (trim "__proto__") with "__proto__" by reflexivity.
  unfold set_property. rewrite String.eqb_refl.
  now destruct (nonempty "__proto__" && nonempty (trim v)).
Qed.

Lemma step_entries cookies cookie :
  (forall k v, cookies !! k = Some v ->
     nonempty k = true /\ nonempty v = true /\ k <> "__proto__") ->
  forall k v, cookie_step cookies cookie !! k = Some v ->
              nonempty k = true /\ nonempty v = true /\ k <> "__proto__".
Proof.
  intros H k v. unfold cookie_step.
  destruct (map trim (split "=" cookie)) as [|name [|value l]]; try apply H.
  destruct (nonempty name) eqn:En; [|apply H].
  destruct (nonempty value) eqn:Ev; [|apply H].
  cbn [andb]. unfold set_property.
  destruct (String.eqb name "__proto__") eqn:Ep; [apply H|].
  apply String.eqb_neq in Ep.
  destruct (decide (name = k)) as [->|Hne].
  - rewrite lookup_insert_eq. intros [= <-]. now repeat split.
  - rewrite lookup_insert_ne by assumption. apply H.
Qed.

(** X5. In a [Cookie] header read by [parseCookies], the last of
    several cookies of one name is the one kept; a value is cut at its
    first [=]; names and values are trimmed, and a cookie whose name or
    value is empty is ignored. This holds for every name but
    [__proto__]: a cookie of that name is never stored, because the
    assignment does not create a property of that name. *)
Theorem later_cookie_wins (header name value : string) :
  occurs ";" name = false -> occurs "=" name = false ->
  occurs ";" value = false -> occurs "=" value = false ->
  nonempty (trim name) = true -> nonempty (trim value) = true ->
  trim name <> "__proto__" ->
  parseCookies (header +:+ ";" +:+ name +:+ "=" +:+ value) !! trim name
  = Some (trim value)
  /\ (forall more, occurs ";" more = false ->
        parseCookies (header +:+ ";" +:+ name +:+ "=" +:+ value
                        +:+ "=" +:+ more) !! trim name
        = Some (trim value))
  /\ (forall k v, parseCookies header !! k = Some v ->
                  nonempty k = true /\ nonempty v = true /\ k <> "__proto__")
  /\ (forall v, occurs ";" v = false ->
        parseCookies (header +:+ ";" +:+ "__proto__" +:+ "=" +:+ v)
        = parseCookies header).
Proof.
  intros H1 H2 H3 H4 Nn Nv Np.
  assert (occurs_app : forall c a b,
             occurs c a = false -> occurs c b = false ->
             occurs c (a +:+ b) = false).
  { intros c a b Ha Hb. induction a as [|x a IH]; [exact Hb|].
    rewrite append_cons. cbn [occurs] in *.
    apply orb_false_iff in Ha. destruct Ha as [Ha1 Ha2].
    now rewrite Ha1, (IH Ha2). }
  split; [|split; [|split]].
  - rewrite parseCookies_app.
    + replace (name +:+ "=" +:+ value) with (name +:+ "=" +:+ value +:+ "").
      * rewrite step_pair; auto. apply lookup_insert_eq.
      * f_equal. f_equal. clear. induction value as [|c v IH]; [reflexivity|].
        rewrite append_cons. now rewrite IH.
    + apply occurs_app; [assumption|]. apply (occurs_app _ "="); [reflexivity|assumption].
  - intros more Hm. rewrite parseCookies_app.
    + rewrite step_pair; eauto. apply lookup_insert_eq.
    + apply occurs_app; [assumption|]. apply (occurs_app _ "="); [reflexivity|].
      apply occurs_app; [assumption|]. apply (occurs_app _ "="); [reflexivity|assumption].
  - unfold parseCookies.
    change (forall k v,
               foldl cookie_step ∅ (split ";" header) !! k = Some v ->
               nonempty k = true /\ nonempty v = true /\ k <> "__proto__").
    generalize (split ";" header). intros l.
    assert (G : forall acc,
               (forall k v, acc !! k = Some v ->
                  nonempty k = true /\ nonempty v = true /\ k <> "__proto__") ->
               forall k v, foldl cookie_step acc l !! k = Some v ->
                           nonempty k = true /\ nonempty v = true
                           /\ k <> "__proto__").
    { induction l as [|c l IH]; intros acc Hacc; [exact Hacc|].
      cbn [foldl]. apply IH. now apply step_entries. }
    apply G. intros k v. rewrite lookup_empty. discriminate.
  - intros v Hv. rewrite parseCookies_app.
    + apply step_proto.
    + apply (occurs_app _ "__proto__"); [reflexivity|].
      apply (occurs_app _ "="); [reflexivity|assumption].
Qed.

End CookieFacts.

Lemma later_cookie_wins_witness :
  parseCookies "access_token=old; theme=dark; access_token = new" !! "access_token"
  = Some "new"
  /\ parseCookies "access_token=old;__proto__=x" = parseCookies "access_token=old".
Proof.
  destruct (later_cookie_wins "access_token=old; theme=dark"
              " access_token " " new") as (H & _);
    [reflexivity|reflexivity|reflexivity|reflexivity|reflexivity|reflexivity
    |discriminate|].
  destruct (later_cookie_wins "access_token=old" "a" "b") as (_ & _ & _ & G);
    [reflexivity|reflexivity|reflexivity|reflexivity|reflexivity|reflexivity
    |discriminate|].
  split; [exact H|exact (G "x" eq_refl)].
Defined.

Section BearerFacts.
Import Str StrFacts.

Lemma parseCookies_empty : parseCookies "" = ∅.
Proof. reflexivity. Qed.

Lemma credential_eq request :
  credential request
  = or_else (bearerToken request) (cookie_credential request).
Proof.
  unfold credential, cookie_credential.
  destruct (cookie_header request) as [h|]; [|reflexivity].
  destruct h; reflexivity.
Qed.

(** X6. A bearer token in the [Authorization] header (the scheme in
    any letter case) is the credential of the request, whatever its
    cookies say; the [access_token] cookie is used when there is no
    [Authorization] header or when the bearer token is empty. *)
Theorem bearer_precedes_cookie (request : Request) :
  (forall scheme token,
      authorization_header request = Some (scheme +:+ token) ->
      toLowerCase scheme = "bearer " ->
      nonempty token = true ->
      credential request = Some token)
  /\ (forall scheme,
         authorization_header request = Some scheme ->
         toLowerCase scheme = "bearer " ->
         credential request = cookie_credential request)
  /\ (authorization_header request = None ->
      credential request = cookie_credential request).
Proof.
  assert (B : forall scheme token,
             authorization_header request = Some (scheme +:+ token) ->
             toLowerCase scheme = "bearer " ->
             bearerToken request = Some token).
  { intros scheme token H E. unfold bearerToken. rewrite H.
    rewrite toLowerCase_app, E, startsWith_app.
    replace (String.length "Bearer ") with (String.length scheme).
    - now rewrite slice_from_app.
    - rewrite <- length_toLowerCase, E. reflexivity. }
  split; [|split].
  - intros scheme token H E N. rewrite credential_eq, (B _ _ H E).
    unfold or_else. now rewrite N.
  - intros scheme H E. rewrite credential_eq.
    rewrite (B scheme "" ); [reflexivity| |exact E].
    rewrite H. f_equal. clear. induction scheme as [|c s IH]; [reflexivity|].
    rewrite append_cons. now rewrite <- IH.
  - intros H. rewrite credential_eq. unfold bearerToken. now rewrite H.
Qed.

End BearerFacts.

Lemma bearer_precedes_cookie_witness :
  credential
    (mkRequest "GET" "/" "example.com" (Some "access_token=from-cookie")
       (Some "BEARER from-header") None None)
  = Some "from-header".
Proof.
  apply (bearer_precedes_cookie
           (mkRequest "GET" "/" "example.com" (Some "access_token=from-cookie")
              (Some "BEARER from-header") None None))
    with (scheme := "BEARER "); reflexivity.
Defined.

(** ** Session resolution under faults *)

Module MonadFacts.

Lemma bind_ret_inv {A B} (m : M A) (k : A -> M B) w b w' :
  bind m k w = (Ret b, w') ->
  exists a w1, m w = (Ret a, w1) /\ k a w1 = (Ret b, w').
Proof.
  unfold bind. destruct (m w) as [[a|] w1]; [|discriminate].
  intros H. now exists a, w1.
Qed.

Lemma try_catch_inv {A} (m h : M A) w a w' :
  try_catch m h w = (Ret a, w') ->
  m w = (Ret a, w')
  \/ exists w1, m w = (Throw, w1) /\ h w1 = (Ret a, w').
Proof.
  unfold try_catch. destruct (m w) as [[a0|] w1]; intros H.
  - now left.
  - right. now exists w1.
Qed.

Lemma same_ledger_refl w : same_ledger w w.
Proof. now intros n. Qed.

Lemma same_ledger_trans w1 w2 w3 :
  same_ledger w1 w2 -> same_ledger w2 w3 -> same_ledger w1 w3.
Proof. intros H1 H2 n. now rewrite H2, H1. Qed.

Lemma same_store_ledger w w' : same_store w w' -> same_ledger w w'.
Proof. intros H n. now rewrite H. Qed.

Lemma safe_quiet {A} (m : M A) : safe m -> quiet m.
Proof. intros H w. destruct (H w) as (a & w' & E & S). now rewrite E. Qed.

Lemma quiet_ret {A} (a : A) : quiet (ret a).
Proof. intros w. apply same_ledger_refl. Qed.

Lemma safe_ret {A} (a : A) : safe (ret a).
Proof. intros w. exists a, w. split; [reflexivity|apply same_ledger_refl]. Qed.

Lemma quiet_bind {A B} (m : M A) (k : A -> M B) :
  quiet m -> (forall a, quiet (k a)) -> quiet (bind m k).
Proof.
  intros Hm Hk w. unfold bind. specialize (Hm w).
  destruct (m w) as [[a|] w1]; cbn [snd] in *; [|exact Hm].
  eapply same_ledger_trans; [exact Hm|apply Hk].
Qed.

Lemma safe_bind {A B} (m : M A) (k : A -> M B) :
  safe m -> (forall a, safe (k a)) -> safe (bind m k).
Proof.
  intros Hm Hk w. destruct (Hm w) as (a & w1 & E & S1).
  destruct (Hk a w1) as (b & w2 & E2 & S2).
  exists b, w2. unfold bind. rewrite E. split; [exact E2|].
  eapply same_ledger_trans; eassumption.
Qed.

Lemma safe_try_catch {A} (m h : M A) :
  quiet m -> safe h -> safe (try_catch m h).
Proof.
  intros Hm Hh w. unfold try_catch. specialize (Hm w).
  destruct (m w) as [[a|] w1]; cbn [snd] in Hm.
  - now exists a, w1.
  - destruct (Hh w1) as (a & w2 & E & S). exists a, w2.
    split; [exact E|]. eapply same_ledger_trans; eassumption.
Qed.

End MonadFacts.

Section QuietFacts.
Context {P : WebCrypto}.
Import Sqlite SqliteFacts WorldFacts MonadFacts.

Lemma neutral_select tok : ledger_neutral (SelectByAccessToken tok).
Proof. intros t t' res [= <- _]. reflexivity. Qed.

Lemma neutral_rewrite cri tok : ledger_neutral (UpdateClientReferenceId cri tok).
Proof.
  intros t t' res [= <- _]. induction t as [|r t IH]; [reflexivity|].
  cbn [update_rows map]. rewrite IH. f_equal. now destruct (has_token tok r).
Qed.

Lemma same_ledger_set_shard n t w :
  map ledger t = map ledger (shard w n) -> same_ledger w (set_shard n t w).
Proof.
  intros H m. rewrite shard_set_shard.
  destruct (String.eqb n m) eqn:E; [|reflexivity].
  apply String.eqb_eq in E. now subst.
Qed.

Lemma same_ledger_mirror c q w :
  ledger_neutral q -> same_ledger w (mirror_write c q w).
Proof.
  intros H n. rewrite shard_mirror_write.
  destruct (decide (mirror c = Some n)); [|reflexivity].
  unfold apply_sql. destruct (run q (shard w n)) as [[t' res]|] eqn:E; [|reflexivity].
  eapply H, E.
Qed.

Lemma same_ledger_after_call w : same_ledger w (after_call w).
Proof. intros n. now rewrite shard_after_call. Qed.

Lemma quiet_exec c q : ledger_neutral q -> quiet (exec c q).
Proof.
  intros H w. rewrite exec_unfold. cbv zeta.
  assert (A0 := same_ledger_after_call w).
  destruct (run q (shard w (main c))) as [[t' res]|] eqn:E.
  - assert (A1 : same_ledger w (set_shard (main c) t' (after_call w))).
    { eapply same_ledger_trans; [exact A0|]. apply same_ledger_set_shard.
      rewrite shard_after_call. eapply H, E. }
    destruct (next_fault w); cbn [snd]; try assumption.
    eapply same_ledger_trans; [exact A1|]. now apply same_ledger_mirror.
  - destruct (next_fault w); cbn [snd]; assumption.
Qed.

Lemma quiet_refresh env client tok user :
  quiet (refresh_client_reference_id env client tok user).
Proof.
  unfold refresh_client_reference_id. destruct user as [u|]; [|apply quiet_ret].
  destruct (strict_ne _ _); [|apply quiet_ret].
  apply quiet_bind; [apply quiet_exec, neutral_rewrite|intros _; apply quiet_ret].
Qed.

Lemma safe_not_found tok : safe (not_found tok).
Proof. apply safe_ret. Qed.

Lemma safe_find_user env version tok : safe (find_user env version tok).
Proof.
  unfold find_user. cbv zeta. apply safe_try_catch; [|apply safe_not_found].
  apply quiet_bind; [apply quiet_exec, neutral_select|].
  intros userResult. destruct (option_map user_of_row (one userResult)) as [u|] eqn:Eu;
    [|apply quiet_refresh].
  destruct (verified_user_access_token u) as [| |verified]; try apply quiet_refresh.
  destruct (nonempty verified); [|apply quiet_refresh].
  apply safe_quiet, safe_try_catch; [|apply safe_not_found].
  apply quiet_bind; [apply quiet_exec, neutral_select|].
  intros r. apply quiet_refresh.
Qed.

Lemma safe_randomUUID : safe randomUUID.
Proof. intros w. eexists _, _. split; [reflexivity|]. now intros n. Qed.

Lemma safe_session request env version :
  safe (handleUserSession request env version).
Proof.
  unfold handleUserSession. apply safe_bind.
  - destruct (credential request) as [tok|]; [|apply safe_ret].
    destruct (nonempty tok); [apply safe_find_user|apply safe_ret].
  - intros found. apply safe_bind; [|intros u; apply safe_ret].
    destruct (found_user found) as [u|]; [apply safe_ret|].
    apply safe_bind; [|intros t; apply safe_ret].
    destruct (accessToken found) as [tok|]; [|apply safe_randomUUID].
    destruct (nonempty tok && uuidGeneralRegex tok);
      [apply safe_ret|apply safe_randomUUID].
Qed.

(** X7. Whatever the credential and whatever fails in the store,
    [handleUserSession] returns a session (it never throws), and it
    leaves every table with the same rows, in the same order, with the
    same balance, name, email, verified email, card fingerprint and
    forwarding pointer: [client_reference_id] is the only column it
    ever writes. *)
Theorem session_resolution_keeps_ledger (request : Request) (env : Env)
    (version : string) (w : World) :
  exists session w',
    handleUserSession request env version w = (Ret session, w')
    /\ forall name, map ledger (shard w' name) = map ledger (shard w name).
Proof. apply safe_session. Qed.

End QuietFacts.

Section SessionShape.
Context {P : WebCrypto}.
Import Sqlite SqliteFacts WorldFacts MonadFacts.

Lemma exec_ret_run c q w res w' :
  exec c q w = (Ret res, w') ->
  exists t', run q (shard w (main c)) = Some (t', res).
Proof.
  rewrite exec_unfold. cbv zeta.
  destruct (run q (shard w (main c))) as [[t' r]|];
    destruct (next_fault w); intros [= <- _]; eauto.
Qed.

Lemma select_ret_token c tok w res w' r :
  exec c (SelectByAccessToken tok) w = (Ret res, w') ->
  one res = Some r -> row_access_token r = tok.
Proof.
  intros H E. apply exec_ret_run in H. destruct H as [t' H].
  cbn [run] in H. injection H as _ <-. cbn [one] in E.
  eapply first_row_token, E.
Qed.

Lemma refresh_inv env client tok user w l w' :
  refresh_client_reference_id env client tok user w = (Ret l, w') ->
  forall u', found_user l = Some u' ->
    exists u, user = Some u /\ access_token u' = access_token u
              /\ client_reference_id u' = Val (encryptToken tok (DB_SECRET env)).
Proof.
  unfold refresh_client_reference_id. destruct user as [u|].
  - destruct (strict_ne _ _) eqn:E.
    + intros H. apply bind_ret_inv in H. destruct H as (_ & w1 & _ & H).
      injection H as <- _. intros u' [= <-]. exists u. now repeat split.
    + intros [= <- _] u' [= <-]. exists u. repeat split.
      unfold strict_ne in E. destruct (client_reference_id u) as [| |x]; try discriminate.
      apply negb_false_iff, String.eqb_eq in E. now subst.
  - intros [= <- _] u' [=].
Qed.

Lemma find_user_inv env version tok w l w' u :
  find_user env version tok w = (Ret l, w') ->
  found_user l = Some u ->
  client_reference_id u
  = Val (encryptToken (access_token u) (DB_SECRET env)).
Proof.
  unfold find_user. cbv zeta. intros H Hu.
  apply try_catch_inv in H. destruct H as [H|(w1 & _ & H)].
  2:{ injection H as <- _. discriminate. }
  apply bind_ret_inv in H. destruct H as (res & w1 & Hsel & H).
  assert (Hone : forall r, one res = Some r -> row_access_token r = tok)
    by (intros r; eapply select_ret_token; eassumption).
  assert (Direct :
            refresh_client_reference_id env
              (createClient version
                 (getDOName (getClientReferenceId tok (DB_SECRET env))))
              tok (option_map user_of_row (one res)) w1 = (Ret l, w') ->
            client_reference_id u
            = Val (encryptToken (access_token u) (DB_SECRET env))).
  { intros H0. destruct (refresh_inv _ _ _ _ _ _ _ H0 u Hu) as (u0 & E0 & E1 & E2).
    rewrite E2, E1. destruct (one res) as [r|]; [|discriminate].
    injection E0 as <-. cbn [user_of_row access_token]. now rewrite (Hone r eq_refl). }
  destruct (option_map user_of_row (one res)) as [u0|] eqn:Eu; [|now apply Direct].
  destruct (verified_user_access_token u0) as [| |verified]; try (now apply Direct).
  destruct (nonempty verified); [|now apply Direct].
  clear Direct.
  apply try_catch_inv in H. destruct H as [H|(w2 & _ & H)].
  2:{ injection H as <- _. discriminate. }
  apply bind_ret_inv in H. destruct H as (res2 & w2 & Hsel2 & H).
  destruct (refresh_inv _ _ _ _ _ _ _ H u Hu) as (u1 & E0 & E1 & E2).
  rewrite E2, E1. destruct (one res2) as [r|] eqn:Er; [|discriminate].
  injection E0 as <-. cbn [user_of_row access_token].
  now rewrite (select_ret_token _ _ _ _ _ _ Hsel2 Er).
Qed.

Lemma session_inv request env version w s w' :
  handleUserSession request env version w = (Ret s, w') ->
  client_reference_id (session_user s)
  = Val (encryptToken (access_token (session_user s)) (DB_SECRET env))
  /\ session_headers s
     = [("Set-Cookie",
         set_cookie env (hostname request) (access_token (session_user s)))].
Proof.
  unfold handleUserSession. intros H.
  apply bind_ret_inv in H. destruct H as (found & w1 & Hf & H).
  apply bind_ret_inv in H. destruct H as (u & w2 & Hu & H).
  injection H as <- _. cbn [session_user session_headers]. split; [|reflexivity].
  destruct (found_user found) as [u0|] eqn:E0.
  - injection Hu as <- _.
    destruct (credential request) as [tok|]; [|injection Hf as <- _; discriminate].
    destruct (nonempty tok); [|injection Hf as <- _; discriminate].
    eapply find_user_inv; eassumption.
  - apply bind_ret_inv in Hu. destruct Hu as (t & w3 & _ & Hu).
    injection Hu as <- _. reflexivity.
Qed.


End SessionShape.

Section PaymentLinkFacts.
Context {P : WebCrypto} (L : WebCryptoLaws P).
Import MonadFacts.

Lemma url_safe_unreserved c : url_safe c = true -> Str.is_uri_unreserved c = true.
Proof.
  unfold url_safe, Str.is_uri_unreserved. cbv zeta. intros H.
  destruct ((48 <=? N_of_ascii c) && (N_of_ascii c <=? 57)
            || (97 <=? N_of_ascii c) && (N_of_ascii c <=? 122)
            || (65 <=? N_of_ascii c) && (N_of_ascii c <=? 90))%N eqn:E;
    [reflexivity|].
  cbn [orb] in *. apply orb_true_iff in H.
  destruct H as [H|H]; apply N.eqb_eq in H;
    apply (f_equal ascii_of_N) in H; rewrite ascii_N_embedding in H; subst c;
    reflexivity.
Qed.

Lemma encodeURIComponent_safe s :
  all_chars url_safe s = true -> Str.encodeURIComponent s = s.
Proof.
  induction s as [|c s IH]; [reflexivity|].
  cbn [all_chars Str.encodeURIComponent]. intros H.
  apply andb_true_iff in H. destruct H as [H1 H2].
  now rewrite (url_safe_unreserved c H1), (IH H2).
Qed.

(** X9. Every session has a payment link, and the link carries the
    public identifier of the session's user as it is: the identifier
    is never empty and holds no character that [encodeURIComponent]
    would escape. *)
Theorem payment_link_carries_identifier (request : Request) (env : Env)
    (version : string) (w : World) :
  exists session w',
    handleUserSession request env version w = (Ret session, w')
    /\ payment_link env (session_user session)
       = Some (STRIPE_PAYMENT_LINK env +:+ "?client_reference_id="
               +:+ encryptToken (access_token (session_user session))
                     (DB_SECRET env)).
Proof.
  destruct (safe_session request env version w) as (s & w' & E & _).
  exists s, w'. split; [exact E|].
  destruct (session_inv _ _ _ _ _ _ E) as [Hc _].
  unfold payment_link. rewrite Hc.
  rewrite (encryptToken_nonempty L), encodeURIComponent_safe; [reflexivity|].
  apply encryptToken_safe.
Qed.

End PaymentLinkFacts.

Lemma payment_link_carries_identifier_witness :
  exists session w',
    handleUserSession (P := Toy.crypto)
      (request_with_cookie "/" Scenario.T1) Toy.env "1"
      (Toy.world Scenario.stale [])
    = (Ret session, w')
    /\ payment_link Toy.env (session_user session)
       = Some (STRIPE_PAYMENT_LINK Toy.env +:+ "?client_reference_id="
               +:+ encryptToken (P := Toy.crypto)
                     (access_token (session_user session))
                     (DB_SECRET Toy.env)).
Proof.
  apply (payment_link_carries_identifier toy_laws).
Defined.

(** ** Payments for a credential of its own *)

Section PaymentFacts.
Context {P : WebCrypto} {X : Collaborators}.
Import Sqlite SqliteFacts WorldFacts.

Lemma known_user_credit
    (request : Request) (env : Env) (version : string)
    (session : CheckoutSession) (w : World)
    (amount : Z) (id email tok : string) (r : Row) :
  faults w = [] ->
  delivers request env session ->
  accepted env session amount id email tok ->
  row_at w (aggregate version) tok = Some r ->
  exists w',
    handleStripeWebhook request env version w = (Ret processed, w')
    /\ faults w' = []
    /\ row_at w' (aggregate version) tok
       = Some (credit_row amount (Some email) (payer_name session) r)
    /\ row_at w' (event_shard version id) tok
       = option_map (credit_row amount (Some email) (payer_name session))
           (row_at w (event_shard version id) tok)
    /\ forall n k, k <> tok -> row_at w' n k = row_at w n k.
Proof.
  intros Hf Hd (Hp & Hi & He & Hs & Hdec) Hrow.
  rewrite (delivered_checkout _ _ _ _ _ Hd). unfold checkout_completed.
  destruct (paid_amount_inv _ _ Hp) as [Ha Hguard]. rewrite Ha, Hguard.
  unfold public_identifier, payer_email in Hi, He. rewrite Hi, He, Hs.
  cbn [negb]. rewrite Hdec.
  destruct (exec_read (createAggregateClient version) (SelectByAccessToken tok)
              w _ Hf eq_refl eq_refl) as (w1 & E1 & F1 & U1 & N1 & S1).
  unfold bind at 1. rewrite E1. cbn [one].
  change (first_row (has_token tok)
            (shard w (main (createAggregateClient version))))
    with (row_at w (aggregate version) tok).
  rewrite Hrow.
  destruct (exec_update_no_fault version id
              (UpdateCredit amount (Some email) (payer_name session) tok)
              (has_token tok)
              (credit_row amount (Some email) (payer_name session))
              w1 F1 (fun t => eq_refl) (fun x => eq_refl))
    as (w2 & E2 & F2 & _ & _ & R2).
  unfold bind at 1.
  change (or_null (customer_details session ≫= customer_name))
    with (payer_name session).
  rewrite E2. unfold ret.
  assert (R1 : forall n k, row_at w1 n k = row_at w n k)
    by (intros n k; apply row_at_same_store, S1).
  assert (Hcredit : forall n,
    n = event_shard version id \/ n = aggregate version ->
    row_at w2 n tok
    = option_map (credit_row amount (Some email) (payer_name session))
        (row_at w n tok)).
  { intros n Hn. rewrite R2, R1.
    destruct (decide _) as [_|Hx]; [|contradiction].
    destruct (row_at w n tok) as [x|] eqn:Ex; [|reflexivity]. cbn.
    apply first_row_token, has_token_eq in Ex. now rewrite Ex. }
  exists w2. split; [reflexivity|]. split; [exact F2|].
  split; [rewrite Hcredit by auto; now rewrite Hrow|].
  split; [apply Hcredit; auto|].
  intros n k Hk. rewrite R2, R1. destruct (decide _); [|reflexivity].
  destruct (row_at w n k) as [x|] eqn:Ex; [|reflexivity]. cbn.
  apply first_row_token in Ex.
  replace (has_token tok x) with false; [reflexivity|].
  symmetry. apply String.eqb_neq. congruence.
Qed.

(** X10. A paid event for a credential that has a row in the
    aggregate: afterwards that row has the old balance plus the amount,
    the payer's email and name, and every other column as it was, in
    the aggregate and in the Durable Object the event addresses; no
    other row changes and no row is created. *)
Theorem payment_credits_known_user
    (request : Request) (env : Env) (version : string)
    (session : CheckoutSession) (w : World)
    (amount : Z) (id email tok : string) (r : Row) :
  faults w = [] ->
  delivers request env session ->
  accepted env session amount id email tok ->
  row_at w (aggregate version) tok = Some r ->
  exists w' r',
    handleStripeWebhook request env version w = (Ret processed, w')
    /\ row_at w' (aggregate version) tok = Some r'
    /\ credited amount email (payer_name session) r r'
    /\ match row_at w (event_shard version id) tok with
       | Some x =>
           exists x',
             row_at w' (event_shard version id) tok = Some x'
             /\ credited amount email (payer_name session) x x'
       | None => row_at w' (event_shard version id) tok = None
       end
    /\ forall n k, k <> tok -> row_at w' n k = row_at w n k.
Proof.
  intros Hf Hd Ha Hrow.
  destruct (known_user_credit request env version session w amount id email
              tok r Hf Hd Ha Hrow) as (w' & E & _ & Ragg & Rev & Hothers).
  exists w', (credit_row amount (Some email) (payer_name session) r).
  split; [exact E|]. split; [exact Ragg|]. split; [repeat split|].
  split; [|exact Hothers].
  rewrite Rev. destruct (row_at w (event_shard version id) tok) as [x|];
    [|reflexivity].
  eexists. split; [reflexivity|repeat split].
Qed.

(** X11. A paid event for a credential that has no row. When Stripe
    returns the payment method details and they prove no other identity
    (no row has the proven email as verified email or the card's
    fingerprint), the webhook creates the row of that credential with
    the paid amount as balance, the payer's email and name, the proven
    email and card fingerprint and the event's public identifier, in
    the Durable Object the event addresses and in the aggregate; no
    other row changes. When one of the two Stripe retrievals rejects,
    the exception escapes the webhook and no table changes: the payment
    is not credited. *)
Theorem first_payment_creates_user
    (request : Request) (env : Env) (version : string)
    (session : CheckoutSession) (w : World)
    (amount : Z) (id email tok : string) :
  faults w = [] ->
  delivers request env session ->
  accepted env session amount id email tok ->
  row_at w (aggregate version) tok = None ->
  row_at w (event_shard version id) tok = None ->
  (forall details,
      retrieve_payment_method_details (STRIPE_SECRET env) session
      = Some details ->
      alternate_identity (shard w (aggregate version)) details email = None ->
      let created :=
        paid_row tok amount id email (payer_name session) details in
      exists w',
        handleStripeWebhook request env version w = (Ret processed, w')
        /\ row_at w' (event_shard version id) tok = Some created
        /\ row_at w' (aggregate version) tok = Some created
        /\ forall n k, k <> tok -> row_at w' n k = row_at w n k)
  /\ (retrieve_payment_method_details (STRIPE_SECRET env) session = None ->
      exists w',
        handleStripeWebhook request env version w = (Throw, w')
        /\ same_store w w').
Proof.
  intros Hf Hd (Hp & Hi & He & Hs & Hdec) Hnone Hfree.
  rewrite (delivered_checkout _ _ _ _ _ Hd). unfold checkout_completed.
  destruct (paid_amount_inv _ _ Hp) as [Ha Hguard]. rewrite Ha, Hguard.
  unfold public_identifier, payer_email in Hi, He. rewrite Hi, He, Hs.
  cbn [negb]. rewrite Hdec.
  destruct (exec_read (createAggregateClient version) (SelectByAccessToken tok)
              w _ Hf eq_refl eq_refl) as (w1 & E1 & F1 & U1 & N1 & S1).
  split;
    [intros details Hret Halt;
     set (created := paid_row tok amount id email (payer_name session) details)
    |intros Hret];
    unfold bind at 1; rewrite E1; cbn [one];
    change (first_row (has_token tok)
              (shard w (main (createAggregateClient version))))
      with (row_at w (aggregate version) tok);
    rewrite Hnone, Hret;
    [|exists w1; split; [reflexivity|exact S1]].
  change (match details with
          | Some d => if String.eqb (payment_method_type d) "link"
                      then Some email else None
          | None => None
          end) with (proven_email details email).
  destruct (lookup_no_fault version (or_null (proven_email details email))
              SelectByVerifiedEmail row_verified_email w1 F1
              ltac:(reflexivity)) as (w2 & E2 & F2 & U2 & N2 & S2).
  unfold bind at 1. rewrite E2.
  destruct (lookup_no_fault version (or_null (details ≫= card_fingerprint_of))
              SelectByCardFingerprint row_card_fingerprint w2 F2
              ltac:(reflexivity)) as (w3 & E3 & F3 & U3 & N3 & S3).
  unfold bind at 1. rewrite E3.
  rewrite (S2 (aggregate version)), (S1 (aggregate version)).
  unfold alternate_identity in Halt. cbv zeta in Halt. rewrite Halt.
  assert (S03 : same_store w w3)
    by (eapply same_store_trans; [|eassumption];
        eapply same_store_trans; eassumption).
  assert (R3 : forall n k, row_at w3 n k = row_at w n k)
    by (intros n k; apply row_at_same_store, S03).
  assert (Hfree3 : row_at w3 (event_shard version id)
                     (row_access_token created) = None)
    by (rewrite R3; exact Hfree).
  destruct (exec_insert_no_fault version id
              (InsertUser tok amount (Some email)
                 (or_null (proven_email details email))
                 (or_null (details ≫= card_fingerprint_of))
                 (payer_name session) id)
              created w3 F3 (fun t => eq_refl) Hfree3)
    as (w4 & E4 & _ & _ & _ & R4).
  unfold bind at 1.
  change (or_null (customer_details session ≫= customer_name))
    with (payer_name session).
  rewrite E4. unfold ret.
  cbn [row_access_token created paid_row] in R4.
  exists w4. split; [reflexivity|].
  assert (Hnew : forall n,
    n = event_shard version id \/ n = aggregate version ->
    row_at w4 n tok = Some created).
  { intros n Hn. rewrite R4. destruct (decide _) as [_|Hx].
    - now rewrite String.eqb_refl.
    - exfalso. apply Hx. destruct Hn as [Hn|Hn]; [now left|right].
      split; [exact Hn|]. rewrite R3. exact Hnone. }
  split; [apply Hnew; auto|]. split; [apply Hnew; auto|].
  intros n k Hk. rewrite R4, R3.
  replace (String.eqb tok k) with false
    by (symmetry; apply String.eqb_neq; congruence).
  now destruct (decide _).
Qed.

End PaymentFacts.

Lemma payment_credits_known_user_witness :
  let event := checkout "paid" 300 (Scenario.id_of Scenario.T1) in
  let w := Toy.world Scenario.funded [] in
  let paid :=
    mkRow Scenario.T1 800 (Some "Ada") (Some "ada@example.com") None None
          (Some "F1") (Some (Scenario.id_of Scenario.T1)) in
  exists w',
    handleStripeWebhook (P := Toy.crypto)
      (X := Toy.collaborators (Some event) None)
      webhook_request Toy.env "1" w
    = (Ret processed, w')
    /\ row_at w' (aggregate "1") Scenario.T1 = Some paid
    /\ row_at w' (event_shard "1" (Scenario.id_of Scenario.T1)) Scenario.T1
       = Some paid.
Proof.
  intros event w paid.
  assert (Hev : row_at w (event_shard "1" (Scenario.id_of Scenario.T1))
                  Scenario.T1 = Some Scenario.row1)
    by (vm_compute; reflexivity).
  assert (Hrow : forall r',
             credited 300 "ada@example.com" (Some "Ada") Scenario.row1 r' ->
             r' = paid).
  { intros [t b n e ve p f c] (H1 & H2 & H3 & H4 & H5 & H6 & H7 & H8).
    cbn [row_balance row_email row_name row_access_token row_verified_email
         row_verified_user_access_token row_card_fingerprint
         row_client_reference_id Scenario.row1] in *.
    subst. reflexivity. }
  destruct (payment_credits_known_user (P := Toy.crypto)
              (X := Toy.collaborators (Some event) None)
              webhook_request Toy.env "1" (event_object event) w
              300 (Scenario.id_of Scenario.T1) "ada@example.com" Scenario.T1
              Scenario.row1)
    as (w' & r' & E & A1 & C1 & A2 & _).
  - reflexivity.
  - exists "{}", "t=1,v1=signature", event. repeat split.
  - repeat split.
  - vm_compute. reflexivity.
  - rewrite Hev in A2. destruct A2 as (x' & A2 & C2).
    apply Hrow in C1, C2. subst r' x'.
    exists w'. split; [exact E|]. split; [exact A1|exact A2].
Defined.

Lemma first_payment_creates_user_witness :
  let event := checkout "paid" 300 (Scenario.id_of Scenario.T2) in
  let details := Some (mkPaymentMethod "card" (Some "F2")) in
  let w := Toy.world Scenario.funded [] in
  let created :=
    mkRow Scenario.T2 300 (Some "Ada") (Some "ada@example.com") None None
          (Some "F2") (Some (Scenario.id_of Scenario.T2)) in
  (exists w',
     handleStripeWebhook (P := Toy.crypto)
       (X := Toy.collaborators (Some event) details)
       webhook_request Toy.env "1" w
     = (Ret processed, w')
     /\ row_at w' (event_shard "1" (Scenario.id_of Scenario.T2)) Scenario.T2
        = Some created
     /\ row_at w' (aggregate "1") Scenario.T2 = Some created
     /\ forall n k, k <> Scenario.T2 -> row_at w' n k = row_at w n k)
  /\ (exists w',
        handleStripeWebhook (P := Toy.crypto)
          (X := Toy.collaborators_out_of_reach (Some event))
          webhook_request Toy.env "1" w
        = (Throw, w')
        /\ same_store w w').
Proof.
  intros event details w created.
  destruct (first_payment_creates_user (P := Toy.crypto)
              (X := Toy.collaborators (Some event) details)
              webhook_request Toy.env "1" (event_object event) w
              300 (Scenario.id_of Scenario.T2) "ada@example.com" Scenario.T2)
    as [H1 _].
  - reflexivity.
  - exists "{}", "t=1,v1=signature", event. repeat split.
  - repeat split.
  - vm_compute. reflexivity.
  - vm_compute. reflexivity.
  - destruct (first_payment_creates_user (P := Toy.crypto)
                (X := Toy.collaborators_out_of_reach (Some event))
                webhook_request Toy.env "1" (event_object event) w
                300 (Scenario.id_of Scenario.T2) "ada@example.com" Scenario.T2)
      as [_ H2].
    + reflexivity.
    + exists "{}", "t=1,v1=signature", event. repeat split.
    + repeat split.
    + vm_compute. reflexivity.
    + vm_compute. reflexivity.
    + split; [|exact (H2 eq_refl)].
      apply (H1 details eq_refl). vm_compute. reflexivity.
Defined.

Section WebhookAnswers.
Context {P : WebCrypto} {X : Collaborators}.
Import Sqlite SqliteFacts WorldFacts.

Lemma exec_lookup c q p w :
  (forall t, run q t = Some (t, mkResult (first_row p t) 0)) ->
  exists w',
    exec c q w
    = (if throws (next_fault w) then Throw
       else Ret (mkResult (first_row p (shard w (main c))) 0), w')
    /\ same_store w w'.
Proof.
  intros Hq. rewrite exec_unfold, Hq. cbv zeta.
  assert (S0 : same_store w (set_shard (main c) (shard w (main c)) (after_call w))).
  { intros n. rewrite shard_set_shard.
    destruct (String.eqb (main c) n) eqn:E; [|reflexivity].
    apply String.eqb_eq in E. now subst. }
  destruct (next_fault w); cbn [throws]; eexists;
    (split; [reflexivity|]); try exact S0; try apply same_store_refl.
  - intros n. rewrite shard_mirror_write. unfold apply_sql. rewrite Hq.
    destruct (decide _); apply S0.
  - intros n. apply shard_after_call.
Qed.

Lemma lookup_any version (sel : option string) (q : string -> Sql)
    (col : Row -> option string) w :
  (forall v t, run (q v) t = Some (t, mkResult (first_row (col_is col v) t) 0)) ->
  exists w',
    same_store w w'
    /\ ((match sel with
         | Some v =>
             let! r := exec (createAggregateClient version) (q v) in ret (one r)
         | None => ret None
         end) w = (Throw, w')
        \/ (match sel with
            | Some v =>
                let! r := exec (createAggregateClient version) (q v) in ret (one r)
            | None => ret None
            end) w
           = (Ret (match sel with
                   | Some v => first_row (col_is col v) (shard w (aggregate version))
                   | None => None
                   end), w')).
Proof.
  intros Hq. destruct sel as [v|].
  - destruct (exec_lookup (createAggregateClient version) (q v) _ w (Hq v))
      as (w' & E & S).
    exists w'. split; [exact S|]. unfold bind. rewrite E.
    destruct (throws (next_fault w)); [now left|now right].
  - exists w. split; [apply same_store_refl|now right].
Qed.

Lemma or_else_row (x y : option Row) v :
  or_null (or_else (option_map row_access_token x)
                   (option_map row_access_token y)) = Some v ->
  exists r, (x = Some r \/ y = Some r) /\ row_access_token r = v.
Proof.
  unfold or_null, or_else.
  destruct x as [rx|]; cbn [option_map].
  - destruct (nonempty (row_access_token rx)) eqn:Ex.
    + rewrite Ex. intros [= <-]. eauto.
    + destruct y as [ry|]; cbn [option_map]; [|discriminate].
      destruct (nonempty (row_access_token ry)); [|discriminate].
      intros [= <-]. eauto.
  - destruct y as [ry|]; cbn [option_map]; [|discriminate].
    destruct (nonempty (row_access_token ry)); [|discriminate].
    intros [= <-]. eauto.
Qed.

Lemma bind_settled {A} (m : M A) (k : A -> M Response) w :
  (forall a w1, m w = (Ret a, w1) ->
     match k a w1 with (Ret r, _) => settled r | (Throw, _) => True end) ->
  match bind m k w with (Ret r, _) => settled r | (Throw, _) => True end.
Proof.
  intros H. unfold bind. destruct (m w) as [[a|] w1]; [|exact I].
  now apply H.
Qed.

Lemma processed_settled {A} (m : M A) w :
  match (let! _ := m in ret processed) w with
  | (Ret r, _) => settled r
  | (Throw, _) => True
  end.
Proof.
  apply bind_settled. intros _ w1 _. left. reflexivity.
Qed.

Lemma checkout_settled env version session w :
  match checkout_completed env version session w with
  | (Ret r, _) => settled r
  | (Throw, _) => True
  end.
Proof.
  unfold checkout_completed.
  destruct (amount_total session) as [amount|]; [|right; reflexivity].
  destruct (negb _ || _); [right; reflexivity|].
  destruct (or_null (session_client_reference_id session)) as [id|];
    [|right; reflexivity].
  destruct (or_null (customer_details session ≫= customer_email)) as [email|];
    [|right; reflexivity].
  destruct (negb (nonempty (DB_SECRET env))); [right; reflexivity|].
  destruct (decryptToken id (DB_SECRET env)) as [tok|]; [|left; reflexivity].
  apply bind_settled. intros userResult w1 E1.
  destruct (exec_lookup (createAggregateClient version)
              (SelectByAccessToken tok) (has_token tok) w (fun t => eq_refl))
    as (w1' & E1' & S1).
  rewrite E1' in E1. destruct (throws (next_fault w)); [discriminate|].
  injection E1 as <- <-. cbn [one]. fold (aggregate version).
  destruct (first_row (has_token tok) (shard w (aggregate version)))
    as [r0|] eqn:Hrow.
  { apply processed_settled. }
  destruct (retrieve_payment_method_details (STRIPE_SECRET env) session)
    as [details|]; [|exact I].
  set (sel1 := or_null match details with
                       | Some d => if String.eqb (payment_method_type d) "link"
                                   then Some email else None
                       | None => None
                       end).
  destruct (lookup_any version sel1 SelectByVerifiedEmail row_verified_email
              w1' ltac:(reflexivity)) as (w2 & S2 & [E2|E2]);
    unfold bind at 1; rewrite E2; [exact I|].
  destruct (lookup_any version (or_null (details ≫= card_fingerprint_of))
              SelectByCardFingerprint row_card_fingerprint
              w2 ltac:(reflexivity)) as (w3 & S3 & [E3|E3]);
    unfold bind at 1; rewrite E3; [exact I|].
  match goal with
  | |- context [or_null (or_else (option_map row_access_token ?x)
                                 (option_map row_access_token ?y))] =>
      set (byEmail := x); set (byCard := y)
  end.
  destruct (or_null (or_else (option_map row_access_token byEmail)
                             (option_map row_access_token byCard)))
    as [v|] eqn:Ev.
  2:{ apply processed_settled. }
  assert (Hv : String.eqb v tok = false).
  { apply String.eqb_neq. intros ->.
    destruct (or_else_row _ _ _ Ev) as (r & Hr & Ht).
    assert (Hin : In r (shard w (aggregate version))).
    { destruct Hr as [Hr|Hr]; subst byEmail byCard.
      - destruct sel1; [|discriminate].
        apply first_row_some in Hr. destruct Hr as [_ Hr].
        now rewrite (S1 (aggregate version)) in Hr.
      - destruct (or_null (details ≫= card_fingerprint_of)); [|discriminate].
        apply first_row_some in Hr. destruct Hr as [_ Hr].
        now rewrite (S2 (aggregate version)), (S1 (aggregate version)) in Hr. }
    destruct (first_row_key_exists tok _ r Hin Ht) as [r' Hr'].
    congruence. }
  rewrite Hv. cbn [negb].
  apply bind_settled. intros _ w4 _. apply processed_settled.
Qed.

(** X12. Whatever the request, the store and the failures of the
    store, when [handleStripeWebhook] answers at all (no exception
    escapes) its status is 200 or 400: the answer 500 for a user found
    by payment details but not by access token cannot occur, because
    all three lookups read the same aggregate table. *)
Theorem webhook_never_reports_corruption (request : Request) (env : Env)
    (version : string) (w : World) :
  match handleStripeWebhook request env version w with
  | (Ret response, _) => status response = 200 \/ status response = 400
  | (Throw, _) => True
  end.
Proof.
  unfold handleStripeWebhook.
  destruct (request_body request) as [body|]; [|right; reflexivity].
  destruct (or_null (stripe_signature request)) as [signature|];
    [|right; reflexivity].
  destruct (constructEventAsync body signature
              (STRIPE_WEBHOOK_SIGNING_SECRET env)) as [event|];
    [|right; reflexivity].
  destruct (String.eqb (event_type event) "checkout.session.completed");
    [|left; reflexivity].
  apply checkout_settled.
Qed.


End WebhookAnswers.


(** ** Charging by access token *)

Section ChargeUserFacts.
Context {P : WebCrypto}.
Import Sqlite SqliteFacts WorldFacts.


End ChargeUserFacts.


(** ** Guards of the entry points *)

Section GuardFacts.
Context {P : WebCrypto} {X : Collaborators}.
Import Sqlite SqliteFacts WorldFacts.

Lemma configured_dec env :
  ~ configured env ->
  negb (nonempty (DB_SECRET env))
  || negb (nonempty (STRIPE_PAYMENT_LINK env))
  || negb (nonempty (STRIPE_PUBLISHABLE_KEY env))
  || negb (nonempty (STRIPE_SECRET env))
  || negb (nonempty (STRIPE_WEBHOOK_SIGNING_SECRET env)) = true.
Proof.
  unfold configured. intros H.
  destruct (nonempty (DB_SECRET env)); [|reflexivity].
  destruct (nonempty (STRIPE_PAYMENT_LINK env)); [|reflexivity].
  destruct (nonempty (STRIPE_PUBLISHABLE_KEY env)); [|reflexivity].
  destruct (nonempty (STRIPE_SECRET env)); [|reflexivity].
  destruct (nonempty (STRIPE_WEBHOOK_SIGNING_SECRET env)); [|reflexivity].
  exfalso. apply H. now repeat split.
Qed.

(** X15. While one of the five settings is missing or empty, the
    middleware answers every request, the webhook and the rotation
    endpoint included, with the same status 500 and touches nothing;
    [withStripeflare] returns that answer without calling the
    handler. *)
Theorem unconfigured_worker_answers_500 (handler : StripeflareFetchHandler)
    (version : option string) (request : Request) (env : Env) (w : World) :
  ~ configured env ->
  stripeBalanceMiddleware request env (default "1" version) w
  = (Ret (MwResponse not_configured), w)
  /\ withStripeflare handler version request env w = (Ret not_configured, w).
Proof.
  intros H. apply configured_dec in H.
  assert (E : stripeBalanceMiddleware request env (default "1" version) w
              = (Ret (MwResponse not_configured), w)).
  { unfold stripeBalanceMiddleware. now rewrite H. }
  split; [exact E|]. unfold withStripeflare, bind. now rewrite E.
Qed.

(** A request without a credential, with an empty one, or whose first
    lookup fails in the store, gets a session without a store handle,
    and no table has changed. *)
Lemma session_without_handle request env version w :
  credential request = None \/ credential request = Some ""
  \/ throws (next_fault w) = true ->
  exists s w',
    handleUserSession request env version w = (Ret s, w')
    /\ session_client s = None /\ same_store w w'
    /\ session_user s
       = new_user (access_token (session_user s))
           (encryptToken (access_token (session_user s)) (DB_SECRET env)).
Proof.
  intros Hc.
  assert (Htail : forall tok w1,
    same_store w w1 ->
    exists s w',
      (let! user :=
         (let! accessToken :=
            match tok with
            | Some tok =>
                if nonempty tok && uuidGeneralRegex tok then ret tok
                else randomUUID
            | None => randomUUID
            end in
          ret (new_user accessToken (encryptToken accessToken (DB_SECRET env)))) in
       ret (mkSession user None
              [("Set-Cookie",
                set_cookie env (hostname request) (access_token user))])) w1
      = (Ret s, w')
      /\ session_client s = None /\ same_store w w'
      /\ session_user s
         = new_user (access_token (session_user s))
             (encryptToken (access_token (session_user s)) (DB_SECRET env))).
  { intros tok w1 S. unfold bind, ret, randomUUID.
    destruct tok as [a|]; [destruct (nonempty a && uuidGeneralRegex a)|];
      eexists _, _; (split; [reflexivity|]); (split; [reflexivity|]);
      (split; [exact S|reflexivity]). }
  unfold handleUserSession.
  destruct (credential request) as [tok|] eqn:Ec.
  - destruct (nonempty tok) eqn:En.
    + destruct Hc as [Hc|[Hc|Hc]]; [discriminate| |].
      { injection Hc as ->. discriminate. }
      unfold bind at 1. unfold find_user. cbv zeta.
      unfold try_catch at 1. unfold bind at 1.
      destruct (exec_select
                  (createClient version
                     (getDOName (getClientReferenceId tok (DB_SECRET env))))
                  tok w) as (w1 & E1 & S1 & _).
      rewrite E1, Hc. unfold not_found, ret at 1.
      cbn [found_user accessToken found_client].
      apply (Htail (Some tok)). exact S1.
    + unfold bind at 1. unfold ret at 1.
      cbn [found_user accessToken found_client].
      apply (Htail (Some tok)). apply same_store_refl.
  - unfold bind at 1. unfold ret at 1.
    cbn [found_user accessToken found_client].
    apply (Htail None). apply same_store_refl.
Qed.

(** X16. [handleTokenRotation] answers a request that is not a [POST]
    with status 405 before it looks at the credential or the store; a
    [POST] without a credential, or whose lookup fails in the store, is
    answered with status 401 and leaves every table as it was. *)
Theorem rotation_refusals (request : Request) (env : Env)
    (version : string) (w : World) :
  (method request <> "POST" ->
   handleTokenRotation request env version w
   = (Ret (text 405 "Method not allowed"), w))
  /\ (method request = "POST" ->
      credential request = None \/ credential request = Some ""
      \/ throws (next_fault w) = true ->
      exists w',
        handleTokenRotation request env version w
        = (Ret (json_error 401 "Not authenticated"), w')
        /\ same_store w w').
Proof.
  split.
  - intros H. unfold handleTokenRotation.
    apply String.eqb_neq in H. now rewrite H.
  - intros Hm Hc. unfold handleTokenRotation. rewrite Hm.
    change (negb (String.eqb "POST" "POST")) with false. cbv iota.
    destruct (session_without_handle request env version w Hc)
      as (s & w' & Es & Hcl & S & _).
    exists w'. unfold bind. rewrite Es, Hcl. split; [reflexivity|exact S].
Qed.

End GuardFacts.

Lemma unconfigured_worker_answers_500_witness :
  let env := mkEnv "0123456789abcdef-secret" "" "sk_test" "pk_test"
                   "https://buy.stripe.com/test" None in
  let w := Toy.world Scenario.funded [] in
  stripeBalanceMiddleware (P := Toy.crypto) (X := Toy.collaborators None None)
    webhook_request env (default "1" None) w
  = (Ret (MwResponse not_configured), w)
  /\ withStripeflare (P := Toy.crypto) (X := Toy.collaborators None None)
       Overdraft.handler None webhook_request env w
     = (Ret not_configured, w).
Proof.
  intros env w.
  apply (unconfigured_worker_answers_500 (P := Toy.crypto)
           (X := Toy.collaborators None None)
           Overdraft.handler None webhook_request env w).
  intros (_ & _ & _ & _ & H). discriminate H.
Defined.

Lemma rotation_refusals_witness :
  handleTokenRotation (P := Toy.crypto)
    (request_with_cookie "/rotate-token" Scenario.T1) Toy.env "1"
    (Toy.world Scenario.funded [])
  = (Ret (text 405 "Method not allowed"), Toy.world Scenario.funded [])
  /\ exists w',
       handleTokenRotation (P := Toy.crypto) (rotate_request Scenario.T1)
         Toy.env "1" (Toy.world Scenario.funded [ThrowBefore])
       = (Ret (json_error 401 "Not authenticated"), w')
       /\ same_store (Toy.world Scenario.funded [ThrowBefore]) w'.
Proof.
  split.
  - apply (rotation_refusals (P := Toy.crypto)
             (request_with_cookie "/rotate-token" Scenario.T1) Toy.env "1"
             (Toy.world Scenario.funded [])).
    discriminate.
  - apply (rotation_refusals (P := Toy.crypto) (rotate_request Scenario.T1)
             Toy.env "1" (Toy.world Scenario.funded [ThrowBefore])).
    + reflexivity.
    + right. right. reflexivity.
Defined.

(** ** Headers of a wrapped response *)

Module HeaderFacts.
Import Headers.

Lemma same_name_refl a : same_name a a = true.
Proof. apply String.eqb_refl. Qed.

Lemma same_name_trans a b c :
  same_name a b = true -> same_name b c = false -> same_name a c = false.
Proof.
  unfold same_name. intros H1 H2. apply String.eqb_eq in H1. now rewrite H1.
Qed.

Lemma get_app_miss name h1 h2 :
  (forall kv, In kv h1 -> same_name (fst kv) name = false) ->
  get name (h1 ++ h2) = get name h2.
Proof.
  induction h1 as [|[k v] h1 IH]; [reflexivity|]. intros H.
  cbn [app get]. pose proof (H (k, v) (or_introl eq_refl)) as Hk.
  cbn [fst] in Hk. rewrite Hk.
  apply IH. intros kv Hin. apply H. now right.
Qed.

Lemma get_set_eq name value h : get name (set name value h) = Some value.
Proof.
  unfold set. rewrite get_app_miss.
  - cbn [get]. now rewrite same_name_refl.
  - intros kv Hin. apply list_elem_of_In, list_elem_of_filter in Hin.
    destruct Hin as [Hin _]. now destruct (same_name (fst kv) name).
Qed.

Lemma get_set_ne name' name value h :
  same_name name' name = false ->
  get name (set name' value h) = get name h.
Proof.
  intros Hne. unfold set, t.
  induction h as [|[k v] h IH].
  - change (get name [(name', value)] = get name []).
    cbn [get]. now rewrite Hne.
  - rewrite filter_cons. cbn [fst get].
    destruct (same_name k name') eqn:E.
    + cbn [negb]. destruct (decide _) as [Hd|_]; [now destruct Hd|].
      rewrite IH. now rewrite (same_name_trans _ _ _ E Hne).
    + cbn [negb]. destruct (decide _) as [_|Hd]; [|exfalso; apply Hd; exact I].
      cbn [app get]. now rewrite IH.
Qed.

End HeaderFacts.

Section WrappedFacts.
Context {P : WebCrypto} {X : Collaborators}.
Import HeaderFacts.

Lemma middleware_session_cookie request env version w user headers client
    paymentLink registered ch w1 :
  stripeBalanceMiddleware request env version w
  = (Ret (MwSession user headers client paymentLink registered ch), w1) ->
  headers
  = [("Set-Cookie", set_cookie env (hostname request) (access_token user))].
Proof.
  assert (Hs : forall w0,
    session_result request env version w0
    = (Ret (MwSession user headers client paymentLink registered ch), w1) ->
    headers
    = [("Set-Cookie", set_cookie env (hostname request) (access_token user))]).
  { intros w0. unfold session_result, bind.
    destruct (handleUserSession request env version w0) as [[s|] w2] eqn:E;
      [|discriminate].
    apply session_inv in E. destruct E as [_ E].
    destruct (String.eqb (pathname request) "/me"); [discriminate|].
    unfold ret. intros [= <- <- <- <- <- <- <-]. exact E. }
  unfold stripeBalanceMiddleware.
  destruct (_ || _); [discriminate|].
  destruct (String.eqb (pathname request) "/rotate-token").
  { unfold bind. destruct (handleTokenRotation _ _ _ w) as [[?|] ?]; discriminate. }
  destruct (String.eqb (pathname request) "/stripe-webhook").
  { unfold bind. destruct (handleStripeWebhook _ _ _ w) as [[?|] ?]; discriminate. }
  destruct (Str.startsWith (pathname request) "/db/"); [|apply Hs].
  unfold bind.
  match goal with
  | |- context [match ?m w with _ => _ end] =>
      destruct (m w) as [[secret|] w0]; [|discriminate]
  end.
  destruct (dorm_middleware _ _ _ _ _ w0) as [[[resp|]|] w2];
    [discriminate|apply Hs|discriminate].
Qed.

Lemma wrapped_headers env request user paymentLink response balance :
  wrapped env request user paymentLink response
    (mkResponse (status response) (body response)
       (let newHeaders :=
          Headers.set "x-payment-link" (default "undefined" paymentLink)
            (Headers.set "Set-Cookie"
               (set_cookie env (hostname request) (access_token user))
               (response_headers response)) in
        match Headers.get "X-Balance" (response_headers response) with
        | Some v => if nonempty v then newHeaders
                    else Headers.set "X-Balance" (pretty balance) newHeaders
        | None => Headers.set "X-Balance" (pretty balance) newHeaders
        end))
    balance.
Proof.
  unfold wrapped, reported_balance. cbn [status body response_headers]. cbv zeta.
  split; [reflexivity|]. split; [reflexivity|].
  assert (T : forall name' name value h,
             Headers.same_name name' name = false ->
             Headers.get name (Headers.set name' value h) = Headers.get name h)
    by apply get_set_ne.
  destruct (Headers.get "X-Balance" (response_headers response)) as [v|] eqn:Ev;
    [destruct (nonempty v)|];
    (split; [|split; [|split]]);
    try (intros name (H1 & H2 & H3));
    repeat first [ rewrite get_set_eq
                 | rewrite T by first [reflexivity | assumption] ];
    first [reflexivity | assumption].
Qed.

(** X17. The response of [withStripeflare] has the status and body of
    the handler's response and its headers, except that [Set-Cookie]
    is replaced by the session's cookie and [x-payment-link] by the
    payment link, and that [X-Balance] is added when the handler set
    none: the user's balance as the session read it, less the price
    when the response carried a positive [X-Price] and the charge went
    through. Without a positive price nothing is charged. *)
Theorem wrapper_reports_balance
    (handler : StripeflareFetchHandler) (version : option string)
    (request : Request) (env : Env) (w w1 w2 : World)
    (user : StripeUser) (headers : Headers.t) (client : option Client)
    (paymentLink : option string) (registered : bool)
    (ch : Z -> bool -> M ChargeResult) (response : Response) :
  stripeBalanceMiddleware request env (default "1" version) w
  = (Ret (MwSession user headers client paymentLink registered ch), w1) ->
  handler request env (mkContext user ch client paymentLink registered) w1
  = (Ret response, w2) ->
  ((forall price, price_of response = Some price -> price <= 0) ->
   exists response',
     withStripeflare handler version request env w = (Ret response', w2)
     /\ wrapped env request user paymentLink response response'
          (balance user))
  /\ (forall price result w3,
        price_of response = Some price -> 0 < price ->
        ch price true w2 = (Ret result, w3) ->
        exists response',
          withStripeflare handler version request env w = (Ret response', w3)
          /\ wrapped env request user paymentLink response response'
               (if charged result then balance user - price
                else balance user)).
Proof.
  intros Hm Hh.
  pose proof (middleware_session_cookie _ _ _ _ _ _ _ _ _ _ _ Hm) as Hc.
  subst headers.
  split.
  - intros Hp. eexists. split; [|apply wrapped_headers].
    unfold withStripeflare. unfold bind at 1. rewrite Hm.
    unfold bind at 1. rewrite Hh. cbv zeta. cbn [foldl fst snd].
    destruct (price_of response) as [price|] eqn:Ep.
    + specialize (Hp price eq_refl).
      replace (0 <? price) with false by (symmetry; apply Z.ltb_ge; lia).
      reflexivity.
    + reflexivity.
  - intros price result w3 Ep Hpos Hch.
    eexists. split; [|apply wrapped_headers].
    unfold withStripeflare. unfold bind at 1. rewrite Hm.
    unfold bind at 1. rewrite Hh. cbv zeta. cbn [foldl fst snd].
    rewrite Ep.
    replace (0 <? price) with true by (symmetry; apply Z.ltb_lt; lia).
    unfold bind at 1. unfold bind at 1. rewrite Hch.
    destruct (charged result); reflexivity.
Qed.

End WrappedFacts.

Lemma wrapper_reports_balance_witness :
  exists response',
    withStripeflare (P := Toy.crypto) (X := Toy.collaborators None None)
      Overdraft.handler (Some "1") Overdraft.request Toy.env Overdraft.start
    = (Ret response',
       snd (charge (Some Overdraft.client) (user_of_row Scenario.row1)
              600 true Overdraft.resolved))
    /\ wrapped Toy.env Overdraft.request (user_of_row Scenario.row1)
         (payment_link Toy.env (user_of_row Scenario.row1))
         (mkResponse 200 (Text "ok") [("X-Price", "600")]) response'
         (500 - 600).
Proof.
  assert (Hs : handleUserSession (P := Toy.crypto) Overdraft.request Toy.env "1"
                 Overdraft.start
               = (Ret (mkSession (user_of_row Scenario.row1)
                         (Some Overdraft.client)
                         [("Set-Cookie",
                           set_cookie Toy.env "example.com" Scenario.T1)]),
                  Overdraft.resolved))
    by (vm_compute; reflexivity).
  pose proof (middleware_session_of (P := Toy.crypto)
                (X := Toy.collaborators None None)
                Overdraft.request Toy.env "1" Overdraft.start _ _
                ltac:(repeat split) eq_refl eq_refl eq_refl eq_refl Hs) as Hm.
  cbn [session_user session_headers session_client] in Hm.
  destruct (wrapper_reports_balance (P := Toy.crypto)
              (X := Toy.collaborators None None)
              Overdraft.handler (Some "1") Overdraft.request Toy.env
              Overdraft.start Overdraft.resolved Overdraft.resolved
              _ _ _ _ _ _ (mkResponse 200 (Text "ok") [("X-Price", "600")])
              Hm eq_refl) as [_ H].
  apply (H 600 successfully_charged
           (snd (charge (Some Overdraft.client) (user_of_row Scenario.row1)
                   600 true Overdraft.resolved))).
  - reflexivity.
  - reflexivity.
  - vm_compute. reflexivity.
Defined.

(** ** The admin panel *)

Section AdminPanelFacts.
Context {P : WebCrypto} {X : Collaborators} (L : WebCryptoLaws P).
Import Str StrFacts ShapeFacts.

Lemma all_chars_occurs p c s :
  all_chars p s = true -> p c = false -> occurs c s = false.
Proof.
  intros H Hc. induction s as [|x s IH]; [reflexivity|].
  cbn [all_chars occurs] in *. apply andb_true_iff in H. destruct H as [H1 H2].
  rewrite (IH H2), orb_false_r. apply Ascii.eqb_neq. intros ->. congruence.
Qed.

Lemma encryptToken_length token secret :
  (16 <= String.length (encryptToken token secret))%nat.
Proof.
  unfold encryptToken, arrayBufferToBase64Url.
  destruct (url_btoa_shape
              (string_of_list_byte
                 (generateIV token
                  ++ AES_GCM_encrypt (deriveKey secret) (generateIV token)
                       (TextEncoder_encode token)))) as [_ H].
  unfold Base64Url.url in H. rewrite H.
  rewrite length_string_of_list_byte, length_app, (generateIV_length L).
  unfold IV_LENGTH. apply Nat.div_le_lower_bound; lia.
Qed.

Lemma name_of_path name rest :
  occurs "/" name = false ->
  rest = "" \/ (exists more, rest = String "/" more) ->
  nth 2 (split "/" ("/db/" +:+ name +:+ rest)) "" = name.
Proof.
  intros Hn Hr.
  change ("/db/" +:+ name +:+ rest)
    with (String "/" (String "d" (String "b" (String "/" (name +:+ rest))))).
  assert (E : exists l, split "/" (name +:+ rest) = name :: l).
  { destruct Hr as [->|[more ->]].
    - exists []. replace (name +:+ "") with name.
      + now apply split_none.
      + clear. induction name as [|c v IH]; [reflexivity|].
        rewrite append_cons. now rewrite <- IH.
    - rewrite split_app, (split_none _ _ Hn). eexists. reflexivity. }
  destruct E as [l E]. cbn [split]. rewrite E. reflexivity.
Qed.

(** X18. For a path [/db/<name>] (or [/db/<name>/...]) the middleware
    hands the request to the admin panel of one Durable Object: for
    [admin-readonly] the aggregate, with user name [admin-readonly] and
    the database secret as password; for the public identifier of an
    access token the Durable Object of that access token, with user
    name [user-<identifier>] and the access token itself as password.
    A name that is neither makes the middleware throw before anything
    is touched. *)
Theorem admin_panel_routing (request : Request) (env : Env)
    (version : string) (w : World) (name rest : string) :
  configured env ->
  pathname request = "/db/" +:+ name +:+ rest ->
  occurs "/" name = false ->
  rest = "" \/ (exists more, rest = String "/" more) ->
  (name = AGGREGATE_NAME ->
   stripeBalanceMiddleware request env version w
   = (let! r := dorm_middleware
                  (mkClient (aggregate version) (Some (aggregate version)))
                  request "/db/admin-readonly" "admin-readonly"
                  (DB_SECRET env) in
      after_admin_panel request env version r) w)
  /\ (forall tok,
        name = encryptToken tok (DB_SECRET env) ->
        stripeBalanceMiddleware request env version w
        = (let! r := dorm_middleware
                       (mkClient (home env version tok) None)
                       request ("/db/" +:+ name) ("user-" +:+ name) tok in
           after_admin_panel request env version r) w)
  /\ (name <> AGGREGATE_NAME ->
      decryptToken name (DB_SECRET env) = None ->
      stripeBalanceMiddleware request env version w = (Throw, w)).
Proof.
  intros (C1 & C2 & C3 & C4 & C5) Hp Hn Hr.
  assert (Hname : nth 2 (split "/" (pathname request)) "" = name)
    by (rewrite Hp; now apply name_of_path).
  assert (Hstart : stripeBalanceMiddleware request env version w
    = (let nameParam := name in
       let isAggregate := String.eqb nameParam AGGREGATE_NAME in
       let doName := if isAggregate then AGGREGATE_NAME else getDOName nameParam in
       let! secret :=
         if isAggregate then ret (DB_SECRET env)
         else match decryptToken nameParam (DB_SECRET env) with
              | Some tok => ret tok
              | None => throw
              end in
       let client :=
         mkClient (version +:+ "-" +:+ doName)
                  (if isAggregate
                   then Some (version +:+ "-" +:+ AGGREGATE_NAME) else None) in
       let! middlewareResponse :=
         dorm_middleware client request ("/db/" +:+ nameParam) doName secret in
       after_admin_panel request env version middlewareResponse) w).
  { unfold stripeBalanceMiddleware. rewrite C1, C2, C3, C4, C5. cbn [negb orb].
    rewrite Hname, Hp.
    change ("/db/" +:+ name +:+ rest)
      with (String "/" (String "d" (String "b" (String "/" (name +:+ rest))))).
    set (tail := String "b" (String "/" (name +:+ rest))).
    replace (String.eqb (String "/" (String "d" tail)) "/rotate-token")
      with false by reflexivity.
    replace (String.eqb (String "/" (String "d" tail)) "/stripe-webhook")
      with false by reflexivity.
    replace (startsWith (String "/" (String "d" tail)) "/db/")
      with true by (symmetry; apply (startsWith_app "/db/" (name +:+ rest))).
    reflexivity. }
  rewrite Hstart. cbv zeta. split; [|split].
  - intros ->. reflexivity.
  - intros tok ->.
    assert (Hne : String.eqb (encryptToken tok (DB_SECRET env)) AGGREGATE_NAME
                  = false).
    { apply String.eqb_neq. intros E.
      pose proof (encryptToken_length tok (DB_SECRET env)) as Hl.
      rewrite E in Hl. cbn in Hl. lia. }
    rewrite Hne, (decrypt_encrypt_any L). reflexivity.
  - intros Hne Hd. apply String.eqb_neq in Hne. rewrite Hne, Hd. reflexivity.
Qed.

End AdminPanelFacts.

Lemma admin_panel_routing_witness :
  let request :=
    mkRequest "GET" ("/db/" +:+ Scenario.id_of Scenario.T1 +:+ "/query")
              "example.com" None None None None in
  let w := Toy.world Scenario.funded [] in
  stripeBalanceMiddleware (P := Toy.crypto) (X := Toy.collaborators None None)
    request Toy.env "1" w
  = (let! r := dorm_middleware (Collaborators := Toy.collaborators None None)
                 (mkClient (Scenario.home_of Scenario.T1) None)
                 request ("/db/" +:+ Scenario.id_of Scenario.T1)
                 ("user-" +:+ Scenario.id_of Scenario.T1) Scenario.T1 in
     after_admin_panel (P := Toy.crypto) (X := Toy.collaborators None None)
       request Toy.env "1" r) w.
Proof.
  intros request w.
  apply (admin_panel_routing (P := Toy.crypto)
           (X := Toy.collaborators None None) toy_laws request Toy.env "1" w
           (Scenario.id_of Scenario.T1) "/query").
  - repeat split.
  - reflexivity.
  - vm_compute. reflexivity.
  - right. eexists. reflexivity.
  - reflexivity.
Defined.

(** ** The page templates *)

Section TemplateFacts.
Context {P : WebCrypto} {X : Collaborators}.
Variable template : string.
Variable JSON_stringify : JsObject -> string.
Variable Date_now : World -> Z.
Import Sqlite SqliteFacts WorldFacts HeaderFacts.

Lemma keys_assign {A} key (v : A) o k :
  In k (map fst (assign key v o)) -> k = key \/ In k (map fst o).
Proof.
  induction o as [|[k0 x] o IH]; cbn [assign map fst In].
  - intros [H|[]]. now left.
  - destruct (String.eqb k0 key) eqn:E; cbn [map fst In].
    + intros [H|H]; [right; now left|right; now right].
    + intros [H|H]; [right; now left|].
      destruct (IH H) as [H'|H']; [now left|right; now right].
Qed.

Lemma keys_rest_of u k :
  In k (keys (rest_of u)) ->
  k <> "access_token" /\ k <> "verified_user_access_token".
Proof.
  unfold keys, rest_of. intros H. apply in_map_iff in H.
  destruct H as ([k' v] & <- & H). cbn [fst].
  apply list_elem_of_In, list_elem_of_filter in H. destruct H as [H _].
  cbn [fst] in H. apply Is_true_true, negb_true_iff, orb_false_iff in H.
  destruct H as [H1 H2]. apply String.eqb_neq in H1, H2. now split.
Qed.

Lemma keys_rest_cri u s :
  client_reference_id u = Val s -> In "client_reference_id" (keys (rest_of u)).
Proof.
  intros H. unfold keys, rest_of. apply in_map_iff.
  exists ("client_reference_id", JString s). split; [reflexivity|].
  apply list_elem_of_In, list_elem_of_filter. split; [exact I|].
  apply list_elem_of_In. unfold properties. rewrite H.
  repeat (apply in_or_app; right). now left.
Qed.

(** X19. The page of [template-with-stripeflare.ts] costs its visitor
    one cent a view, charged with [allowNegativeBalance = true]: for a
    user with a stored row, the row has afterwards the old balance less
    1, also from zero or below, and every other column as it was, and
    [X-Balance] reports the balance the session read less 1. The data
    the page embeds never holds [access_token] or
    [verified_user_access_token]. *)
Theorem priced_page_costs_one_cent
    (request : Request) (env : Env) (w w1 : World)
    (user : StripeUser) (headers : Headers.t) (client : Client)
    (paymentLink : option string) (registered : bool)
    (ch : Z -> bool -> M ChargeResult) (r : Row) :
  Number "1" = Some 1 ->
  stripeBalanceMiddleware request env "1" w
  = (Ret (MwSession user headers (Some client) paymentLink registered ch), w1) ->
  faults w1 = [] ->
  nonempty (access_token user) = true ->
  row_at w1 (main client) (access_token user) = Some r ->
  let data :=
    assign "paymentLink" (JString (STRIPE_PAYMENT_LINK env)) (rest_of user) in
  exists response w2 r',
    template_with_stripeflare_fetch template JSON_stringify request env w
    = (Ret response, w2)
    /\ status response = 200
    /\ body response = Text (inject template JSON_stringify data)
    /\ ~ In "access_token" (keys data)
    /\ ~ In "verified_user_access_token" (keys data)
    /\ Headers.get "X-Balance" (response_headers response)
       = Some (pretty (balance user - 1))
    /\ row_at w2 (main client) (access_token user) = Some r'
    /\ debited 1 r r'
    /\ (forall k, k <> access_token user ->
                  row_at w2 (main client) k = row_at w1 (main client) k).
Proof.
  intros HN Hm Hf Hn Hrow data.
  destruct (middleware_session _ _ _ _ _ _ _ _ _ _ _ Hm) as [-> Hcl].
  destruct (Hcl client eq_refl) as [cri ->].
  pose proof (middleware_session_cookie _ _ _ _ _ _ _ _ _ _ _ Hm) as ->.
  destruct (exec_update_no_fault "1" cri
              (UpdateBalanceSub 1 (access_token user))
              (has_token (access_token user))
              (fun x => set_balance (row_balance x - 1) x)
              w1 Hf (fun t => eq_refl) (fun x => eq_refl))
    as (w2 & E & _ & _ & _ & R).
  change (event_shard "1" cri) with (main (createClient "1" (getDOName cri))) in *.
  set (response :=
         mkResponse 200 (Text (inject template JSON_stringify data))
           [("Content-Type", "text/html"); ("X-Price", "1")]).
  assert (Hw : wrapped env request user paymentLink response
                 (mkResponse (status response) (body response)
                    (let newHeaders :=
                       Headers.set "x-payment-link"
                         (default "undefined" paymentLink)
                         (Headers.set "Set-Cookie"
                            (set_cookie env (hostname request)
                               (access_token user))
                            (response_headers response)) in
                     match Headers.get "X-Balance" (response_headers response) with
                     | Some v => if nonempty v then newHeaders
                                 else Headers.set "X-Balance"
                                        (pretty (balance user - 1)) newHeaders
                     | None => Headers.set "X-Balance"
                                 (pretty (balance user - 1)) newHeaders
                     end))
                 (balance user - 1)) by apply wrapped_headers.
  eexists _, w2, (set_balance (row_balance r - 1) r). split.
  - unfold template_with_stripeflare_fetch, withStripeflare.
    unfold bind at 1. cbn [default]. rewrite Hm.
    unfold bind at 1. unfold priced_page at 1. unfold ret at 1.
    cbv zeta. cbn [ctx_user]. fold data. fold response.
    assert (Hg : Headers.get "x-price" (response_headers response) = Some "1")
      by reflexivity.
    replace (price_of response) with (Some 1)
      by (unfold price_of; rewrite Hg; change (nonempty "1") with true;
          now rewrite HN).
    change (0 <? 1) with true. cbv iota.
    unfold bind at 1. unfold bind at 1. unfold charge at 1. rewrite Hn.
    unfold bind at 1. rewrite E. cbn [rowsWritten].
    assert (Hc : Nat.eqb (count_rows (has_token (access_token user))
                            (shard w1 (main (createClient "1" (getDOName cri))))) 0
                 = false).
    { apply Nat.eqb_neq. eapply count_rows_some. exact Hrow. }
    rewrite Hc. unfold ret. cbn [charged successfully_charged foldl fst snd].
    reflexivity.
  - destruct Hw as (_ & _ & _ & _ & Hb & _).
    cbn [status body]. split; [reflexivity|]. split; [reflexivity|].
    assert (Hk : forall k, In k (keys data) ->
                   k <> "access_token" /\ k <> "verified_user_access_token").
    { intros k Hk. unfold data, keys in Hk.
      apply keys_assign in Hk. destruct Hk as [->|Hk].
      - split; discriminate.
      - apply (keys_rest_of user). exact Hk. }
    split; [intros H; now apply Hk in H|].
    split; [intros H; now apply Hk in H|].
    split; [exact Hb|].
    split; [|split].
    + rewrite R. destruct (decide _) as [_|Hx]; [|exfalso; apply Hx; now left].
      rewrite Hrow. cbn [option_map].
      apply first_row_token, has_token_eq in Hrow. now rewrite Hrow.
    + repeat split.
    + intros k Hk'. rewrite R. destruct (decide _); [|reflexivity].
      destruct (row_at w1 _ k) as [x|] eqn:Ex; [|reflexivity]. cbn.
      apply first_row_token in Ex.
      replace (has_token (access_token user) x) with false; [reflexivity|].
      symmetry. apply String.eqb_neq. congruence.
Qed.


End TemplateFacts.

Lemma priced_page_costs_one_cent_witness :
  let template := "<html><head></head><body></body></html>" in
  let stringify := fun o : JsObject => String.concat "," (keys o) in
  let user := user_of_row Scenario.row1 in
  let data :=
    assign "paymentLink" (JString (STRIPE_PAYMENT_LINK Toy.env)) (rest_of user) in
  exists response w2,
    template_with_stripeflare_fetch (P := Toy.crypto)
      (X := Toy.collaborators None None) template stringify
      Overdraft.request Toy.env Overdraft.start
    = (Ret response, w2)
    /\ status response = 200
    /\ body response = Text (inject template stringify data)
    /\ ~ In "access_token" (keys data)
    /\ ~ In "verified_user_access_token" (keys data)
    /\ Headers.get "X-Balance" (response_headers response) = Some "499"
    /\ row_at w2 (main Overdraft.client) Scenario.T1
       = Some (mkRow Scenario.T1 499 (Some "Ada") (Some "ada@example.com")
                 None None (Some "F1") (Some (Scenario.id_of Scenario.T1))).
Proof.
  intros template stringify user data.
  assert (Hs : handleUserSession (P := Toy.crypto) Overdraft.request Toy.env "1"
                 Overdraft.start
               = (Ret (mkSession (user_of_row Scenario.row1)
                         (Some Overdraft.client)
                         [("Set-Cookie",
                           set_cookie Toy.env "example.com" Scenario.T1)]),
                  Overdraft.resolved))
    by (vm_compute; reflexivity).
  pose proof (middleware_session_of (P := Toy.crypto)
                (X := Toy.collaborators None None)
                Overdraft.request Toy.env "1" Overdraft.start _ _
                ltac:(repeat split) eq_refl eq_refl eq_refl eq_refl Hs) as Hm.
  cbn [session_user session_headers session_client] in Hm.
  assert (Hrow : forall r', debited 1 Scenario.row1 r' ->
             r' = mkRow Scenario.T1 499 (Some "Ada") (Some "ada@example.com")
                    None None (Some "F1") (Some (Scenario.id_of Scenario.T1))).
  { intros [t b n e ve p f c] (H1 & H2 & H3 & H4 & H5 & H6 & H7 & H8).
    cbn [row_balance row_email row_name row_access_token row_verified_email
         row_verified_user_access_token row_card_fingerprint
         row_client_reference_id Scenario.row1] in *.
    subst. reflexivity. }
  destruct (priced_page_costs_one_cent (P := Toy.crypto)
              (X := Toy.collaborators None None) template stringify
              Overdraft.request Toy.env Overdraft.start Overdraft.resolved
              _ _ _ _ _ _ Scenario.row1 eq_refl Hm)
    as (response & w2 & r' & E & H1 & H2 & H3 & H4 & H5 & H6 & H7 & _).
  - reflexivity.
  - reflexivity.
  - vm_compute. reflexivity.
  - apply Hrow in H7. subst r'.
    exists response, w2. split; [exact E|]. split; [exact H1|].
    split; [exact H2|]. split; [exact H3|]. split; [exact H4|].
    split; [exact H5|exact H6].
Defined.


(** ** Payments and sessions together *)

Section JourneyFacts.
Context {P : WebCrypto} {X : Collaborators}.
Import Sqlite SqliteFacts WorldFacts.



(** X22. The webhook keeps no record of the events it has handled: the
    same paid event delivered twice for a credential that has a row is
    credited twice. *)
Theorem replayed_event_credits_twice
    (request : Request) (env : Env) (version : string)
    (session : CheckoutSession) (w : World)
    (amount : Z) (id email tok : string) (r : Row) :
  faults w = [] ->
  delivers request env session ->
  accepted env session amount id email tok ->
  row_at w (aggregate version) tok = Some r ->
  exists w1 w2,
    handleStripeWebhook request env version w = (Ret processed, w1)
    /\ handleStripeWebhook request env version w1 = (Ret processed, w2)
    /\ option_map row_balance (row_at w1 (aggregate version) tok)
       = Some (row_balance r + amount)
    /\ option_map row_balance (row_at w2 (aggregate version) tok)
       = Some (row_balance r + amount + amount).
Proof.
  intros Hf Hd Ha Hrow.
  destruct (known_user_credit request env version session w amount id email
              tok r Hf Hd Ha Hrow) as (w1 & E1 & F1 & R1 & _).
  destruct (known_user_credit request env version session w1 amount id email
              tok _ F1 Hd Ha R1) as (w2 & E2 & _ & R2 & _).
  exists w1, w2. split; [exact E1|]. split; [exact E2|].
  rewrite R1, R2. split; reflexivity.
Qed.

End JourneyFacts.


Lemma replayed_event_credits_twice_witness :
  let event := checkout "paid" 300 (Scenario.id_of Scenario.T1) in
  exists w1 w2,
    handleStripeWebhook (P := Toy.crypto)
      (X := Toy.collaborators (Some event) None)
      webhook_request Toy.env "1" (Toy.world Scenario.funded [])
    = (Ret processed, w1)
    /\ handleStripeWebhook (P := Toy.crypto)
         (X := Toy.collaborators (Some event) None)
         webhook_request Toy.env "1" w1
       = (Ret processed, w2)
    /\ option_map row_balance (row_at w1 (aggregate "1") Scenario.T1)
       = Some (500 + 300)
    /\ option_map row_balance (row_at w2 (aggregate "1") Scenario.T1)
       = Some (500 + 300 + 300).
Proof.
  intros event.
  apply (replayed_event_credits_twice (P := Toy.crypto)
           (X := Toy.collaborators (Some event) None)
           webhook_request Toy.env "1" (event_object event)
           (Toy.world Scenario.funded []) 300
           (Scenario.id_of Scenario.T1) "ada@example.com" Scenario.T1
           Scenario.row1).
  - reflexivity.
  - exists "{}", "t=1,v1=signature", event. repeat split.
  - repeat split.
  - vm_compute. reflexivity.
Defined.

(** ** The visitor without a store handle *)

Section VisitorFacts.
Context {P : WebCrypto} {X : Collaborators}.
Import WorldFacts.


End VisitorFacts.

